(** * Witness451: the generative eyeball (eyeball-generator-native.js)

    A shallow embedding of the seeded random stream, the attribute
    generator, the trait descriptor and the render pipeline of
    [src/eyeball-generator-native.js], with the properties the specification
    states about them.

    Numbers.  A JavaScript number is a binary64 float.  The embedding
    computes with exact rationals ([Q], kept in lowest terms), that is, it
    reads every arithmetic operator of the source as the operation on the
    reals.  For the random stream this loses nothing as long as the state
    is an integer from 0 up to 2^32, 2^32 excluded (every seed of the
    gallery is, and so is every state one [next()] leaves): there
    [state * 1664525 + 1013904223] stays below 2^53, and
    [state / 4294967296] is a dyadic rational a binary64 holds exactly;
    likewise every range with small integer bounds.  From state 5411272430
    on the sum is above 2^53 and a binary64 run rounds it, and a negative
    state gives a negative index and a [TypeError] in [generateColor]; the
    embedding says what the code does for states from 0 up to 2^32 only,
    and the theorems about states carry this bound.
    Elsewhere (the constants 0.85, 0.1, ..., the product
    [Math.random() * 1000000] and the sums the renderer accumulates) a
    binary64 run rounds where the embedding does not: the loops of
    [drawStar] and [drawPolygon] over [a += TWO_PI / 6] make a seventh
    round in binary64, where the sum of six steps is still below
    [TWO_PI], and six rounds here.  [Math.sin] and [Math.cos], which
    ECMAScript leaves to the implementation, are parameters of the
    renderer.

    Objects.  An object literal is the list of its own keys; [table[key]]
    is read as a lookup among them.  The source's [table[key]] also finds
    what every object inherits from [Object.prototype] ([constructor],
    [toString], [__proto__], ...; see [inherited]); no attribute
    [generateProperties] assigns is such a name, and the theorems that
    take an arbitrary key leave these names out. *)

From Stdlib Require Import ZArith QArith Qround Qabs String Ascii List Lia Lqa Bool.
From Stdlib Require Import DecimalString.
Import ListNotations.

Set Implicit Arguments.

(* ================================================================== *)
(** ** JavaScript numbers and the [Math] functions the source uses     *)
(* ================================================================== *)

Declare Scope js_scope.
Delimit Scope js_scope with js.

Module JS.

Local Open Scope Q_scope.

(** The type of JavaScript numbers. *)
Definition number : Type := Q.
Bind Scope js_scope with number.

Definition add (a b : number) : number := Qred (a + b).
Definition sub (a b : number) : number := Qred (a - b).
Definition mul (a b : number) : number := Qred (a * b).
Definition div (a b : number) : number := Qred (a / b).
Definition neg (a : number) : number := Qred (- a).

Definition ltb (a b : number) : bool := negb (Qle_bool b a).
Definition leb (a b : number) : bool := Qle_bool a b.
Definition gtb (a b : number) : bool := ltb b a.

Definition of_Z (z : Z) : number := inject_Z z.

(** [Math.floor], [Math.round] (ties towards plus infinity), [Math.min],
    [Math.max]. *)
Definition floor (a : number) : Z := Qfloor a.
Definition round (a : number) : Z := Qfloor (a + (1 # 2)).
Definition min (a b : number) : number := if ltb b a then b else a.
Definition max (a b : number) : number := if ltb a b then b else a.

(** [x % y] on numbers: the remainder has the sign of [x]. *)
Definition trunc (a : number) : Z :=
  if ltb a 0 then (- Qfloor (- a))%Z else Qfloor a.
Definition rem (a b : number) : number :=
  sub a (mul b (of_Z (trunc (a / b)))).

Definition string_of_Z (z : Z) : string := NilZero.string_of_int (Z.to_int z).

(** [x.toFixed(1)]: the integer [n] with [n / 10] nearest to [x], the
    larger one on a tie, printed with one decimal; a negative [x] is
    printed as minus the result for [-x]. *)
Definition toFixed1_nonneg (a : number) : string :=
  let n := Qfloor (a * 10 + (1 # 2)) in
  (string_of_Z (n / 10) ++ "." ++ string_of_Z (n mod 10))%string.
Definition toFixed1 (a : number) : string :=
  if ltb a 0 then ("-" ++ toFixed1_nonneg (- a))%string else toFixed1_nonneg a.

(** [String(n / 10)] for an integer [n >= 0]: the binary64 nearest to
    [n / 10] prints as the shortest decimal that reads back to it. *)
Definition string_of_tenths (n : Z) : string :=
  if (n mod 10 =? 0)%Z then string_of_Z (n / 10)
  else (string_of_Z (n / 10) ++ "." ++ string_of_Z (n mod 10))%string.

(** [Math.PI]. *)
Definition PI : number := 3.141592653589793.

(** [a % b] on integers held in numbers. *)
Definition remZ (a b : Z) : Z := Z.rem a b.

End JS.

Abbreviation number := JS.number.

Infix "+" := JS.add : js_scope.
Infix "-" := JS.sub : js_scope.
Infix "*" := JS.mul : js_scope.
Infix "/" := JS.div : js_scope.
Infix "<?" := JS.ltb : js_scope.
Infix ">?" := JS.gtb : js_scope.
Infix "<=?" := JS.leb : js_scope.
Notation "- x" := (JS.neg x) : js_scope.

(* ================================================================== *)
(** ** class SeededRandom                                              *)
(* ================================================================== *)

Module SeededRandom.

(** [constructor(seed) { this.seed = seed; }]

    The state is an integer, as the specification has it (a seed of the
    gallery lies in 0 .. 999999, and a state after [next()] in the 32-bit
    range); on integers [%] is [Z.rem], whose result has the sign of the
    dividend. *)
Record t : Type := mk { seed : Z }.

(** A method of the stream: the result and the stream afterwards. *)
Definition Rand (A : Type) : Type := t -> A * t.

Definition ret {A} (a : A) : Rand A := fun r => (a, r).
Definition bind {A B} (m : Rand A) (k : A -> Rand B) : Rand B :=
  fun r => let (a, r') := m r in k a r'.

Local Open Scope Q_scope.
Local Open Scope js_scope.

(** [this.seed = (this.seed * 1664525 + 1013904223) % 4294967296;
     return this.seed / 4294967296;]

    Exact on the integers; the source's binary64 agrees with it on the
    states from 0 up to 2^32 (see [next_exact_in_binary64]) and rounds the
    sum from state 5411272430 on. *)
Definition next : Rand number := fun r =>
  let seed' := Z.rem (seed r * 1664525 + 1013904223) 4294967296 in
  (JS.of_Z seed' / 4294967296, mk seed').

(** [range(min, max)]; [max] is [None] when the caller leaves it out. *)
Definition range_ (min : number) (max : option number) : Rand number :=
  let '(min, max) := match max with
                     | None => (0, min)
                     | Some max => (min, max)
                     end in
  bind next (fun v => ret (min + v * (max - min))).

Definition range (min max : number) : Rand number := range_ min (Some max).

(** [int(min, max) { return Math.floor(this.range(min, max + 1)); }] *)
Definition int (min max : Z) : Rand Z :=
  bind (range (JS.of_Z min) (JS.of_Z max + 1))
       (fun x => ret (JS.floor x)).

(** [array[i]]; [undefined] stands for what JavaScript yields outside
    the array. *)
Definition index {A} (undefined : A) (array : list A) (i : Z) : A :=
  if (i <? 0)%Z then undefined else nth (Z.to_nat i) array undefined.

(** [choice(array) { return array[this.int(0, array.length - 1)]; }] *)
Definition choice {A} (undefined : A) (array : list A) : Rand A :=
  bind (int 0 (Z.of_nat (length array) - 1))
       (fun i => ret (index undefined array i)).

(** [boolean(probability = 0.5) { return this.next() < probability; }] *)
Definition boolean_ (probability : option number) : Rand bool :=
  let probability := match probability with
                     | None => 0.5
                     | Some p => p
                     end in
  bind next (fun v => ret (v <? probability)).

Definition boolean (probability : number) : Rand bool :=
  boolean_ (Some probability).

(** The recurrence of the specification:
    [state' = (state * 1664525 + 1013904223) mod 2^32]. *)
Definition lcg (state : Z) : Z := ((state * 1664525 + 1013904223) mod 4294967296)%Z.

(** [n] calls of [next()]. *)
Fixpoint advance (n : nat) (r : t) : t :=
  match n with
  | O => r
  | S n => advance n (snd (next r))
  end.

(** A call of one of the methods, and what it returns; [Choice n] picks
    from the array [[0, ..., n - 1]]. *)
Inductive request : Type :=
| Next
| Range (min : number) (max : option number)
| Int (min max : Z)
| Choice (n : nat)
| Boolean (probability : option number).

Inductive reply : Type :=
| Number (x : number)
| Integer (i : Z)
| Flag (b : bool).

Definition serve (q : request) : Rand reply :=
  match q with
  | Next => bind next (fun x => ret (Number x))
  | Range min max => bind (range_ min max) (fun x => ret (Number x))
  | Int min max => bind (int min max) (fun i => ret (Integer i))
  | Choice n => bind (choice (-1)%Z (List.map Z.of_nat (seq 0 n)))
                     (fun i => ret (Integer i))
  | Boolean p => bind (boolean_ p) (fun b => ret (Flag b))
  end.

(** A call sequence run against a stream: the replies, in order. *)
Fixpoint serve_all (qs : list request) : Rand (list reply) :=
  match qs with
  | [] => ret []
  | q :: qs => bind (serve q) (fun a =>
              bind (serve_all qs) (fun rest => ret (a :: rest)))
  end.

End SeededRandom.

Declare Scope rand_scope.
Notation "x <- m ;; k" := (SeededRandom.bind m (fun x => k))
  (at level 61, m at next level, right associativity) : rand_scope.
Delimit Scope rand_scope with rand.

(* ================================================================== *)
(** ** class Eyeball: attributes and traits                            *)
(* ================================================================== *)

Module Eyeball.

Import SeededRandom.
Local Open Scope string_scope.
Local Open Scope Q_scope.
Local Open Scope js_scope.
Local Open Scope rand_scope.

(** A colour is the array [[r, g, b]]. *)
Definition rgb : Type := (number * number * number)%type.
Definition ch0 (c : rgb) : number := fst (fst c).
Definition ch1 (c : rgb) : number := snd (fst c).
Definition ch2 (c : rgb) : number := snd c.

Definition color (r g b : Z) : rgb := (JS.of_Z r, JS.of_Z g, JS.of_Z b).

(** What [generateProperties] assigns, in the order it assigns it. *)
Record Spec : Type := mkSpec {
  socketShape : string;
  socketSize : number;
  socketColor : rgb;
  scleraColor : rgb;
  scleraTexture : string;
  irisSize : number;
  irisShape : string;
  irisColor1 : rgb;
  irisColor2 : rgb;
  irisPattern : string;
  pupilSize : number;
  pupilShape : string;
  pupilColor : rgb;
  hasGlow : bool;
  hasLaser : bool;
  hasAura : bool;
  hasParticles : bool;
  hasLightning : bool;
  animationEnergy : number;
  effectColor : rgb;
  laserColor : rgb;
  auraColor : rgb;
  style : string;
  intensity : number
}.

(** An entry of [this.metadata.traits]. *)
Record trait : Type := mkTrait { name : string; value : string }.

(** A property lookup [table[key]] in an object literal, among the keys
    the literal lists.  (For a name of [Object.prototype] the source finds
    the inherited property instead of [undefined].) *)
Fixpoint lookup {A} (table : list (string * A)) (key : string) : option A :=
  match table with
  | [] => None
  | (k, v) :: rest => if String.eqb k key then Some v else lookup rest key
  end.

(** [${table[key]}]: a missing key prints as [undefined].  (A name of
    [Object.prototype] is not missing in the source: ['__proto__'] prints
    as [[object Object]].) *)
Definition label (table : list (string * string)) (key : string) : string :=
  match lookup table key with
  | Some v => v
  | None => "undefined"
  end.

Definition colorPalettes : list (string * list rgb) :=
  [ ("socket",
     [color 20 20 30; color 40 0 60; color 60 20 0; color 0 30 50;
      color 80 80 80; color 30 30 30; color 10 50 30]);
    ("sclera",
     [color 255 255 255; color 240 240 255; color 255 240 240; color 200 255 200;
      color 50 50 60; color 100 100 120; color 80 80 100; color 255 200 150]);
    ("iris",
     [color 0 150 255; color 255 0 150; color 150 255 0; color 255 150 0;
      color 200 0 200; color 0 255 200; color 255 255 0; color 150 0 255;
      color 255 100 100; color 100 255 100; color 100 100 255; color 255 0 0;
      color 0 255 0; color 0 0 255; color 255 255 255; color 50 255 150]);
    ("pupil",
     [color 0 0 0; color 20 0 40; color 40 0 0; color 0 20 40;
      color 255 255 255; color 255 0 0; color 0 255 255; color 255 255 0]);
    ("effect",
     [color 255 0 255; color 0 255 255; color 255 255 0; color 255 100 0;
      color 100 255 100; color 255 50 150; color 150 100 255; color 255 200 0]);
    ("laser",
     [color 255 0 0; color 0 255 0; color 0 100 255; color 255 0 255;
      color 255 255 0; color 255 100 0; color 100 255 255]);
    ("aura",
     [color 100 0 255; color 255 0 100; color 0 255 100; color 255 200 0;
      color 0 200 255; color 255 0 200; color 200 255 0]) ].

(** [const constrain = (val, min, max) => Math.min(max, Math.max(min, val));] *)
Definition constrain (val min max : number) : number :=
  JS.min max (JS.max min val).

(** The colour [choice] yields outside the palette.  From a state that is
    not negative it is never reached, see [choice_index_in_range]; from a
    negative state the index is negative, and the source throws a
    [TypeError] at [baseColor[0]] where [generateColor] below goes on with
    this colour.  The source throws as well when [type] is a name of
    [Object.prototype], which [colorPalettes[type]] finds. *)
Definition undefined_color : rgb := (0, 0, 0).

Definition generateColor (type : string) : Rand rgb :=
  let palette := match lookup colorPalettes type with
                 | Some p => p
                 | None => match lookup colorPalettes "iris" with
                           | Some p => p
                           | None => []
                           end
                 end in
  baseColor <- choice undefined_color palette ;;
  j0 <- range (-30) 30 ;;
  j1 <- range (-30) 30 ;;
  j2 <- range (-30) 30 ;;
  ret (constrain (ch0 baseColor + j0) 0 255,
       constrain (ch1 baseColor + j1) 0 255,
       constrain (ch2 baseColor + j2) 0 255).

Definition getColorName (c : rgb) : string :=
  let r := ch0 c in let g := ch1 c in let b := ch2 c in
  if (r >? 200) && (g >? 200) && (b >? 200) then "Ivory"
  else if (r <? 50) && (g <? 50) && (b <? 50) then "Obsidian"
  else if (r >? 200) && (g <? 100) && (b <? 100) then "Crimson"
  else if (r <? 100) && (g >? 200) && (b <? 100) then "Emerald"
  else if (r <? 100) && (g <? 100) && (b >? 200) then "Sapphire"
  else if (r >? 200) && (g >? 200) && (b <? 100) then "Golden"
  else if (r >? 200) && (g <? 100) && (b >? 200) then "Amethyst"
  else if (r <? 100) && (g >? 200) && (b >? 200) then "Turquoise"
  else if (r >? 150) && (g >? 100) && (b <? 100) then "Copper"
  else if (r >? 100) && (g >? 150) && (b <? 100) then "Jade"
  else if (r <? 100) && (g >? 100) && (b >? 150) then "Azure"
  else if (r >? 150) && (g <? 100) && (b >? 100) then "Rose"
  else if (r >? 100) && (g <? 100) && (b >? 150) then "Violet"
  else if (r >? 100) && (g >? 100) && (b >? 100) then "Silver"
  else if r >? 150 then "Ruby"
  else if g >? 150 then "Verdant"
  else if b >? 150 then "Cobalt"
  else "Mystic".

Definition portalTypes : list (string * string) :=
  [ ("circle", "Eternal Circle"); ("oval", "Mystic Oval");
    ("diamond", "Crystal Diamond"); ("almond", "Ancient Almond");
    ("star", "Stellar Gateway"); ("hexagon", "Sacred Hexagon") ].

Definition scleraNames : list (string * string) :=
  [ ("smooth", "Pure Essence"); ("veined", "Bloodbound Veins");
    ("cloudy", "Ethereal Mist"); ("metallic", "Liquid Metal");
    ("crystalline", "Crystal Matrix") ].

Definition irisPatterns : list (string * string) :=
  [ ("solid", "Void Core"); ("radial", "Stellar Burst");
    ("spiral", "Cosmic Spiral"); ("geometric", "Sacred Geometry");
    ("fractal", "Infinite Fractal"); ("crystalline", "Crystal Lattice");
    ("void", "Abyssal Void") ].

Definition pupilTypes : list (string * string) :=
  [ ("circle", "Eternal Portal"); ("slit", "Dragon Slit");
    ("star", "Celestial Star"); ("cross", "Divine Cross");
    ("diamond", "Soul Diamond"); ("multiple", "Trinity Gates");
    ("void", "Chaos Void") ].

Definition essenceTypes : list (string * string) :=
  [ ("organic", "Living Essence"); ("mechanical", "Cyber Matrix");
    ("cosmic", "Stellar Origin"); ("demonic", "Infernal Soul");
    ("angelic", "Divine Light"); ("digital", "Data Stream");
    ("crystal", "Crystal Core") ].

(** [Math.round(x * 10) / 10] printed in a template: the integer
    [Math.round(x * 10)], shown in tenths. *)
Definition rarity (x : number) : string :=
  let n := JS.round (x * 10) in
  if (n <? 0)%Z then "-" ++ JS.string_of_tenths (- n) else JS.string_of_tenths n.

(** [array.join(sep)] *)
Fixpoint join (sep : string) (array : list string) : string :=
  match array with
  | [] => ""
  | [x] => x
  | x :: rest => x ++ sep ++ join sep rest
  end.

(** The array [powers] after the five [if (this.has...) powers.push(...)]. *)
(** [array.push(x)], and [if (c) array.push(x)]. *)
Definition push {A} (array : list A) (x : A) : list A := app array [x].
Definition push_if {A} (c : bool) (x : A) (array : list A) : list A :=
  if c then push array x else array.

Definition powers_of (s : Spec) : list string :=
  let powers := [] in
  let powers := push_if (hasGlow s) "Ethereal Glow" powers in
  let powers := push_if (hasLaser s) "Laser Beam" powers in
  let powers := push_if (hasAura s) "Energy Aura" powers in
  let powers := push_if (hasParticles s) "Particle Storm" powers in
  let powers := push_if (hasLightning s) "Lightning Strike" powers in
  powers.

(** The five effect flags with their labels, in the order of the source,
    the labels of those that are set, and whether any is set. *)
Definition flags (s : Spec) : list (bool * string) :=
  [ (hasGlow s, "Ethereal Glow"); (hasLaser s, "Laser Beam");
    (hasAura s, "Energy Aura"); (hasParticles s, "Particle Storm");
    (hasLightning s, "Lightning Strike") ].

Definition active_labels (s : Spec) : list string :=
  List.map snd (List.filter fst (flags s)).

Definition any_power (s : Spec) : bool :=
  hasGlow s || hasLaser s || hasAura s || hasParticles s || hasLightning s.

(** [generateMetadata()]: the traits pushed, in order. *)
Definition generateMetadata (s : Spec) : Rand (list trait) :=
  let traits := [] in
  (* Portal Frame (Socket) *)
  let portalRarity := rarity ((socketSize s - 80) / (140 - 80)) in
  let traits := push traits
    (mkTrait "Portal Frame"
       (label portalTypes (socketShape s) ++ " (" ++ portalRarity ++ ")")) in
  (* Sclera Essence *)
  let scleraColor_ := getColorName (scleraColor s) in
  x <- range 1 10 ;;
  let traits := push traits
    (mkTrait "Sclera Essence"
       (scleraColor_ ++ " " ++ label scleraNames (scleraTexture s)
          ++ " (" ++ JS.toFixed1 x ++ ")")) in
  (* Iris Constellation *)
  let irisRarity := rarity ((irisSize s - 40) / (80 - 40)) in
  let irisColor := getColorName (irisColor1 s) in
  let traits := push traits
    (mkTrait "Iris Constellation"
       (irisColor ++ " " ++ label irisPatterns (irisPattern s)
          ++ " (" ++ irisRarity ++ ")")) in
  (* Pupil Gate *)
  let pupilRarity := rarity ((pupilSize s - 15) / (35 - 15)) in
  let pupilColor_ := getColorName (pupilColor s) in
  let traits := push traits
    (mkTrait "Pupil Gate"
       (pupilColor_ ++ " " ++ label pupilTypes (pupilShape s)
          ++ " (" ++ pupilRarity ++ ")")) in
  (* Arcane Powers *)
  let powers := powers_of s in
  traits <-
    (if (0 <? Z.of_nat (length powers))%Z then
       bonus <- range 0 2 ;;
       let powerLevel := JS.of_Z (Z.of_nat (length powers)) * 2 + bonus in
       ret (push traits
         (mkTrait "Arcane Powers"
            (join " + " powers ++ " (" ++ JS.toFixed1 powerLevel ++ ")")))
     else
       ret (push traits
         (mkTrait "Arcane Powers" "Pure Essence (1.0)"))) ;;
  (* Essence Type *)
  let intensityValue := JS.toFixed1 (intensity s * 10) in
  ret (push traits
         (mkTrait "Essence Type"
       (label essenceTypes (style s) ++ " (" ++ intensityValue ++ ")"))).

(** [generateProperties()]: the attributes, then the traits. *)
Definition generateProperties : Rand (Spec * list trait) :=
  socketShape <- choice "undefined" ["circle"; "oval"; "diamond"; "almond"; "star"; "hexagon"] ;;
  socketSize <- range 80 140 ;;
  socketColor <- generateColor "socket" ;;
  scleraColor <- generateColor "sclera" ;;
  scleraTexture <- choice "undefined" ["smooth"; "veined"; "cloudy"; "metallic"; "crystalline"] ;;
  irisSize <- range 40 80 ;;
  irisShape <- choice "undefined" ["circle"; "oval"; "star"; "diamond"; "octagon"; "spiral"] ;;
  irisColor1 <- generateColor "iris" ;;
  irisColor2 <- generateColor "iris" ;;
  irisPattern <- choice "undefined"
    ["solid"; "radial"; "spiral"; "geometric"; "fractal"; "crystalline"; "void"] ;;
  pupilSize <- range 15 35 ;;
  pupilShape <- choice "undefined"
    ["circle"; "slit"; "star"; "cross"; "diamond"; "multiple"; "void"] ;;
  pupilColor <- generateColor "pupil" ;;
  hasGlow <- boolean 0.6 ;;
  hasLaser <- boolean 0.3 ;;
  hasAura <- boolean 0.4 ;;
  hasParticles <- boolean 0.5 ;;
  hasLightning <- boolean 0.2 ;;
  animationEnergy <- range 0.1 1.0 ;;
  effectColor <- generateColor "effect" ;;
  laserColor <- generateColor "laser" ;;
  auraColor <- generateColor "aura" ;;
  style <- choice "undefined"
    ["organic"; "mechanical"; "cosmic"; "demonic"; "angelic"; "digital"; "crystal"] ;;
  intensity <- range 0.5 1.5 ;;
  let s := mkSpec socketShape socketSize socketColor scleraColor scleraTexture
                  irisSize irisShape irisColor1 irisColor2 irisPattern
                  pupilSize pupilShape pupilColor
                  hasGlow hasLaser hasAura hasParticles hasLightning
                  animationEnergy effectColor laserColor auraColor
                  style intensity in
  traits <- generateMetadata s ;;
  ret (s, traits).

(** An instance: the attributes, the traits and the mutable rest. *)
Record t : Type := mkEyeball {
  w : number;
  h : number;
  centerX : number;
  centerY : number;
  seed : Z;
  rng : SeededRandom.t;
  spec : Spec;
  metadata : list trait;
  time : number;
  animationSpeed : number
}.

(** The assignments [this.time = ...] and [this.rng.seed = ...]. *)
Definition with_time (this : t) (time' : number) : t :=
  mkEyeball (w this) (h this) (centerX this) (centerY this) (seed this)
            (rng this) (spec this) (metadata this) time' (animationSpeed this).

Definition with_rng (this : t) (rng' : SeededRandom.t) : t :=
  mkEyeball (w this) (h this) (centerX this) (centerY this) (seed this)
            rng' (spec this) (metadata this) (time this) (animationSpeed this).

(** [constructor(seed, canvasWidth = 300, canvasHeight = 300)]

    For a negative seed the source throws in [generateColor] and
    constructs nothing; what [new] returns then is no instance of the
    source. *)
Definition new (seed : Z) (canvasWidth canvasHeight : number) : t :=
  let rng := SeededRandom.mk seed in
  let '(s, traits, rng) := generateProperties rng in
  let '(animationSpeed, rng) := range 0.01 0.05 rng in
  mkEyeball canvasWidth canvasHeight (canvasWidth / 2) (canvasHeight / 2)
            seed rng s traits 0 animationSpeed.

End Eyeball.

(* ================================================================== *)
(** ** The 2D context and class CanvasHelper                           *)
(* ================================================================== *)

Module Canvas.

(** A value of [fillStyle] or [strokeStyle]: [rgb(r, g, b)],
    [rgba(r, g, b, a)] or ['transparent']. *)
Inductive style : Type :=
| style_rgb (r g b : number)
| style_rgba (r g b a : number)
| transparent.

(** What the helper does to the context [ctx], one entry per method call
    or property assignment. *)
Inductive call : Type :=
| save
| restore
| translate (x y : number)
| rotate (angle : number)
| fillStyle (s : style)
| strokeStyle (s : style)
| lineWidth (weight : number)
| fillRect (x y w h : number)
| beginPath
| ellipse (x y rx ry rotation startAngle endAngle : number)
| fill
| stroke
| moveTo (x y : number)
| lineTo (x y : number)
| closePath.

(** [ctx.canvas] *)
Record canvas : Type := mkCanvas { width : number; height : number }.

(** The stack of saved drawing states: its height after [calls], from
    height [d]; [None] when a [restore] finds nothing that was saved. *)
Fixpoint stack_depth (calls : list call) (d : nat) : option nat :=
  match calls with
  | [] => Some d
  | save :: rest => stack_depth rest (S d)
  | restore :: rest =>
      match d with
      | O => None
      | S d' => stack_depth rest d'
      end
  | _ :: rest => stack_depth rest d
  end.

(** Every [save] of [calls] is matched by a later [restore] of [calls],
    and every [restore] by an earlier [save]. *)
Definition balanced (calls : list call) : Prop :=
  stack_depth calls 0%nat = Some 0%nat.

End Canvas.

(** A frame runs against the mutable state it can reach: the helper's
    [firstVertex] and the instance's random stream; and it writes calls to
    the context. *)
Module Render.

Record state : Type := mkState {
  firstVertex : bool;
  rng : SeededRandom.t
}.

(** A computation that writes entries of type [W]. *)
Definition M (W A : Type) : Type := state -> A * state * list W.

Definition ret {W A} (a : A) : M W A := fun s => (a, s, []).
Definition bind {W A B} (m : M W A) (k : A -> M W B) : M W B :=
  fun s => let '(a, s1, w1) := m s in
           let '(b, s2, w2) := k a s1 in
           (b, s2, w1 ++ w2).

Definition emit {W} (c : W) : M W unit := fun s => (tt, s, [c]).

Definition get_firstVertex {W} : M W bool := fun s => (firstVertex s, s, []).
Definition set_firstVertex {W} (b : bool) : M W unit :=
  fun s => (tt, mkState b (rng s), []).

(** A method of [this.rng] called from a drawing routine. *)
Definition random {W A} (m : SeededRandom.Rand A) : M W A :=
  fun s => let (a, r) := m (rng s) in (a, mkState (firstVertex s) r, []).

Definition result {W A} (x : A * state * list W) : A := fst (fst x).
Definition final {W A} (x : A * state * list W) : state := snd (fst x).
Definition written {W A} (x : A * state * list W) : list W := snd x.

(** The routines of the renderer write calls to the context. *)
Definition R (A : Type) : Type := M Canvas.call A.

Definition when {W} (c : bool) (m : M W unit) : M W unit := if c then m else ret tt.

(** [array.forEach(body)], and the counted loops
    [for (let i = 0; i < n; i++)] and [for (let i = n; i > 0; i--)]. *)
Fixpoint forEach {W A} (array : list A) (body : A -> M W unit) : M W unit :=
  match array with
  | [] => ret tt
  | x :: rest => bind (body x) (fun _ => forEach rest body)
  end.

Definition upto (n : nat) : list Z := map Z.of_nat (seq 0 n).
Definition downfrom (n : nat) : list Z := rev (map Z.of_nat (seq 1 n)).

Definition for_up {W} (n : nat) (body : Z -> M W unit) : M W unit :=
  forEach (upto n) body.
Definition for_down {W} (n : nat) (body : Z -> M W unit) : M W unit :=
  forEach (downfrom n) body.

(** [for (let x = start; x < bound; x += inc) body(x)] on numbers.  The
    loop gets the rounds it needs when [inc] is positive,
    see [for_lt_rounds_suffice]. *)
Fixpoint for_lt_fuel {W} (fuel : nat) (x bound inc : number)
  (body : number -> M W unit) : M W unit :=
  match fuel with
  | O => ret tt
  | S fuel =>
      if JS.ltb x bound
      then bind (body x) (fun _ => for_lt_fuel fuel (JS.add x inc) bound inc body)
      else ret tt
  end.

Definition rounds (start bound inc : number) : nat :=
  Z.to_nat (Qceiling ((bound - start) / inc)).

Definition for_lt {W} (start bound inc : number) (body : number -> M W unit)
  : M W unit :=
  for_lt_fuel (rounds start bound inc) start bound inc body.

End Render.

Declare Scope render_scope.
Delimit Scope render_scope with render.
Notation "x <- m ;; k" := (Render.bind m (fun x => k))
  (at level 61, m at next level, right associativity) : render_scope.
Notation "m ;; k" := (Render.bind m (fun _ => k))
  (at level 61, right associativity) : render_scope.

Module CanvasHelper.

Import Render.
Local Open Scope Q_scope.
Local Open Scope js_scope.
Local Open Scope render_scope.

Definition TWO_PI : number := JS.PI * 2.
Definition PI : number := JS.PI.

Definition map (value start1 stop1 start2 stop2 : number) : number :=
  start2 + (stop2 - start2) * ((value - start1) / (stop1 - start1)).
Definition lerp (start stop amt : number) : number :=
  start + (stop - start) * amt.

Definition push : R unit := emit Canvas.save.
Definition pop : R unit := emit Canvas.restore.
Definition translate (x y : number) : R unit := emit (Canvas.translate x y).
Definition rotate (angle : number) : R unit := emit (Canvas.rotate angle).

Definition background (cv : Canvas.canvas) (r g b : number) : R unit :=
  emit (Canvas.fillStyle (Canvas.style_rgb r g b)) ;;
  emit (Canvas.fillRect 0 0 (Canvas.width cv) (Canvas.height cv)).

(** [fill(r, g, b, a = 255)] and [stroke(r, g, b, a = 255)]. *)
Definition fill4 (r g b a : number) : R unit :=
  emit (Canvas.fillStyle (Canvas.style_rgba r g b (a / 255))).
Definition fill (r g b : number) : R unit := fill4 r g b 255.

Definition stroke4 (r g b a : number) : R unit :=
  emit (Canvas.strokeStyle (Canvas.style_rgba r g b (a / 255))).
Definition stroke (r g b : number) : R unit := stroke4 r g b 255.

Definition strokeWeight (weight : number) : R unit := emit (Canvas.lineWidth weight).
Definition noStroke : R unit := emit (Canvas.strokeStyle Canvas.transparent).
Definition noFill : R unit := emit (Canvas.fillStyle Canvas.transparent).

(** [ellipse(x, y, w, h = w)]; every caller passes [h]. *)
Definition ellipse (x y w h : number) : R unit :=
  emit Canvas.beginPath ;;
  emit (Canvas.ellipse x y (w / 2) (h / 2) 0 0 TWO_PI) ;;
  emit Canvas.fill.

Definition line (x1 y1 x2 y2 : number) : R unit :=
  emit Canvas.beginPath ;;
  emit (Canvas.moveTo x1 y1) ;;
  emit (Canvas.lineTo x2 y2) ;;
  emit Canvas.stroke.

Definition rect (x y w h : number) : R unit :=
  emit (Canvas.fillRect (x - w / 2) (y - h / 2) w h).

(** [rectMode(mode) { }]: the body is empty. *)
Definition rectMode : R unit := ret tt.

Definition beginShape : R unit := emit Canvas.beginPath.

(** [endShape(close = false)] *)
Definition endShape (close : bool) : R unit :=
  when close (emit Canvas.closePath) ;;
  emit Canvas.fill ;;
  emit Canvas.stroke.

Definition vertex (x y : number) : R unit :=
  fv <- get_firstVertex ;;
  if fv then
    emit (Canvas.moveTo x y) ;;
    set_firstVertex false
  else
    emit (Canvas.lineTo x y).

Definition triangle (x1 y1 x2 y2 x3 y3 : number) : R unit :=
  emit Canvas.beginPath ;;
  emit (Canvas.moveTo x1 y1) ;;
  emit (Canvas.lineTo x2 y2) ;;
  emit (Canvas.lineTo x3 y3) ;;
  emit Canvas.closePath ;;
  emit Canvas.fill.

End CanvasHelper.

(* ================================================================== *)
(** ** class Eyeball: the drawing routines                             *)
(* ================================================================== *)

Module EyeballDraw.

Import Render CanvasHelper.
Local Open Scope string_scope.
Local Open Scope Q_scope.
Local Open Scope js_scope.
Local Open Scope render_scope.

Section Routines.

(** An integer counter used as a number. *)
Local Coercion JS.of_Z : Z >-> JS.number.

(** [Math.sin] and [Math.cos]. *)
Variables sin cos : number -> number.

(** The instance a routine runs on; a routine reads its fields. *)
Variable this : Eyeball.t.

Local Abbreviation centerX := (Eyeball.centerX this).
Local Abbreviation centerY := (Eyeball.centerY this).
Local Abbreviation time := (Eyeball.time this).
Local Abbreviation socketShape := (Eyeball.socketShape (Eyeball.spec this)).
Local Abbreviation socketSize := (Eyeball.socketSize (Eyeball.spec this)).
Local Abbreviation socketColor := (Eyeball.socketColor (Eyeball.spec this)).
Local Abbreviation scleraColor := (Eyeball.scleraColor (Eyeball.spec this)).
Local Abbreviation scleraTexture := (Eyeball.scleraTexture (Eyeball.spec this)).
Local Abbreviation irisSize := (Eyeball.irisSize (Eyeball.spec this)).
Local Abbreviation irisShape := (Eyeball.irisShape (Eyeball.spec this)).
Local Abbreviation irisColor1 := (Eyeball.irisColor1 (Eyeball.spec this)).
Local Abbreviation irisColor2 := (Eyeball.irisColor2 (Eyeball.spec this)).
Local Abbreviation irisPattern := (Eyeball.irisPattern (Eyeball.spec this)).
Local Abbreviation pupilSize := (Eyeball.pupilSize (Eyeball.spec this)).
Local Abbreviation pupilShape := (Eyeball.pupilShape (Eyeball.spec this)).
Local Abbreviation pupilColor := (Eyeball.pupilColor (Eyeball.spec this)).
Local Abbreviation hasGlow := (Eyeball.hasGlow (Eyeball.spec this)).
Local Abbreviation hasLaser := (Eyeball.hasLaser (Eyeball.spec this)).
Local Abbreviation animationEnergy := (Eyeball.animationEnergy (Eyeball.spec this)).
Local Abbreviation effectColor := (Eyeball.effectColor (Eyeball.spec this)).
Local Abbreviation laserColor := (Eyeball.laserColor (Eyeball.spec this)).
Local Abbreviation auraColor := (Eyeball.auraColor (Eyeball.spec this)).
Local Notation "c [0]" := (Eyeball.ch0 c) (at level 1, format "c [0]").
Local Notation "c [1]" := (Eyeball.ch1 c) (at level 1, format "c [1]").
Local Notation "c [2]" := (Eyeball.ch2 c) (at level 1, format "c [2]").

(** [for (let a = 0; a < p.TWO_PI; a += angle)] in [drawStar] and
    [drawPolygon]: with exact sums [npoints] rounds.  With six points the
    binary64 sum of six steps is below [TWO_PI] and the source makes a
    seventh round, whose vertices repeat the first ones up to rounding. *)
Definition drawStar (x y radius1 radius2 npoints : number) : R unit :=
  let angle := TWO_PI / npoints in
  let halfAngle := angle / 2.0 in
  set_firstVertex true ;;
  beginShape ;;
  for_lt 0 TWO_PI angle (fun a =>
    let sx := x + cos a * radius2 in
    let sy := y + sin a * radius2 in
    vertex sx sy ;;
    let sx := x + cos (a + halfAngle) * radius1 in
    let sy := y + sin (a + halfAngle) * radius1 in
    vertex sx sy) ;;
  endShape true.

Definition drawPolygon (x y radius npoints : number) : R unit :=
  let angle := TWO_PI / npoints in
  set_firstVertex true ;;
  beginShape ;;
  for_lt 0 TWO_PI angle (fun a =>
    let sx := x + cos a * radius in
    let sy := y + sin a * radius in
    vertex sx sy) ;;
  endShape true.

(** [switch (shape) { ... default: ... }] *)
Definition drawShape (shape : string) (size : number) : R unit :=
  if shape =? "circle" then
    ellipse 0 0 size size
  else if shape =? "oval" then
    ellipse 0 0 (size * 1.3) (size * 0.8)
  else if shape =? "diamond" then
    push ;;
    rotate (PI / 4) ;;
    rectMode ;;
    rect 0 0 (size * 0.7) (size * 0.7) ;;
    pop
  else if shape =? "star" then
    drawStar 0 0 (size / 2) (size / 4) 6
  else if shape =? "hexagon" then
    drawPolygon 0 0 (size / 2) 6
  else if shape =? "almond" then
    ellipse 0 0 (size * 1.5) (size * 0.6)
  else
    ellipse 0 0 size size.

Definition drawSocket : R unit :=
  push ;;
  translate centerX centerY ;;
  when hasGlow
    (for_down 5 (fun i =>
       fill4 socketColor[0] socketColor[1] socketColor[2] (50 - i * 8) ;;
       drawShape socketShape (socketSize + i * 10))) ;;
  fill socketColor[0] socketColor[1] socketColor[2] ;;
  drawShape socketShape socketSize ;;
  pop.

Definition drawVeins : R unit :=
  stroke4 200 100 100 100 ;;
  strokeWeight 1 ;;
  for_up 8 (fun i =>
    angle <- random (SeededRandom.range 0 TWO_PI) ;;
    length <- random (SeededRandom.range 20 40) ;;
    push ;;
    rotate angle ;;
    y2 <- random (SeededRandom.range (-5) 5) ;;
    line 0 0 length y2 ;;
    pop) ;;
  noStroke.

Definition drawSclera : R unit :=
  push ;;
  translate centerX centerY ;;
  when (scleraTexture =? "veined") drawVeins ;;
  let scleraSize := socketSize * 0.85 in
  fill scleraColor[0] scleraColor[1] scleraColor[2] ;;
  (if scleraTexture =? "metallic" then
     for_lt 0 scleraSize 2 (fun i =>
       let alpha := map i 0 scleraSize 255 100 in
       fill4 scleraColor[0] scleraColor[1] scleraColor[2] alpha ;;
       drawShape socketShape (scleraSize - i))
   else
     drawShape socketShape scleraSize) ;;
  pop.

Definition drawRadialPattern : R unit :=
  let segments := 12 in
  for_up 12 (fun i =>
    let angle := (TWO_PI / segments) * i in
    let colorLerp := i / segments in
    let r := lerp irisColor1[0] irisColor2[0] colorLerp in
    let g := lerp irisColor1[1] irisColor2[1] colorLerp in
    let b := lerp irisColor1[2] irisColor2[2] colorLerp in
    fill r g b ;;
    push ;;
    rotate angle ;;
    triangle 0 0 (irisSize / 2) (-5) (irisSize / 2) 5 ;;
    pop).

Definition drawSpiralPattern : R unit :=
  noFill ;;
  strokeWeight 3 ;;
  for_up 5 (fun i =>
    let colorLerp := i / 5 in
    let r := lerp irisColor1[0] irisColor2[0] colorLerp in
    let g := lerp irisColor1[1] irisColor2[1] colorLerp in
    let b := lerp irisColor1[2] irisColor2[2] colorLerp in
    stroke r g b ;;
    set_firstVertex true ;;
    beginShape ;;
    noFill ;;
    for_lt 0 (TWO_PI * 3) 0.1 (fun angle =>
      let radius := map angle 0 (TWO_PI * 3) 0 (irisSize / 2) in
      let x := cos (angle + time * animationEnergy + i) * radius in
      let y := sin (angle + time * animationEnergy + i) * radius in
      vertex x y) ;;
    endShape false) ;;
  noStroke.

Definition drawGeometricPattern : R unit :=
  let numRings := 4 in
  for_up 4 (fun ring =>
    let radius := map ring 0 (numRings - 1) (irisSize / 8) (irisSize / 2) in
    let numShapes := (6 + ring * 2)%Z in
    for_up (Z.to_nat numShapes) (fun i =>
      let angle := (TWO_PI / numShapes) * i
                   + time * animationEnergy * (ring + 1) in
      let x := cos angle * radius in
      let y := sin angle * radius in
      let colorLerp := ring / numRings in
      let r := lerp irisColor1[0] irisColor2[0] colorLerp in
      let g := lerp irisColor1[1] irisColor2[1] colorLerp in
      let b := lerp irisColor1[2] irisColor2[2] colorLerp in
      fill r g b ;;
      push ;;
      translate x y ;;
      rotate angle ;;
      rectMode ;;
      rect 0 0 5 5 ;;
      pop)).

(** [drawFractalLayer] past its base case: the circle, then what the four
    recursive calls do. *)
Definition fractal_node (size x y : number) (depth : Z)
  (west east north south : R unit) : R unit :=
  let colorLerp := map depth 0 4 1 0 in
  let r := lerp irisColor1[0] irisColor2[0] colorLerp in
  let g := lerp irisColor1[1] irisColor2[1] colorLerp in
  let b := lerp irisColor1[2] irisColor2[2] colorLerp in
  fill4 r g b 150 ;;
  ellipse x y size size ;;
  west ;; east ;; north ;; south.

(** [drawFractalLayer(p, size, x, y, depth)]: [None] when the calls nest
    deeper than [fuel]. *)
Fixpoint drawFractalLayer (fuel : nat) (size x y : number) (depth : Z)
  : option (R unit) :=
  match fuel with
  | O => None
  | S fuel =>
      if (depth <=? 0)%Z || (size <? 5) then Some (ret tt) (* return *)
      else
        let newSize := size * 0.6 in
        let offset := size * 0.3 in
        match drawFractalLayer fuel newSize (x - offset) y (depth - 1),
              drawFractalLayer fuel newSize (x + offset) y (depth - 1),
              drawFractalLayer fuel newSize x (y - offset) (depth - 1),
              drawFractalLayer fuel newSize x (y + offset) (depth - 1)
        with
        | Some west, Some east, Some north, Some south =>
            Some (fractal_node size x y depth west east north south)
        | _, _, _, _ => None
        end
  end.

(** The calls of [drawFractalLayer] that get past the base case, at most,
    when the first is made with depth [n]: one, and four times those of
    depth [n - 1]. *)
Fixpoint fractal_nodes (n : nat) : nat :=
  match n with
  | O => O
  | S n => S (4 * fractal_nodes n)
  end.

(** [this.drawFractalLayer(p, this.irisSize / 2, 0, 0, 4);] *)
Definition drawFractalPattern : R unit :=
  match drawFractalLayer 5 (irisSize / 2) 0 0 4 with
  | Some m => m
  | None => ret tt
  end.

Definition drawCrystallinePattern : R unit :=
  let numCrystals := 8 in
  for_up 8 (fun i =>
    let angle := (TWO_PI / numCrystals) * i in
    let radius := irisSize / 3 in
    let x := cos angle * radius in
    let y := sin angle * radius in
    fill4 irisColor1[0] irisColor1[1] irisColor1[2] 180 ;;
    push ;;
    translate x y ;;
    rotate angle ;;
    triangle 0 (-10) (-8) 10 8 10 ;;
    pop) ;;
  fill4 irisColor2[0] irisColor2[1] irisColor2[2] 220 ;;
  ellipse 0 0 (irisSize / 3) (irisSize / 3).

Definition drawVoidPattern : R unit :=
  for_down 20 (fun i =>
    let alpha := map i 0 20 0 255 in
    let size := map i 0 20 0 irisSize in
    (if (JS.remZ i 2 =? 0)%Z then
       fill4 irisColor1[0] irisColor1[1] irisColor1[2] alpha
     else
       fill4 0 0 0 alpha) ;;
    ellipse 0 0 size size).

(** The [laserGlow] both [drawIris] and [drawPupil] compute. *)
Definition laserGlow : number :=
  if hasLaser then
    let materializationCycle := time * animationEnergy * 0.4 in
    let materializationPhase := (sin materializationCycle + 1) / 2 in
    let materializationThreshold := 0.2 in
    if materializationPhase >? materializationThreshold then
      let matIntensity :=
        map materializationPhase materializationThreshold 1 0 1 in
      sin (matIntensity * PI)
    else 0
  else 0.

Definition drawIris : R unit :=
  push ;;
  translate centerX centerY ;;
  let offsetX := sin time * 5 * animationEnergy in
  let offsetY := cos (time * 0.7) * 3 * animationEnergy in
  translate offsetX offsetY ;;
  let laserGlow := laserGlow in
  (if irisPattern =? "radial" then drawRadialPattern
   else if irisPattern =? "spiral" then drawSpiralPattern
   else if irisPattern =? "geometric" then drawGeometricPattern
   else if irisPattern =? "fractal" then drawFractalPattern
   else if irisPattern =? "crystalline" then drawCrystallinePattern
   else if irisPattern =? "void" then drawVoidPattern
   else
     fill irisColor1[0] irisColor1[1] irisColor1[2] ;;
     drawShape irisShape irisSize) ;;
  when (laserGlow >? 0.1)
    (for_down 6 (fun i =>
       let glowAlpha := laserGlow * 30 * (i / 6) in
       let glowSize := irisSize + i * 6 in
       fill4 laserColor[0] laserColor[1] laserColor[2] glowAlpha ;;
       drawShape irisShape glowSize) ;;
     let innerGlowAlpha := laserGlow * 40 in
     fill4 255 255 255 innerGlowAlpha ;;
     drawShape irisShape (irisSize + 2) ;;
     let tintAlpha := laserGlow * 25 in
     fill4 laserColor[0] laserColor[1] laserColor[2] tintAlpha ;;
     drawShape irisShape irisSize) ;;
  pop.

Definition drawPupil : R unit :=
  push ;;
  translate centerX centerY ;;
  let offsetX := sin time * 5 * animationEnergy in
  let offsetY := cos (time * 0.7) * 3 * animationEnergy in
  translate offsetX offsetY ;;
  let laserGlow := laserGlow in
  (if pupilShape =? "multiple" then
     let numPupils := 3 in
     for_up 3 (fun i =>
       let angle := (TWO_PI / numPupils) * i in
       let x := cos angle * (pupilSize * 0.3) in
       let y := sin angle * (pupilSize * 0.3) in
       push ;;
       translate x y ;;
       fill pupilColor[0] pupilColor[1] pupilColor[2] ;;
       ellipse 0 0 (pupilSize * 0.5) (pupilSize * 0.5) ;;
       pop)
   else if pupilShape =? "slit" then
     fill pupilColor[0] pupilColor[1] pupilColor[2] ;;
     ellipse 0 0 (pupilSize * 0.3) pupilSize
   else if pupilShape =? "cross" then
     fill pupilColor[0] pupilColor[1] pupilColor[2] ;;
     rectMode ;;
     rect 0 0 (pupilSize * 0.3) pupilSize ;;
     rect 0 0 pupilSize (pupilSize * 0.3)
   else if pupilShape =? "void" then
     for_down 10 (fun i =>
       let alpha := map i 0 10 255 0 in
       fill4 0 0 0 alpha ;;
       let size := map i 0 10 pupilSize 0 in
       ellipse 0 0 size size)
   else
     fill pupilColor[0] pupilColor[1] pupilColor[2] ;;
     drawShape pupilShape pupilSize) ;;
  when (laserGlow >? 0.1)
    (for_down 3 (fun i =>
       let glowAlpha := laserGlow * 20 * (i / 3) in
       let glowSize := pupilSize + i * 3 in
       fill4 laserColor[0] laserColor[1] laserColor[2] glowAlpha ;;
       drawShape pupilShape glowSize) ;;
     let innerGlowAlpha := laserGlow * 30 in
     fill4 255 255 255 innerGlowAlpha ;;
     drawShape pupilShape (pupilSize + 1)) ;;
  pop.

Definition drawGlow : R unit :=
  push ;;
  translate centerX centerY ;;
  for_down 10 (fun i =>
    let alpha := map i 0 10 0 255 in
    let size := socketSize + i * 20 in
    fill4 effectColor[0] effectColor[1] effectColor[2] alpha ;;
    ellipse 0 0 size size) ;;
  for_down 5 (fun i =>
    let alpha := map i 0 5 0 255 in
    let size := socketSize + i * 8 in
    fill4 255 255 255 alpha ;;
    ellipse 0 0 size size) ;;
  pop.

Definition drawAura : R unit :=
  push ;;
  translate centerX centerY ;;
  let numRays := 20 in
  for_up 20 (fun i =>
    let angle := (TWO_PI / numRays) * i + time * 2 * animationEnergy in
    let length := 70 + sin (time * 3 * animationEnergy + i) * 40 * animationEnergy in
    let x1 := cos angle * (socketSize / 2) in
    let y1 := sin angle * (socketSize / 2) in
    let x2 := cos angle * (socketSize / 2 + length) in
    let y2 := sin angle * (socketSize / 2 + length) in
    stroke4 auraColor[0] auraColor[1] auraColor[2] 255 ;;
    strokeWeight 8 ;;
    line x1 y1 x2 y2 ;;
    stroke4 255 255 255 255 ;;
    strokeWeight 6 ;;
    line x1 y1 x2 y2 ;;
    stroke4 auraColor[0] auraColor[1] auraColor[2] 255 ;;
    strokeWeight 4 ;;
    line x1 y1 x2 y2 ;;
    stroke4 255 255 255 255 ;;
    strokeWeight 2 ;;
    line x1 y1 x2 y2) ;;
  noStroke ;;
  pop.

(** An element of [layers] in [drawLaser]. *)
Record laser_layer : Type := mkLayer {
  weight : number;
  alpha : number;
  color : Eyeball.rgb
}.

Definition white : Eyeball.rgb := (255, 255, 255).

Definition drawLaser : R unit :=
  push ;;
  translate centerX centerY ;;
  let offsetX := sin time * 5 * animationEnergy in
  let offsetY := cos (time * 0.7) * 3 * animationEnergy in
  translate offsetX offsetY ;;
  let materializationCycle := time * animationEnergy * 0.4 in
  let materializationPhase := (sin materializationCycle + 1) / 2 in
  let materializationThreshold := 0.2 in
  if materializationPhase <? materializationThreshold then
    pop (* return *)
  else
    let matIntensity := map materializationPhase materializationThreshold 1 0 1 in
    let fadeIn := sin (matIntensity * PI) in
    let sweepCycle := time * animationEnergy * 0.6 in
    let sweepStart := PI * 0.25 in
    let sweepEnd := PI * 0.75 in
    let sweepRange := sweepEnd - sweepStart in
    let sweepProgress := (sin sweepCycle + 1) / 2 in
    let laserAngle := sweepStart + sweepProgress * sweepRange in
    let pulseSpeed := animationEnergy * 12 in
    let pulseIntensity := 0.5 + 0.5 * sin (time * pulseSpeed) in
    let chargeUpEffect := 0.3 + 0.7 * sin (time * pulseSpeed * 1.5) in
    let laserLength := 400 * fadeIn in
    let numBeams := 2%Z in
    for_up 2 (fun beam =>
      let beamIntensity :=
        (if (beam =? 0)%Z then 1.0 else 0.7 - (beam * 0.15)) * fadeIn in
      let waveOffset := beam * 0.25 in
      let segments := 10 in
      let points :=
        List.map (fun i : Z =>
          let progress := i / segments in
          let distance := progress * laserLength in
          let x := cos laserAngle * distance in
          let y := sin laserAngle * distance in
          let waveFreq := 8 + beam in
          let baseWaveAmp := 3 * animationEnergy * beamIntensity in
          let timeOffset := time * 2 + waveOffset in
          let waveAmp := baseWaveAmp * (0.3 + 0.7 * progress) * fadeIn in
          let perpAngle := laserAngle + PI / 2 in
          let shimmer := 1 + 0.1 * sin (time * 4 + progress * 3) in
          let waveX := cos perpAngle * sin (progress * waveFreq + timeOffset)
                       * waveAmp * shimmer in
          let waveY := sin perpAngle * sin (progress * waveFreq + timeOffset)
                       * waveAmp * shimmer in
          let fanAngle := (beam - (numBeams - 1) / 2) * 0.015 in
          let fanX := cos (laserAngle + fanAngle) * distance in
          let fanY := sin (laserAngle + fanAngle) * distance in
          let x := fanX + waveX in
          let y := fanY + waveY in
          (x, y)) (upto 11) in
      let layers :=
        [ mkLayer (24 * beamIntensity * pulseIntensity)
                  (40 * beamIntensity * chargeUpEffect) laserColor;
          mkLayer (18 * beamIntensity * pulseIntensity)
                  (80 * beamIntensity * pulseIntensity) laserColor;
          mkLayer (14 * beamIntensity * pulseIntensity)
                  (140 * beamIntensity * pulseIntensity) white;
          mkLayer (10 * beamIntensity) (200 * beamIntensity) laserColor;
          mkLayer (6 * beamIntensity) (255 * beamIntensity) white;
          mkLayer (3 * beamIntensity) (255 * beamIntensity) laserColor ] in
      forEach layers (fun layer =>
        let finalAlpha := alpha layer * fadeIn in
        stroke4 (color layer)[0] (color layer)[1] (color layer)[2] finalAlpha ;;
        strokeWeight (weight layer) ;;
        beginShape ;;
        noFill ;;
        forEach points (fun point => vertex (fst point) (snd point)) ;;
        endShape false)) ;;
    when (fadeIn >? 0.5)
      (let numSourceParticles := 8 in
       for_up 8 (fun i =>
         let angle := (i / numSourceParticles) * TWO_PI + time * 3 in
         let radius := 15 + 10 * sin (time * 6 + i) in
         let particleX := cos angle * radius * fadeIn in
         let particleY := sin angle * radius * fadeIn in
         fill4 255 255 255 (180 * fadeIn) ;;
         ellipse particleX particleY 4 4 ;;
         fill4 laserColor[0] laserColor[1] laserColor[2] (255 * fadeIn) ;;
         ellipse particleX particleY 2 2)) ;;
    when ((chargeUpEffect >? 0.5) && (fadeIn >? 0.3))
      (let numParticles := 8 in
       for_up 8 (fun i =>
         let progress := (i / numParticles) + JS.rem (time * 0.7) 1 in
         let distance := progress * laserLength in
         let particleBeam := JS.remZ i numBeams in
         let fanAngle := (particleBeam - (numBeams - 1) / 2) * 0.015 in
         let x := cos (laserAngle + fanAngle) * distance in
         let y := sin (laserAngle + fanAngle) * distance in
         let perpAngle := laserAngle + PI / 2 in
         let particleWaveAmp := 2 * progress * fadeIn in
         let waveX := cos perpAngle * sin (progress * 8 + time * 3) * particleWaveAmp in
         let waveY := sin perpAngle * sin (progress * 8 + time * 3) * particleWaveAmp in
         let x := x + waveX in
         let y := y + waveY in
         let particleSize := 4 + 6 * chargeUpEffect * fadeIn in
         fill4 255 255 255 (220 * chargeUpEffect * fadeIn) ;;
         ellipse x y (particleSize * 1.5) (particleSize * 1.5) ;;
         fill4 laserColor[0] laserColor[1] laserColor[2] (255 * fadeIn) ;;
         ellipse x y particleSize particleSize ;;
         fill4 255 255 255 (120 * fadeIn) ;;
         ellipse (x - waveX * 0.3) (y - waveY * 0.3)
                 (particleSize * 0.5) (particleSize * 0.5))) ;;
    noStroke ;;
    pop.

Definition drawParticles : R unit :=
  push ;;
  translate centerX centerY ;;
  let numParticles := 25 in
  for_up 25 (fun i =>
    let angle := (TWO_PI / numParticles) * i + time * 1.5 * animationEnergy in
    let radius := socketSize / 2
                  + sin (time * 2 * animationEnergy + i) * 40 * animationEnergy in
    let x := cos angle * radius in
    let y := sin angle * radius in
    let size := 5 + sin (time * 4 * animationEnergy + i) * 4 * animationEnergy in
    fill4 effectColor[0] effectColor[1] effectColor[2] 255 ;;
    ellipse x y (size * 1.5) (size * 1.5) ;;
    fill4 255 255 255 255 ;;
    ellipse x y size size ;;
    fill4 effectColor[0] effectColor[1] effectColor[2] 255 ;;
    ellipse x y (size * 0.6) (size * 0.6) ;;
    let trailX := x - cos angle * 15 in
    let trailY := y - sin angle * 15 in
    fill4 effectColor[0] effectColor[1] effectColor[2] 255 ;;
    ellipse trailX trailY (size * 0.8) (size * 0.8) ;;
    let trail2X := x - cos angle * 25 in
    let trail2Y := y - sin angle * 25 in
    fill4 effectColor[0] effectColor[1] effectColor[2] 200 ;;
    ellipse trail2X trail2Y (size * 0.5) (size * 0.5)) ;;
  pop.

(** One of the three strokes of a bolt in [drawLightning]; the source
    writes the block out three times, with these arguments:
    [(255, 255, 255, 8)], [(200, 200, 255, 5)] and [(255, 255, 255, 2)]. *)
Definition boltStroke (startAngle startRadius endRadius : number)
  (r g b weight : number) : R unit :=
  let x := cos startAngle * startRadius in
  let y := sin startAngle * startRadius in
  stroke4 r g b 255 ;;
  strokeWeight weight ;;
  set_firstVertex true ;;
  beginShape ;;
  noFill ;;
  vertex x y ;;
  for_up 6 (fun step =>
    let progress := step / 6 in
    let targetRadius := lerp startRadius endRadius progress in
    ja <- random (SeededRandom.range (-0.4) 0.4) ;;
    let targetAngle := startAngle + ja in
    jx <- random (SeededRandom.range (-8) 8) ;;
    let x := cos targetAngle * targetRadius + jx in
    jy <- random (SeededRandom.range (-8) 8) ;;
    let y := sin targetAngle * targetRadius + jy in
    vertex x y) ;;
  endShape false.

Definition drawLightning : R unit :=
  push ;;
  translate centerX centerY ;;
  r <- random (SeededRandom.range 0 2) ;;
  let numBolts := (3 + JS.floor r)%Z in
  for_up (Z.to_nat numBolts) (fun i =>
    j <- random (SeededRandom.range (-0.3) 0.3) ;;
    let startAngle := (TWO_PI / numBolts) * i + j in
    let startRadius := irisSize / 2 in
    let endRadius := socketSize / 2 + 20 in
    boltStroke startAngle startRadius endRadius 255 255 255 8 ;;
    boltStroke startAngle startRadius endRadius 200 200 255 5 ;;
    boltStroke startAngle startRadius endRadius 255 255 255 2) ;;
  noStroke ;;
  pop.

Definition drawHighlights : R unit :=
  push ;;
  translate centerX centerY ;;
  let offsetX := sin time * 5 * animationEnergy in
  let offsetY := cos (time * 0.7) * 3 * animationEnergy in
  translate offsetX offsetY ;;
  fill4 255 255 255 180 ;;
  ellipse (- irisSize / 4) (- irisSize / 4) (irisSize / 4) (irisSize / 4) ;;
  fill4 255 255 255 100 ;;
  ellipse (irisSize / 3) (irisSize / 3) (irisSize / 6) (irisSize / 6) ;;
  pop.

End Routines.

(** The layers of a frame, in the words of the comments of [draw]. *)
Inductive layer : Type :=
| Background | Glow | Aura | Socket | Sclera | Iris | Pupil | Highlights
| Laser | Particles | Lightning.

(** The calls a routine writes, marked with the layer [draw] calls it for. *)
Definition in_layer (l : layer) (m : R unit) : M (layer * Canvas.call) unit :=
  fun s => let '(a, s', calls) := m s in (a, s', List.map (pair l) calls).

(** The body of [draw(ctx)] after [this.time] is advanced. *)
Definition layers (sin cos : number -> number) (ctx : Canvas.canvas)
  (this : Eyeball.t) : M (layer * Canvas.call) unit :=
  let s := Eyeball.spec this in
  in_layer Background (background ctx 10 10 15) ;;
  when (Eyeball.hasGlow s) (in_layer Glow (drawGlow this)) ;;
  when (Eyeball.hasAura s) (in_layer Aura (drawAura sin cos this)) ;;
  in_layer Socket (drawSocket sin cos this) ;;
  in_layer Sclera (drawSclera sin cos this) ;;
  in_layer Iris (drawIris sin cos this) ;;
  in_layer Pupil (drawPupil sin cos this) ;;
  in_layer Highlights (drawHighlights sin cos this) ;;
  when (Eyeball.hasLaser s) (in_layer Laser (drawLaser sin cos this)) ;;
  when (Eyeball.hasParticles s) (in_layer Particles (drawParticles sin cos this)) ;;
  when (Eyeball.hasLightning s) (in_layer Lightning (drawLightning sin cos this)).

(** Two instances that agree on everything a drawing routine reads of
    [this]: the attributes, the elapsed time and its step, the centre. *)
Definition same_view (a b : Eyeball.t) : Prop :=
  Eyeball.spec a = Eyeball.spec b
  /\ Eyeball.time a = Eyeball.time b
  /\ Eyeball.animationSpeed a = Eyeball.animationSpeed b
  /\ Eyeball.centerX a = Eyeball.centerX b
  /\ Eyeball.centerY a = Eyeball.centerY b.

(** [draw(ctx)]: the instance afterwards and the calls made on [ctx]. *)
Definition draw (sin cos : number -> number) (ctx : Canvas.canvas)
  (this : Eyeball.t) : Eyeball.t * list (layer * Canvas.call) :=
  (* const p = new CanvasHelper(ctx); *)
  let p := mkState false (Eyeball.rng this) in
  let this := Eyeball.with_time this
    (Eyeball.time this
     + Eyeball.animationSpeed this * Eyeball.animationEnergy (Eyeball.spec this)) in
  let '(_, p, calls) := layers sin cos ctx this p in
  (Eyeball.with_rng this (rng p), calls).

(** The layers the source draws last: ["Draw special effects LAST (front
    layer) - never covered by anything"]. *)
Definition effect_layer (l : layer) : bool :=
  match l with
  | Laser | Particles | Lightning => true
  | _ => false
  end.

(** The calls as the context receives them. *)
Definition calls_of (frame : Eyeball.t * list (layer * Canvas.call))
  : list Canvas.call :=
  List.map snd (snd frame).

End EyeballDraw.

(* ================================================================== *)
(** ** The page: the gallery and its buttons                           *)
(* ================================================================== *)

Module Gallery.

Local Open Scope string_scope.

(** An [Eyeball] object is shared by the array [eyeballs] and by the
    closure [animate] that draws it: both hold a reference, the place of
    the object among those constructed so far. *)
Definition ref : Type := nat.

(** What [requestAnimationFrame] returns. *)
Definition handle : Type := Z.

(** The closure [animate] of [generateEyeballWithSeed], over the instance
    it draws. *)
Inductive callback : Type :=
| animate_of (eyeball : ref).

(** What the page takes from the browser: [Math.random], [Math.sin],
    [Math.cos], [parseInt] ([None] for [NaN]), and the two functions of
    the animation frames, on a state of the browser's own. *)
Record environment : Type := mkEnvironment {
  browser : Type;
  Math_random : browser -> number * browser;
  Math_sin : number -> number;
  Math_cos : number -> number;
  parseInt : string -> option Z;
  requestAnimationFrame : callback -> browser -> handle * browser;
  cancelAnimationFrame : handle -> browser -> browser
}.

(** An [.eyeball-container] of the document: the label [#seed] on its
    canvas, the title of its metadata panel and the traits listed there. *)
Record card : Type := mkCard {
  seedInfo : string;
  title : string;
  traitsShown : list Eyeball.trait
}.

(** An entry of [attributes], and an entry of [allMetadata]. *)
Record attribute : Type := mkAttribute {
  trait_type : string;
  value : string
}.

Record entry : Type := mkEntry {
  name : string;
  description : string;
  image : string;
  external_url : string;
  attributes : list attribute;
  seed : Z;
  collection : string;
  edition : Z;
  total_supply : Z
}.

(** [array[i] = x] on an object that is there. *)
Fixpoint assign {A} (array : list A) (i : nat) (x : A) : list A :=
  match array, i with
  | [], _ => []
  | _ :: rest, O => x :: rest
  | y :: rest, S i => y :: assign rest i x
  end.

(** What happens on the page: a button is clicked ([FromSeed] after
    [typed] was typed into the input), or the browser calls the [animate]
    of an instance. *)
Inductive button : Type :=
| NewCollection
| SingleEye
| FromSeed (typed : string)
| Clear.

Inductive action : Type :=
| Click (b : button)
| Animate (eyeball : ref).

Section Page.

Variable env : environment.

(** The state the functions of the page share: the [Eyeball] objects
    constructed so far, the globals [eyeballs] and [animationLoops], the
    cards in [canvasContainer] (the element [init] looks up before
    anything else runs), the text of the input [seedInput], the alerts
    shown so far, and the browser. *)
Record page : Type := mkPage {
  objects : list Eyeball.t;
  eyeballs : list ref;
  animationLoops : list handle;
  cards : list card;
  seedInput : string;
  alerts : list string;
  window : browser env
}.

(** The page when the script is loaded: [let eyeballs = [];] and
    [let animationLoops = [];], an empty container and an empty input. *)
Definition loaded (w : browser env) : page := mkPage [] [] [] [] "" [] w.

Definition with_window (p : page) (w : browser env) : page :=
  mkPage (objects p) (eyeballs p) (animationLoops p) (cards p)
         (seedInput p) (alerts p) w.

(** [function animate() { eyeball.draw(ctx); requestAnimationFrame(animate); }]
    [draw] changes the object the closure holds; its calls go to the
    canvas of the card, 300 by 300, which no function of the page reads.
    The handle of the new request is dropped.  (A closure always has its
    object: the second branch is never taken.) *)
Definition animate (eyeball : ref) (p : page) : page :=
  let objects' :=
    match nth_error (objects p) eyeball with
    | Some e =>
        assign (objects p) eyeball
          (fst (EyeballDraw.draw (Math_sin env) (Math_cos env)
                  (Canvas.mkCanvas 300 300) e))
    | None => objects p
    end in
  let '(_, w) := requestAnimationFrame env (animate_of eyeball) (window p) in
  mkPage objects' (eyeballs p) (animationLoops p) (cards p)
         (seedInput p) (alerts p) w.

(** [generateEyeballWithSeed(seed)]: [new Eyeball(seed, 300, 300)], the
    card with its canvas, [requestAnimationFrame(animate)] and
    [animationLoops.push(animationId)], the metadata panel,
    [eyeballs.push(eyeball)], [return seed]. *)
Definition generateEyeballWithSeed (seed : Z) (p : page) : Z * page :=
  let eyeball := Eyeball.new seed 300 300 in
  let reference := length (objects p) in
  let objects' := Eyeball.push (objects p) eyeball in
  (* Start animation *)
  let '(animationId, w) :=
    requestAnimationFrame env (animate_of reference) (window p) in
  let animationLoops' := Eyeball.push (animationLoops p) animationId in
  (* the container with the canvas, the seed info and the metadata *)
  let cards' :=
    Eyeball.push (cards p)
      (mkCard ("#" ++ JS.string_of_Z seed)
              ("Witness #" ++ JS.string_of_Z seed)
              (Eyeball.metadata eyeball)) in
  let eyeballs' := Eyeball.push (eyeballs p) reference in
  (seed, mkPage objects' eyeballs' animationLoops' cards'
                (seedInput p) (alerts p) w).

(** [const seed = Math.floor(Math.random() * 1000000);
     return generateEyeballWithSeed(seed);]

    The product is exact here and rounded in binary64: the seed of the
    source can be one more than this one when the product is within a
    rounding error below an integer (0.000001 * 1000000 is 1 in binary64).
    In both the seed is from 0 to 999999. *)
Definition generateSingleEye (p : page) : Z * page :=
  let '(u, w) := Math_random env (window p) in
  let seed := JS.floor (JS.mul u 1000000) in
  generateEyeballWithSeed seed (with_window p w).

(** [generateFromSeed()]: [const seed = parseInt(seedInput.value);] then
    [if (seed && seed >= 1 && seed <= 999999)], where [NaN] and 0 are not
    truthy and no comparison holds of [NaN]; the input is cleared when the
    seed is taken, and the alert shown when it is not. *)
Definition generateFromSeed (p : page) : page :=
  let seed := parseInt env (seedInput p) in
  match seed with
  | Some seed =>
      if negb (seed =? 0)%Z && (1 <=? seed)%Z && (seed <=? 999999)%Z then
        let '(_, p) := generateEyeballWithSeed seed p in
        mkPage (objects p) (eyeballs p) (animationLoops p) (cards p)
               "" (alerts p) (window p)
      else
        mkPage (objects p) (eyeballs p) (animationLoops p) (cards p)
               (seedInput p)
               (Eyeball.push (alerts p)
                  "Please enter a valid seed between 1 and 999999")
               (window p)
  | None =>
      mkPage (objects p) (eyeballs p) (animationLoops p) (cards p)
             (seedInput p)
             (Eyeball.push (alerts p)
                "Please enter a valid seed between 1 and 999999")
             (window p)
  end.

(** [clearCollection()]: [animationLoops.forEach(id =>
    cancelAnimationFrame(id))], then the two globals are set to [[]] and
    every [.eyeball-container] is removed. *)
Definition clearCollection (p : page) : page :=
  (* Stop all animation loops *)
  let w := fold_left (fun w id => cancelAnimationFrame env id w)
                     (animationLoops p) (window p) in
  (* Remove all eyeball containers; clear the eyeballs array *)
  mkPage (objects p) [] [] [] (seedInput p) (alerts p) w.

(** [for (let i = 0; i < n; i++) generateSingleEye();] *)
Fixpoint generateEyes (n : nat) (p : page) : page :=
  match n with
  | O => p
  | S n => generateEyes n (snd (generateSingleEye p))
  end.

(** [generateNewCollection()] *)
Definition generateNewCollection (p : page) : page :=
  let p := clearCollection p in
  let numEyeballs := 12%nat in
  generateEyes numEyeballs p.

(** [init()]: after [canvasContainer] is looked up,
    [generateNewCollection()]. *)
Definition init (p : page) : page := generateNewCollection p.

(** [eyeballs.map((eyeball, index) => ({ ... }))], from position [index]
    on; [length_] is [eyeballs.length].  (A reference of [eyeballs] always
    has its object: the second branch is never taken.) *)
Fixpoint entries (objects : list Eyeball.t) (length_ : Z) (index : Z)
  (refs : list ref) : list entry :=
  match refs with
  | [] => []
  | r :: rest =>
      let mapped :=
        match nth_error objects r with
        | Some eyeball =>
          [ mkEntry
              ("Witness #" ++ JS.string_of_Z (Eyeball.seed eyeball))
              "A unique generative abstract eyeball from the Witness collection. Each eye possesses distinct arcane powers and mystical properties, forged from the depths of digital consciousness."
              ("witness_" ++ JS.string_of_Z (Eyeball.seed eyeball) ++ ".png")
              ("https://witness.io/eye/" ++ JS.string_of_Z (Eyeball.seed eyeball))
              (List.map (fun trait =>
                           mkAttribute (Eyeball.name trait) (Eyeball.value trait))
                        (Eyeball.metadata eyeball))
              (Eyeball.seed eyeball)
              "Witness"
              (index + 1)
              length_ ]
        | None => []
        end in
      app mapped (entries objects length_ (index + 1) rest)
  end.

(** [exportMetadata()]: the value of [allMetadata]; the download of it as
    a file is the browser's. *)
Definition exportMetadata (p : page) : list entry :=
  entries (objects p) (Z.of_nat (length (eyeballs p))) 0 (eyeballs p).

(** The handlers of the buttons. *)
Definition click (p : page) (b : button) : page :=
  match b with
  | NewCollection => generateNewCollection p
  | SingleEye => snd (generateSingleEye p)
  | FromSeed typed =>
      generateFromSeed
        (mkPage (objects p) (eyeballs p) (animationLoops p) (cards p)
                typed (alerts p) (window p))
  | Clear => clearCollection p
  end.

Definition step (p : page) (a : action) : page :=
  match a with
  | Click b => click p b
  | Animate eyeball => animate eyeball p
  end.

(** The page after [init] and the actions [acts]. *)
Definition run (w : browser env) (acts : list action) : page :=
  fold_left step acts (init (loaded w)).

End Page.

End Gallery.

(** A browser, as far as the page can tell, after the animation frames
    of the HTML Standard: [Math.random] hands out the numbers of [entropy]
    one after the other; [requestAnimationFrame] adds one to the
    identifier of the document, returns it as the handle and puts the
    callback under it with those that wait for the next frame;
    [cancelAnimationFrame] takes the callback under a handle away. *)
Module Browser.

Import Gallery.

Record t : Type := mk {
  entropy : nat -> number;
  drawn : nat;
  identifier : Z;
  callbacks : list (handle * callback)
}.

Definition random (w : t) : number * t :=
  (entropy w (drawn w),
   mk (entropy w) (S (drawn w)) (identifier w) (callbacks w)).

Definition request (cb : callback) (w : t) : handle * t :=
  let h := (identifier w + 1)%Z in
  (h, mk (entropy w) (drawn w) h (callbacks w ++ [(h, cb)])).

Definition cancel (h : handle) (w : t) : t :=
  mk (entropy w) (drawn w) (identifier w)
     (List.filter (fun c => negb (fst c =? h)%Z) (callbacks w)).

Definition environment (sin cos : number -> number)
  (parseInt : string -> option Z) : Gallery.environment :=
  mkEnvironment random sin cos parseInt request cancel.

(** The browser runs the callbacks that wait for a frame: it takes them
    all and calls each; what a callback requests waits for the next
    frame. *)
Definition frame (sin cos : number -> number) (parseInt : string -> option Z)
  (p : page (environment sin cos parseInt))
  : page (environment sin cos parseInt) :=
  let w : t := window p in
  let waiting := callbacks w in
  let w' : t := mk (entropy w) (drawn w) (identifier w) [] in
  fold_left
    (fun p c => match snd c with animate_of eyeball => animate eyeball p end)
    waiting (with_window p (w' : browser (environment sin cos parseInt))).

(** What happens in the browser: a button is clicked, or a frame is due. *)
Inductive event : Type :=
| Button (b : button)
| Frame.

Definition happen (sin cos : number -> number) (parseInt : string -> option Z)
  (p : page (environment sin cos parseInt)) (e : event)
  : page (environment sin cos parseInt) :=
  match e with
  | Button b => click p b
  | Frame => frame p
  end.

(** The page after [init] and [events], in a browser that has handed out
    no number and no handle yet. *)
Definition play (sin cos : number -> number) (parseInt : string -> option Z)
  (numbers : nat -> number) (events : list event)
  : page (environment sin cos parseInt) :=
  fold_left (@happen sin cos parseInt) events
    (init (loaded (environment sin cos parseInt)
                  (mk numbers 0 0 [] : browser (environment sin cos parseInt)))).

End Browser.


(* ================================================================== *)
(** ** The vocabulary of the properties                                *)
(* ================================================================== *)

Section Vocabulary.

Import SeededRandom Render CanvasHelper EyeballDraw.

(** A method that makes [n] draws, whatever it returns. *)
Definition consumes {A} (m : Rand A) (n : nat) : Prop :=
  forall r, snd (m r) = advance n r.

(** The names of the six slots of the manifest, in order. *)
Definition trait_names : list string :=
  [ "Portal Frame"; "Sclera Essence"; "Iris Constellation"; "Pupil Gate";
    "Arcane Powers"; "Essence Type" ]%string.

(** [m] takes the stack from height [d] to height [d']. *)
Definition shifts {A} (m : R A) (d d' : nat) : Prop :=
  forall s, Canvas.stack_depth (written (m s)) d = Some d'.


(** The state of the helper when [draw] creates it, and the instance with
    [this.time] advanced. *)
Definition fresh_helper (this : Eyeball.t) : state :=
  mkState false (Eyeball.rng this).

Definition advanced (this : Eyeball.t) : Eyeball.t :=
  Eyeball.with_time this
    (JS.add (Eyeball.time this)
       (JS.mul (Eyeball.animationSpeed this)
          (Eyeball.animationEnergy (Eyeball.spec this)))).

(** [m], writing marked calls, takes the stack from [d] to [d']. *)
Definition shifts_marked {A} (m : M (layer * Canvas.call) A) (d d' : nat) : Prop :=
  forall s, Canvas.stack_depth (List.map snd (written (m s))) d = Some d'.

(** The marked calls split into a front of the other layers and a back of
    laser, particles and lightning. *)
Definition effects_last (w : list (layer * Canvas.call)) : Prop :=
  exists front back,
    w = front ++ back
    /\ Forall (fun c => effect_layer (fst c) = false) front
    /\ Forall (fun c => effect_layer (fst c) = true) back.

(** [m] writes calls of the effect layers only ([side = true]), or of the
    other layers only ([side = false]). *)
Definition writes_side {A} (side : bool) (m : M (layer * Canvas.call) A) : Prop :=
  forall s, Forall (fun c => effect_layer (fst c) = side) (written (m s)).

(** The state with another stream in place of its own. *)
Definition reseed (r : SeededRandom.t) (s : state) : state :=
  mkState (firstVertex s) r.

(** [m] neither reads the stream nor moves it. *)
Definition blind {W A} (m : M W A) : Prop :=
  forall s r, m (reseed r s) = (result (m s), reseed r (final (m s)), written (m s)).

(** [m] makes [n] draws from the stream. *)
Definition draws {W A} (m : M W A) (n : nat) : Prop :=
  forall s, rng (final (m s)) = advance n (rng s).

(** The bolts [drawLightning] draws when it finds the stream in state [r]:
    [3 + Math.floor(this.rng.range(0, 2))]. *)
Definition bolts (r : SeededRandom.t) : nat :=
  Z.to_nat (3 + JS.floor (fst (range 0 2 r))).

(** The draws of a frame from the stream in state [r]: 24 for the veins,
    then one for the number of bolts and 55 for each bolt. *)
Definition vein_draws (s : Eyeball.Spec) : nat :=
  if (Eyeball.scleraTexture s =? "veined")%string then 24 else 0.

Definition frame_draws (s : Eyeball.Spec) (r : SeededRandom.t) : nat :=
  vein_draws s
  + (if Eyeball.hasLightning s
     then 1 + 55 * bolts (advance (vein_draws s) r)
     else 0).

End Vocabulary.

Section AttributeVocabulary.
Import SeededRandom Eyeball.
Local Open Scope Q_scope.
Local Open Scope string_scope.

(** A channel an [rgb(...)] style can show, and a colour of such channels. *)
Definition valid_channel (x : number) : Prop := 0 <= x <= 255.

Definition valid_color (c : rgb) : Prop :=
  valid_channel (ch0 c) /\ valid_channel (ch1 c) /\ valid_channel (ch2 c).

(** [c] is within 30 of [base] in each channel. *)
Definition near (c base : rgb) : Prop :=
  (ch0 base - 30 <= ch0 c <= ch0 base + 30)
  /\ (ch1 base - 30 <= ch1 c <= ch1 base + 30)
  /\ (ch2 base - 30 <= ch2 c <= ch2 base + 30).

(** From a state that is not negative, [m] returns a value with [P] and
    leaves a state that is not negative. *)
Definition yields {A} (m : Rand A) (P : A -> Prop) : Prop :=
  forall r, (0 <= SeededRandom.seed r)%Z ->
    P (fst (m r)) /\ (0 <= SeededRandom.seed (snd (m r)))%Z.

(** The property names every object inherits from [Object.prototype]
    (ECMAScript, Properties of the Object Prototype Object and Annex B):
    for these [table[key]] of the source finds the inherited property, a
    function or the prototype, where [lookup] finds nothing. *)
Definition inherited : list string :=
  [ "constructor"; "hasOwnProperty"; "isPrototypeOf"; "propertyIsEnumerable";
    "toLocaleString"; "toString"; "valueOf"; "__proto__";
    "__defineGetter__"; "__defineSetter__"; "__lookupGetter__";
    "__lookupSetter__" ].

(** The names [getColorName] can return. *)
Definition colorNames : list string :=
  [ "Ivory"; "Obsidian"; "Crimson"; "Emerald"; "Sapphire"; "Golden";
    "Amethyst"; "Turquoise"; "Copper"; "Jade"; "Azure"; "Rose"; "Violet";
    "Silver"; "Ruby"; "Verdant"; "Cobalt"; "Mystic" ].

(** The attributes as [generateProperties] can assign them. *)
Definition valid_spec (s : Spec) : Prop :=
  In (socketShape s) ["circle"; "oval"; "diamond"; "almond"; "star"; "hexagon"]
  /\ 80 <= socketSize s < 140
  /\ In (scleraTexture s) ["smooth"; "veined"; "cloudy"; "metallic"; "crystalline"]
  /\ 40 <= irisSize s < 80
  /\ In (irisShape s) ["circle"; "oval"; "star"; "diamond"; "octagon"; "spiral"]
  /\ In (irisPattern s)
       ["solid"; "radial"; "spiral"; "geometric"; "fractal"; "crystalline"; "void"]
  /\ 15 <= pupilSize s < 35
  /\ In (pupilShape s)
       ["circle"; "slit"; "star"; "cross"; "diamond"; "multiple"; "void"]
  /\ 0.1 <= animationEnergy s < 1
  /\ In (style s)
       ["organic"; "mechanical"; "cosmic"; "demonic"; "angelic"; "digital"; "crystal"]
  /\ 0.5 <= intensity s < 1.5
  /\ Forall valid_color
       [ socketColor s; scleraColor s; irisColor1 s; irisColor2 s; pupilColor s;
         effectColor s; laserColor s; auraColor s ].


End AttributeVocabulary.

Section FrameVocabulary.
Import Render CanvasHelper EyeballDraw.

(** The layers of a frame in the order [draw] calls their routines, and
    whether [draw] calls the routine of a layer for attributes [s]. *)
Definition all_layers : list layer :=
  [ Background; Glow; Aura; Socket; Sclera; Iris; Pupil; Highlights;
    Laser; Particles; Lightning ].

Definition layer_on (s : Eyeball.Spec) (l : layer) : bool :=
  match l with
  | Glow => Eyeball.hasGlow s
  | Aura => Eyeball.hasAura s
  | Laser => Eyeball.hasLaser s
  | Particles => Eyeball.hasParticles s
  | Lightning => Eyeball.hasLightning s
  | _ => true
  end.

(** The calls of one routine, marked with its layer. *)
Definition block (b : layer * list Canvas.call) : list (layer * Canvas.call) :=
  List.map (pair (fst b)) (snd b).

(** The marked calls [m] writes are one block for each layer of [ls], in
    this order, and no block is empty. *)
Definition layered (m : M (layer * Canvas.call) unit) (ls : list layer) : Prop :=
  forall s, exists blocks : list (layer * list Canvas.call),
    written (m s) = flat_map block blocks
    /\ List.map fst blocks = ls
    /\ Forall (fun b => snd b <> []) blocks.

(** [m] writes at least one call. *)
Definition writes {A} (m : R A) : Prop := forall s, written (m s) <> [].

End FrameVocabulary.

Section PowerVocabulary.
Import EyeballDraw.
Local Open Scope string_scope.

(** The effect layers with the labels [generateMetadata] reports them by. *)
Definition effect_labels : list (layer * string) :=
  [ (Glow, "Ethereal Glow"); (Laser, "Laser Beam"); (Aura, "Energy Aura");
    (Particles, "Particle Storm"); (Lightning, "Lightning Strike") ].

End PowerVocabulary.

Section LookVocabulary.
Import Eyeball.
Local Open Scope string_scope.

(** The instance with other attributes, and attributes with one of them
    replaced. *)
Definition with_spec (this : Eyeball.t) (s : Spec) : Eyeball.t :=
  mkEyeball (w this) (h this) (centerX this) (centerY this) (seed this)
            (rng this) s (metadata this) (time this) (animationSpeed this).

Definition set_essence (s : Spec) (style' : string) (intensity' : number) : Spec :=
  mkSpec (socketShape s) (socketSize s) (socketColor s) (scleraColor s)
         (scleraTexture s) (irisSize s) (irisShape s) (irisColor1 s)
         (irisColor2 s) (irisPattern s) (pupilSize s) (pupilShape s)
         (pupilColor s) (hasGlow s) (hasLaser s) (hasAura s) (hasParticles s)
         (hasLightning s) (animationEnergy s) (effectColor s) (laserColor s)
         (auraColor s) style' intensity'.

Definition set_scleraTexture (s : Spec) (texture : string) : Spec :=
  mkSpec (socketShape s) (socketSize s) (socketColor s) (scleraColor s)
         texture (irisSize s) (irisShape s) (irisColor1 s)
         (irisColor2 s) (irisPattern s) (pupilSize s) (pupilShape s)
         (pupilColor s) (hasGlow s) (hasLaser s) (hasAura s) (hasParticles s)
         (hasLightning s) (animationEnergy s) (effectColor s) (laserColor s)
         (auraColor s) (style s) (intensity s).

Definition set_irisShape (s : Spec) (shape : string) : Spec :=
  mkSpec (socketShape s) (socketSize s) (socketColor s) (scleraColor s)
         (scleraTexture s) (irisSize s) shape (irisColor1 s)
         (irisColor2 s) (irisPattern s) (pupilSize s) (pupilShape s)
         (pupilColor s) (hasGlow s) (hasLaser s) (hasAura s) (hasParticles s)
         (hasLightning s) (animationEnergy s) (effectColor s) (laserColor s)
         (auraColor s) (style s) (intensity s).

(** A texture [drawSclera] has no branch for, and a shape [drawShape] has
    no case for other than ['circle']. *)
Definition plain_texture (texture : string) : bool :=
  negb (texture =? "veined") && negb (texture =? "metallic").

Definition plain_shape (shape : string) : bool :=
  negb (shape =? "oval") && negb (shape =? "diamond") && negb (shape =? "star")
  && negb (shape =? "hexagon") && negb (shape =? "almond").

End LookVocabulary.

Section PathVocabulary.
Import Render CanvasHelper EyeballDraw.

Definition is_moveTo (c : Canvas.call) : bool :=
  match c with
  | Canvas.moveTo _ _ => true
  | _ => false
  end.

(** [m] leaves the helper's [firstVertex] false when it finds it false. *)
Definition keeps_flag {W A} (m : M W A) : Prop :=
  forall s, firstVertex s = false -> firstVertex (final (m s)) = false.

(** [m] leaves [firstVertex] false however it finds it. *)
Definition clears_flag {W A} (m : M W A) : Prop :=
  forall s, firstVertex (final (m s)) = false.

(** From a helper whose [firstVertex] is false, [m] leaves it false and
    calls no [moveTo]. *)
Definition lineTo_only {A} (m : R A) : Prop :=
  forall s, firstVertex s = false ->
    firstVertex (final (m s)) = false
    /\ Forall (fun c => is_moveTo c = false) (written (m s)).

(** The same for marked calls, of the calls of the laser layer. *)
Definition laser_lineTo_only {A} (m : M (layer * Canvas.call) A) : Prop :=
  forall s, firstVertex s = false ->
    firstVertex (final (m s)) = false
    /\ Forall (fun c => fst c = Laser -> is_moveTo (snd c) = false)
              (written (m s)).

End PathVocabulary.

Section GalleryVocabulary.
Import Gallery.
Local Open Scope string_scope.

(** An instance the gallery constructed, after any number of frames: its
    seed is one the gallery uses, and its attributes and traits are those
    the constructor gave it. *)
Definition made (e : Eyeball.t) : Prop :=
  (0 <= Eyeball.seed e <= 999999)%Z
  /\ Eyeball.spec e = Eyeball.spec (Eyeball.new (Eyeball.seed e) 300 300)
  /\ Eyeball.metadata e
     = Eyeball.metadata (Eyeball.new (Eyeball.seed e) 300 300).

(** The card [c] is that of the object under [r]. *)
Definition shows (objects : list Eyeball.t) (r : ref) (c : card) : Prop :=
  exists e,
    nth_error objects r = Some e
    /\ seedInfo c = "#" ++ JS.string_of_Z (Eyeball.seed e)
    /\ title c = "Witness #" ++ JS.string_of_Z (Eyeball.seed e)
    /\ traitsShown c = Eyeball.metadata e.

(** [objs'] holds every object of [objs], with its seed and traits. *)
Definition keeps_objects (objs objs' : list Eyeball.t) : Prop :=
  forall r e, nth_error objs r = Some e ->
    exists e', nth_error objs' r = Some e'
      /\ Eyeball.seed e' = Eyeball.seed e
      /\ Eyeball.metadata e' = Eyeball.metadata e.

(** The globals and the document agree. *)
Definition consistent {env} (p : page env) : Prop :=
  Forall made (objects p)
  /\ Forall2 (shows (objects p)) (eyeballs p) (cards p)
  /\ length (animationLoops p) = length (eyeballs p).

(** [Math.random()] returns a number from 0 up to 1, 1 excluded. *)
Definition random_in_unit_interval (env : environment) : Prop :=
  forall w, (0 <= fst (Math_random env w) < 1)%Q.

Definition attribute_of (trait : Eyeball.trait) : attribute :=
  mkAttribute (Eyeball.name trait) (Eyeball.value trait).

End GalleryVocabulary.

Section AnimationVocabulary.
Import Gallery Browser.

(** No handle the page keeps, and no handle of a callback that waits, is
    above the identifier of the document. *)
Definition handles_known (sin cos : number -> number)
  (parseInt : string -> option Z)
  (p : page (Browser.environment sin cos parseInt)) : Prop :=
  let w : Browser.t := window p in
  Forall (fun h => (h <= identifier w)%Z) (animationLoops p)
  /\ Forall (fun c => (fst c <= identifier w)%Z) (callbacks w).

End AnimationVocabulary.

(* ================================================================== *)
(** * Properties                                                       *)
(* ================================================================== *)

Unset Implicit Arguments.

(** ** Numbers *)

Section NumberFacts.

Local Open Scope Q_scope.

Lemma add_correct (a b : number) : JS.add a b == a + b.
Proof. apply Qred_correct. Qed.

Lemma sub_correct (a b : number) : JS.sub a b == a - b.
Proof. apply Qred_correct. Qed.

Lemma mul_correct (a b : number) : JS.mul a b == a * b.
Proof. apply Qred_correct. Qed.

Lemma div_correct (a b : number) : JS.div a b == a / b.
Proof. apply Qred_correct. Qed.

Lemma ltb_lt (a b : number) : JS.ltb a b = true <-> a < b.
Proof.
  unfold JS.ltb. rewrite negb_true_iff, <- not_true_iff_false, Qle_bool_iff.
  split; [apply Qnot_le_lt | apply Qlt_not_le].
Qed.

Lemma ltb_ge (a b : number) : JS.ltb a b = false <-> b <= a.
Proof.
  unfold JS.ltb. rewrite negb_false_iff. apply Qle_bool_iff.
Qed.

Lemma floor_between (x : number) (lo hi : Z) :
  inject_Z lo <= x -> x < inject_Z (hi + 1) -> (lo <= JS.floor x <= hi)%Z.
Proof.
  intros Hlo Hhi. unfold JS.floor. split.
  - rewrite <- (Qfloor_Z lo). now apply Qfloor_resp_le.
  - assert (H : inject_Z (Qfloor x) < inject_Z (hi + 1))
      by (eapply Qle_lt_trans; [apply Qfloor_le | exact Hhi]).
    rewrite <- Zlt_Qlt in H. lia.
Qed.

End NumberFacts.

(** ** The random stream *)

Section StreamFacts.

Import SeededRandom.
Local Open Scope Q_scope.

Lemma next_state (r : t) :
  (0 <= seed r)%Z -> snd (next r) = mk (lcg (seed r)).
Proof.
  intros H. unfold next, lcg; cbn [snd]. f_equal.
  apply Z.rem_mod_nonneg; lia.
Qed.

Lemma lcg_range (state : Z) : (0 <= lcg state < 4294967296)%Z.
Proof. unfold lcg. apply Z.mod_pos_bound. lia. Qed.

(** From a state in the 32-bit range the source computes the new state
    without rounding: the product and the sum stay below 2^53. *)
Lemma next_exact_in_binary64 (state : Z) :
  (0 <= state < 4294967296)%Z ->
  (0 <= state * 1664525 + 1013904223 < 2 ^ 53)%Z.
Proof. intros H. change (2 ^ 53)%Z with 9007199254740992%Z. lia. Qed.

(** A negative state, which the specification leaves to the caller to
    reject, stays negative under [%]: the value is then below 0. *)
Example negative_state_leaves_unit_interval :
  snd (next (mk (-1000))) = mk (-650620777) /\ fst (next (mk (-1000))) < 0.
Proof. split; reflexivity. Qed.

Lemma next_value (r : t) :
  fst (next r) == inject_Z (seed (snd (next r))) / 4294967296.
Proof. unfold next; cbn [fst snd seed]. apply div_correct. Qed.

Lemma unit_interval (state : Z) :
  (0 <= state < 4294967296)%Z ->
  0 <= inject_Z state / 4294967296 < 1.
Proof.
  intros [H0 H1]. split.
  - apply Qle_shift_div_l; [reflexivity |].
    rewrite Qmult_0_l. change 0 with (inject_Z 0). now rewrite <- Zle_Qle.
  - apply Qlt_shift_div_r; [reflexivity |].
    rewrite Qmult_1_l. change 4294967296 with (inject_Z 4294967296).
    now rewrite <- Zlt_Qlt.
Qed.

Lemma next_unit_interval (r : t) :
  (0 <= seed r)%Z -> 0 <= fst (next r) < 1.
Proof.
  intros H. pose proof (next_value r) as Hv.
  rewrite (next_state r H) in Hv. cbn [seed] in Hv.
  pose proof (unit_interval _ (lcg_range (seed r))) as [H0 H1].
  split; rewrite Hv; assumption.
Qed.

Lemma range_value (min max : number) (r : t) :
  fst (range min max r) == min + fst (next r) * (max - min).
Proof.
  unfold range, range_, bind, ret. destruct (next r) as [v r']; cbn [fst].
  now rewrite add_correct, mul_correct, sub_correct.
Qed.

Lemma range_state (min : number) (max : option number) (r : t) :
  snd (range_ min max r) = snd (next r).
Proof.
  unfold range_, bind, ret. destruct max; destruct (next r); reflexivity.
Qed.

Lemma range_bounds (min max : number) (r : t) :
  (0 <= seed r)%Z -> min < max ->
  min <= fst (range min max r) < max.
Proof.
  intros H Hlt. pose proof (next_unit_interval r H) as [H0 H1].
  rewrite range_value. set (v := fst (next r)) in *. split; nra.
Qed.

Lemma int_bounds (min max : Z) (r : t) :
  (0 <= seed r)%Z -> (min <= max)%Z ->
  (min <= fst (int min max r) <= max)%Z.
Proof.
  intros H Hle. unfold int, bind, ret.
  destruct (range (JS.of_Z min) (JS.add (JS.of_Z max) 1) r) as [x r'] eqn:E.
  cbn [fst].
  assert (Hx : x = fst (range (JS.of_Z min) (JS.add (JS.of_Z max) 1) r))
    by now rewrite E.
  assert (Hmax : JS.add (JS.of_Z max) 1 == inject_Z (max + 1)).
  { rewrite add_correct. unfold JS.of_Z. now rewrite inject_Z_plus. }
  assert (Hlt : JS.of_Z min < JS.add (JS.of_Z max) 1).
  { rewrite Hmax. unfold JS.of_Z. rewrite <- Zlt_Qlt. lia. }
  pose proof (range_bounds _ _ r H Hlt) as [Hlo Hhi]. rewrite <- Hx in Hlo, Hhi.
  apply floor_between; [exact Hlo | now rewrite <- Hmax].
Qed.

Lemma int_state (min max : Z) (r : t) : snd (int min max r) = snd (next r).
Proof.
  unfold int, bind, ret.
  pose proof (range_state (JS.of_Z min) (Some (JS.add (JS.of_Z max) 1)) r) as E.
  fold (range (JS.of_Z min) (JS.add (JS.of_Z max) 1)) in E.
  destruct (range _ _ r); exact E.
Qed.

Lemma choice_state {A} (undefined : A) (array : list A) (r : t) :
  snd (choice undefined array r) = snd (next r).
Proof.
  unfold choice, bind, ret.
  pose proof (int_state 0 (Z.of_nat (length array) - 1) r) as E.
  destruct (int _ _ r); exact E.
Qed.

Lemma boolean_state (p : option number) (r : t) :
  snd (boolean_ p r) = snd (next r).
Proof. unfold boolean_, bind, ret. destruct (next r); reflexivity. Qed.

(** [choice] never reads outside a non-empty array. *)
Lemma choice_index_in_range {A} (undefined : A) (array : list A) (r : t) :
  (0 <= seed r)%Z -> array <> [] ->
  exists i : nat,
    fst (int 0 (Z.of_nat (length array) - 1) r) = Z.of_nat i /\
    (i < length array)%nat /\
    fst (choice undefined array r) = nth i array undefined.
Proof.
  intros H Hne.
  assert (Hlen : (0 <= Z.of_nat (length array) - 1)%Z).
  { destruct array; [congruence | cbn [length]; lia]. }
  pose proof (int_bounds 0 (Z.of_nat (length array) - 1) r H Hlen) as Hb.
  unfold choice, bind, ret.
  destruct (int 0 (Z.of_nat (length array) - 1) r) as [i r']; cbn [fst] in *.
  exists (Z.to_nat i). repeat split; [lia | lia |].
  unfold index. destruct (Z.ltb_spec i 0); [lia | reflexivity].
Qed.

End StreamFacts.

Section StreamContract.

Import SeededRandom.
Local Open Scope Q_scope.

(** C3: the contract of the random stream.  From a state in the 32-bit
    range, from 0 up to 2^32 (the specification's state; there the source
    computes the recurrence without rounding), [next()] moves the state to
    [(state * 1664525 + 1013904223) mod 2^32] and returns that state divided
    by 2^32, a value in [0, 1); [range(min, max)] returns
    [min + next() * (max - min)], and [range(max)] reads its argument as
    [max] with [min = 0]; [int(min, max)] is the floor of
    [range(min, max + 1)] and lies in [min .. max], both ends included
    (for bounds of magnitude up to 2^20, where binary64 holds the sum
    exactly); [choice(array)] is the element at index
    [int(0, length - 1)]; [boolean(p)] is [next() < p], with [p = 0.5] when
    left out; and each of them leaves the stream in the state one call of
    [next()] leaves it in. *)
Theorem stream_contract (r : t) :
  (0 <= seed r < 4294967296)%Z ->
  let r' := mk (lcg (seed r)) in
  let value := fst (next r) in
  (next r = (value, r')
   /\ value == inject_Z (lcg (seed r)) / 4294967296
   /\ 0 <= value < 1)
  /\ (forall min max : number,
        range_ min (Some max) r
        = (JS.add min (JS.mul value (JS.sub max min)), r'))
  /\ (forall max : number,
        range_ max None r = (JS.add 0 (JS.mul value (JS.sub max 0)), r'))
  /\ (forall min max : Z,
        int min max r
        = (JS.floor (fst (range (JS.of_Z min) (JS.add (JS.of_Z max) 1) r)), r'))
  /\ (forall min max : Z,
        (-1048576 <= min)%Z -> (min <= max)%Z -> (max < 1048576)%Z ->
        (min <= fst (int min max r) <= max)%Z)
  /\ (forall (A : Type) (undefined : A) (array : list A),
        choice undefined array r
        = (index undefined array
             (fst (int 0 (Z.of_nat (length array) - 1) r)), r'))
  /\ (forall p : number, boolean_ (Some p) r = (JS.ltb value p, r'))
  /\ boolean_ None r = (JS.ltb value 0.5, r').
Proof.
  intros [H Hhi] r' value.
  assert (Hn : next r = (value, r')).
  { subst value r'. rewrite <- (next_state r H). now destruct (next r). }
  repeat split.
  - exact Hn.
  - subst value. rewrite next_value, (next_state r H). reflexivity.
  - apply (next_unit_interval r H).
  - apply (next_unit_interval r H).
  - intros min max. unfold range_, bind, ret. now rewrite Hn.
  - intros max. unfold range_, bind, ret. now rewrite Hn.
  - intros min max. unfold int, range, range_, bind, ret. now rewrite Hn.
  - apply (int_bounds min max r H H1).
  - apply (int_bounds min max r H H1).
  - intros A undefined array.
    unfold choice, int, range, range_, bind, ret. now rewrite Hn.
  - intros p. unfold boolean_, bind, ret. now rewrite Hn.
  - unfold boolean_, bind, ret. now rewrite Hn.
Qed.

Lemma stream_contract_witness :
  (0 <= seed (mk 42) < 4294967296)%Z
  /\ next (mk 42) = (fst (next (mk 42)), mk 1083814273)
  /\ 0 <= fst (next (mk 42)) < 1.
Proof.
  assert (H : (0 <= seed (mk 42) < 4294967296)%Z) by (cbn; lia).
  destruct (stream_contract (mk 42) H) as ((Hn & _ & Hv) & _).
  split; [exact H | split; [exact Hn | exact Hv]].
Defined.

(** C1, the stream: two streams with the same seed, given the same sequence
    of calls, return the same values and end in the same state. *)
Lemma stream_deterministic (r1 r2 : t) (qs : list request) :
  seed r1 = seed r2 -> serve_all qs r1 = serve_all qs r2.
Proof.
  destruct r1 as [s1], r2 as [s2]; cbn [seed]. now intros ->.
Qed.

End StreamContract.

(** ** Attributes and traits *)

Section TraitFacts.

Import SeededRandom Eyeball.
Local Open Scope Q_scope.

Lemma advance_add (n p : nat) (r : SeededRandom.t) :
  advance (n + p) r = advance p (advance n r).
Proof. revert r; induction n as [|n IH]; intros r; cbn; [reflexivity | apply IH]. Qed.

Lemma bind_eq {A B} (m : Rand A) (k : A -> Rand B) (r : SeededRandom.t) :
  bind m k r = k (fst (m r)) (snd (m r)).
Proof. unfold bind. now destruct (m r). Qed.

Lemma consumes_ret {A} (a : A) : consumes (ret a) 0.
Proof. intros r; reflexivity. Qed.

Lemma consumes_bind {A B} (m : Rand A) (k : A -> Rand B) (n p : nat) :
  consumes m n -> (forall a, consumes (k a) p) -> consumes (bind m k) (n + p).
Proof.
  intros Hm Hk r. rewrite bind_eq, Hk, Hm. symmetry; apply advance_add.
Qed.

Lemma consumes_range (min max : number) : consumes (range min max) 1.
Proof. intros r. apply range_state. Qed.

Lemma consumes_choice {A} (undefined : A) (array : list A) :
  consumes (choice undefined array) 1.
Proof. intros r. apply choice_state. Qed.

Lemma consumes_boolean (p : number) : consumes (boolean p) 1.
Proof. intros r. apply boolean_state. Qed.

Lemma consumes_generateColor (type : string) : consumes (generateColor type) 4.
Proof.
  unfold generateColor.
  apply (consumes_bind _ _ 1 3); [apply consumes_choice | intros c].
  apply (consumes_bind _ _ 1 2); [apply consumes_range | intros j0].
  apply (consumes_bind _ _ 1 1); [apply consumes_range | intros j1].
  apply (consumes_bind _ _ 1 0); [apply consumes_range | intros j2].
  apply consumes_ret.
Qed.

Lemma powers_of_active (s : Spec) : powers_of s = active_labels s.
Proof.
  unfold powers_of, active_labels, flags, push_if, push.
  destruct (hasGlow s), (hasLaser s), (hasAura s), (hasParticles s),
    (hasLightning s); reflexivity.
Qed.

Lemma active_labels_nil (s : Spec) :
  active_labels s = [] <-> any_power s = false.
Proof.
  unfold active_labels, flags, any_power.
  destruct (hasGlow s), (hasLaser s), (hasAura s), (hasParticles s),
    (hasLightning s); cbn; split; intros H; try reflexivity; discriminate H.
Qed.

Lemma active_labels_count (s : Spec) :
  length (active_labels s)
  = length (List.filter (fun b : bool => b)
      [hasGlow s; hasLaser s; hasAura s; hasParticles s; hasLightning s]).
Proof.
  unfold active_labels, flags.
  destruct (hasGlow s), (hasLaser s), (hasAura s), (hasParticles s),
    (hasLightning s); reflexivity.
Qed.

(** The traits [generateMetadata] builds, spelled out. *)
Lemma generateMetadata_eq (s : Spec) (r : SeededRandom.t) :
  generateMetadata s r =
  let x := fst (range 1 10 r) in
  let r1 := snd (next r) in
  let bonus := fst (range 0 2 r1) in
  let powers := active_labels s in
  ( [ mkTrait "Portal Frame"
        (label portalTypes (socketShape s) ++ " ("
           ++ rarity (JS.div (JS.sub (socketSize s) 80) (JS.sub 140 80)) ++ ")");
      mkTrait "Sclera Essence"
        (getColorName (scleraColor s) ++ " "
           ++ label scleraNames (scleraTexture s) ++ " (" ++ JS.toFixed1 x ++ ")");
      mkTrait "Iris Constellation"
        (getColorName (irisColor1 s) ++ " "
           ++ label irisPatterns (irisPattern s) ++ " ("
           ++ rarity (JS.div (JS.sub (irisSize s) 40) (JS.sub 80 40)) ++ ")");
      mkTrait "Pupil Gate"
        (getColorName (pupilColor s) ++ " "
           ++ label pupilTypes (pupilShape s) ++ " ("
           ++ rarity (JS.div (JS.sub (pupilSize s) 15) (JS.sub 35 15)) ++ ")");
      mkTrait "Arcane Powers"
        (if any_power s
         then join " + " powers ++ " ("
                ++ JS.toFixed1
                     (JS.add (JS.mul (JS.of_Z (Z.of_nat (length powers))) 2) bonus)
                ++ ")"
         else "Pure Essence (1.0)");
      mkTrait "Essence Type"
        (label essenceTypes (style s) ++ " ("
           ++ JS.toFixed1 (JS.mul (intensity s) 10) ++ ")") ],
    if any_power s then snd (next r1) else r1 )%string.
Proof.
  unfold generateMetadata. rewrite bind_eq, powers_of_active.
  rewrite (range_state 1 (Some 10) r : snd (range 1 10 r) = snd (next r)).
  cbv zeta.
  destruct (any_power s) eqn:Hany.
  - assert (Hlen : (0 <? Z.of_nat (length (active_labels s)))%Z = true).
    { destruct (active_labels s) eqn:E.
      - apply active_labels_nil in E. congruence.
      - cbn [length]. apply Z.ltb_lt. lia. }
    rewrite Hlen, !bind_eq.
    rewrite (range_state 0 (Some 2) _ : snd (range 0 2 _) = snd (next _)).
    reflexivity.
  - apply active_labels_nil in Hany. rewrite Hany. reflexivity.
Qed.

End TraitFacts.

Section ConstructionFacts.

Import SeededRandom Eyeball.
Local Open Scope Q_scope.

Lemma generateColor_state (type : string) (r : SeededRandom.t) :
  snd (generateColor type r) = advance 4 r.
Proof. apply consumes_generateColor. Qed.

Lemma range_state' (min max : number) (r : SeededRandom.t) :
  snd (range min max r) = advance 1 r.
Proof. apply range_state. Qed.

Lemma choice_state' {A} (undefined : A) (array : list A) (r : SeededRandom.t) :
  snd (choice undefined array r) = advance 1 r.
Proof. apply choice_state. Qed.

Lemma boolean_state' (p : number) (r : SeededRandom.t) :
  snd (boolean p r) = advance 1 r.
Proof. apply boolean_state. Qed.

Lemma advance_advance (n p : nat) (r : SeededRandom.t) :
  advance p (advance n r) = advance (n + p) r.
Proof. symmetry; apply advance_add. Qed.

(** [generateProperties] makes 48 draws for the attributes and then calls
    [generateMetadata] on them. *)
Lemma generateProperties_eq (r : SeededRandom.t) :
  exists s : Spec,
    generateProperties r
    = (s, fst (generateMetadata s (advance 48 r)),
       snd (generateMetadata s (advance 48 r))).
Proof.
  unfold generateProperties.
  repeat (rewrite bind_eq; cbv beta).
  repeat first [ rewrite generateColor_state | rewrite range_state'
               | rewrite choice_state' | rewrite boolean_state'
               | rewrite advance_advance ].
  cbn [Nat.add]. unfold ret.
  eexists. reflexivity.
Qed.

End ConstructionFacts.

Section ConstructionTheorems.

Import SeededRandom Eyeball.
Local Open Scope Q_scope.
Local Open Scope string_scope.

Lemma new_eq (seed0 : Z) (w h : number) :
  exists s : Spec,
    let r0 := advance 48 (mk seed0) in
    let r1 := snd (generateMetadata s r0) in
    new seed0 w h
    = mkEyeball w h (JS.div w 2) (JS.div h 2) seed0
        (snd (range 0.01 0.05 r1)) s (fst (generateMetadata s r0)) 0
        (fst (range 0.01 0.05 r1)).
Proof.
  destruct (generateProperties_eq (mk seed0)) as [s Hs].
  exists s. unfold new. rewrite Hs. cbv zeta.
  now destruct (range 0.01 0.05 _).
Qed.

(** C1: two instances constructed from the same seed, each on a stream of
    its own, have the same attributes (shapes, sizes, the seven colours, the
    five flags, animation energy, style, intensity) and the same traits in
    the same order; and two streams with the same seed answer the same
    sequence of calls with the same values. *)
Theorem same_seed_same_eyeball
  (S1 S2 : Z) (w1 h1 w2 h2 : number) (qs : list request) :
  S1 = S2 ->
  spec (new S1 w1 h1) = spec (new S2 w2 h2)
  /\ metadata (new S1 w1 h1) = metadata (new S2 w2 h2)
  /\ animationSpeed (new S1 w1 h1) = animationSpeed (new S2 w2 h2)
  /\ serve_all qs (mk S1) = serve_all qs (mk S2).
Proof.
  intros <-. unfold new.
  destruct (generateProperties (mk S1)) as [[s traits] r].
  destruct (range 0.01 0.05 r) as [speed r'].
  repeat split.
Qed.

Lemma same_seed_same_eyeball_witness :
  spec (new 42 300 300) = spec (new 42 640 480)
  /\ metadata (new 42 300 300) = metadata (new 42 640 480)
  /\ animationSpeed (new 42 300 300) = animationSpeed (new 42 640 480)
  /\ serve_all [Next; Int 0 5; Boolean None] (mk 42)
     = serve_all [Next; Int 0 5; Boolean None] (mk 42).
Proof.
  apply (same_seed_same_eyeball 42 42 300 300 640 480). reflexivity.
Defined.

(** C6: whatever the attributes, the five flags and the state of the
    stream, the manifest has exactly six entries, named Portal Frame,
    Sclera Essence, Iris Constellation, Pupil Gate, Arcane Powers and
    Essence Type, in this order; so has the manifest of every instance
    constructed from a seed in the 32-bit range, from 0 up to 2^32 (the
    constructor throws for a negative seed, and has no manifest then). *)
Theorem traits_complete :
  (forall (s : Spec) (r : SeededRandom.t),
      List.map name (fst (generateMetadata s r)) = trait_names)
  /\ (forall (seed0 : Z) (w h : number),
      (0 <= seed0 < 4294967296)%Z ->
      List.map name (metadata (new seed0 w h)) = trait_names
      /\ length (metadata (new seed0 w h)) = 6%nat).
Proof.
  assert (H : forall s r, List.map name (fst (generateMetadata s r)) = trait_names).
  { intros s r. rewrite generateMetadata_eq. reflexivity. }
  split; [exact H | intros seed0 w h _].
  destruct (new_eq seed0 w h) as [s ->]. cbn [metadata].
  split; [apply H |].
  rewrite <- (List.length_map name), H. reflexivity.
Qed.

Lemma traits_complete_witness :
  List.map name (metadata (new 42 300 300)) = trait_names
  /\ length (metadata (new 42 300 300)) = 6%nat.
Proof.
  apply (proj2 traits_complete 42%Z 300 300). lia.
Defined.

(** C7: the Arcane Powers entry.  Its value joins the labels of exactly the
    flags that are set with [" + "] and carries, printed with one decimal,
    the score [2.0 * count + bonus], where [bonus] is a draw of
    [range(0, 2)], in [0, 2); when no flag is set the value is
    ["Pure Essence (1.0)"] and nothing is joined. *)
Theorem arcane_powers (s : Spec) (r : SeededRandom.t) :
  (0 <= SeededRandom.seed r)%Z ->
  let labels := List.map snd (List.filter fst (flags s)) in
  let count := length (List.filter (fun b : bool => b)
      [hasGlow s; hasLaser s; hasAura s; hasParticles s; hasLightning s]) in
  let bonus := fst (range 0 2 (snd (next r))) in
  let score := JS.add (JS.mul (JS.of_Z (Z.of_nat count)) 2) bonus in
  nth_error (fst (generateMetadata s r)) 4
  = Some (mkTrait "Arcane Powers"
            (if any_power s
             then join " + " labels ++ " (" ++ JS.toFixed1 score ++ ")"
             else "Pure Essence (1.0)"))
  /\ (score == 2 * inject_Z (Z.of_nat count) + bonus)%Q
  /\ (0 <= bonus < 2)%Q
  /\ (any_power s = false <->
      hasGlow s = false /\ hasLaser s = false /\ hasAura s = false
      /\ hasParticles s = false /\ hasLightning s = false)
  /\ (any_power s = true -> (0 < count)%nat /\ labels <> []).
Proof.
  intros H labels count bonus score.
  assert (Hcount : count = length (active_labels s))
    by (symmetry; apply active_labels_count).
  assert (Hr1 : (0 <= SeededRandom.seed (snd (next r)))%Z).
  { rewrite (next_state r H). cbn [SeededRandom.seed]. apply lcg_range. }
  split; [| split; [| split; [| split]]].
  - rewrite generateMetadata_eq. cbv zeta. cbn [fst nth_error].
    subst score bonus. rewrite Hcount. reflexivity.
  - subst score. rewrite add_correct, mul_correct. unfold JS.of_Z. ring.
  - apply range_bounds; [exact Hr1 | reflexivity].
  - unfold any_power.
    destruct (hasGlow s), (hasLaser s), (hasAura s), (hasParticles s),
      (hasLightning s); cbn; intuition congruence.
  - intros Hany. split.
    + rewrite Hcount. destruct (active_labels s) eqn:E; [| cbn; lia].
      apply active_labels_nil in E. congruence.
    + fold (active_labels s). intros E.
      apply active_labels_nil in E. congruence.
Qed.

Lemma arcane_powers_witness :
  nth_error (metadata (new 42 300 300)) 4
  = Some (mkTrait "Arcane Powers" "Ethereal Glow + Laser Beam + Energy Aura (6.8)").
Proof.
  assert (H : (0 <= SeededRandom.seed (advance 48 (mk 42)))%Z)
    by (vm_compute; discriminate).
  destruct (arcane_powers (spec (new 42 300 300)) (advance 48 (mk 42)) H)
    as [Hv _].
  vm_compute in Hv |- *. exact Hv.
Defined.

Lemma lcg_no_fixpoint (state : Z) : lcg state <> state.
Proof.
  unfold lcg. intros E.
  pose proof (Z.div_mod (state * 1664525 + 1013904223) 4294967296) as D.
  lia.
Qed.

Lemma advance_nonneg (n : nat) (r : SeededRandom.t) :
  (0 <= SeededRandom.seed r)%Z -> (0 <= SeededRandom.seed (advance n r))%Z.
Proof.
  revert r. induction n as [|n IH]; intros r H; cbn [advance]; [exact H |].
  apply IH. rewrite (next_state r H). cbn [SeededRandom.seed]. apply lcg_range.
Qed.

Lemma next_values_differ (r : SeededRandom.t) :
  (0 <= SeededRandom.seed r)%Z ->
  ~ (fst (next r) == fst (next (snd (next r))))%Q.
Proof.
  intros H E. rewrite !next_value in E.
  assert (H1 : (0 <= SeededRandom.seed (snd (next r)))%Z)
    by (apply (advance_nonneg 1 r H)).
  rewrite (next_state _ H1) in E. cbn [SeededRandom.seed] in E.
  apply (lcg_no_fixpoint (SeededRandom.seed (snd (next r)))).
  unfold Qdiv in E.
  rewrite Qmult_inj_r in E by discriminate.
  rewrite inject_Z_injective in E. symmetry. exact E.
Qed.

(** C10: from a state in the 32-bit range, [generateMetadata] draws once
    for the Sclera Essence figure, whatever the attributes (the texture
    being one of the keys of [scleraNames], as [generateProperties] assigns
    it), and once more for the Arcane Powers bonus exactly when one of the
    five flags is set; the constructor, for a seed in the 32-bit range,
    samples [animationSpeed] from the same stream right after, so from the
    state after 49 draws when no flag is set and after 50 draws when one
    is, and these two states never yield the same speed. *)
Theorem metadata_draws
  (s : Spec) (r : SeededRandom.t) (seed0 : Z) (w h : number) :
  (0 <= SeededRandom.seed r < 4294967296)%Z ->
  (0 <= seed0 < 4294967296)%Z ->
  In (scleraTexture s) (List.map fst scleraNames) ->
  nth_error (fst (generateMetadata s r)) 1
  = Some (mkTrait "Sclera Essence"
            (getColorName (scleraColor s) ++ " "
               ++ label scleraNames (scleraTexture s)
               ++ " (" ++ JS.toFixed1 (fst (range 1 10 r)) ++ ")"))
  /\ snd (generateMetadata s r) = advance (if any_power s then 2 else 1) r
  /\ (let e := new seed0 w h in
      animationSpeed e
      = fst (range 0.01 0.05
               (advance (if any_power (spec e) then 50 else 49) (mk seed0)))
      /\ rng e = advance (if any_power (spec e) then 51 else 50) (mk seed0))
  /\ ~ (fst (range 0.01 0.05 (advance 1 r))
        == fst (range 0.01 0.05 (advance 2 r)))%Q.
Proof.
  intros [H _] _ _.
  assert (Hstate : forall s' r',
    snd (generateMetadata s' r') = advance (if any_power s' then 2 else 1) r').
  { intros s' r'. rewrite generateMetadata_eq. cbv zeta. cbn [snd].
    now destruct (any_power s'). }
  split; [| split; [| split]].
  - rewrite generateMetadata_eq. reflexivity.
  - apply Hstate.
  - destruct (new_eq seed0 w h) as [s' ->]. cbv zeta.
    cbn [animationSpeed rng spec]. rewrite range_state', Hstate.
    rewrite !advance_advance.
    destruct (any_power s'); split; reflexivity.
  - rewrite !range_value. intros E.
    apply (next_values_differ (advance 1 r)); [now apply advance_nonneg |].
    change (advance 2 r) with (snd (next (advance 1 r))) in E.
    set (v1 := fst (next (advance 1 r))) in *.
    set (v2 := fst (next (snd (next (advance 1 r))))) in *.
    lra.
Qed.

Lemma metadata_draws_witness :
  rng (new 4 300 300) = advance 50 (mk 4)
  /\ rng (new 42 300 300) = advance 51 (mk 42).
Proof.
  assert (H : (0 <= SeededRandom.seed (mk 4) < 4294967296)%Z) by (cbn; lia).
  assert (H4 : (0 <= 4 < 4294967296)%Z) by lia.
  assert (H42 : (0 <= 42 < 4294967296)%Z) by lia.
  assert (Hk : In (scleraTexture (spec (new 4 300 300))) (List.map fst scleraNames)).
  { vm_compute. auto 10. }
  split.
  - destruct (metadata_draws (spec (new 4 300 300)) (mk 4) 4 300 300 H H4 Hk)
      as (_ & _ & (_ & Hr) & _).
    vm_compute in Hr |- *. exact Hr.
  - destruct (metadata_draws (spec (new 4 300 300)) (mk 4) 42 300 300 H H42 Hk)
      as (_ & _ & (_ & Hr) & _).
    vm_compute in Hr |- *. exact Hr.
Defined.

End ConstructionTheorems.

(** ** The saved-state stack of the context *)

Section StackFacts.

Import Render CanvasHelper.

Lemma stack_depth_app (w1 w2 : list Canvas.call) (d : nat) :
  Canvas.stack_depth (w1 ++ w2) d
  = match Canvas.stack_depth w1 d with
    | Some d1 => Canvas.stack_depth w2 d1
    | None => None
    end.
Proof.
  revert d. induction w1 as [|c w1 IH]; intros d; [reflexivity |].
  destruct c; cbn [app Canvas.stack_depth]; try apply IH.
  destruct d; [reflexivity | apply IH].
Qed.

Lemma written_bind {W A B} (m : M W A) (k : A -> M W B) (s : state) :
  written (bind m k s)
  = written (m s) ++ written (k (result (m s)) (final (m s))).
Proof.
  unfold bind, written, result, final.
  destruct (m s) as [[a s1] w1]; cbn [fst snd].
  now destruct (k a s1) as [[b s2] w2].
Qed.

Lemma final_bind {W A B} (m : M W A) (k : A -> M W B) (s : state) :
  final (bind m k s) = final (k (result (m s)) (final (m s))).
Proof.
  unfold bind, written, result, final.
  destruct (m s) as [[a s1] w1]; cbn [fst snd].
  now destruct (k a s1) as [[b s2] w2].
Qed.

Lemma shifts_bind {A B} (m : R A) (k : A -> R B) (d d1 d2 : nat) :
  shifts m d d1 -> (forall a, shifts (k a) d1 d2) -> shifts (bind m k) d d2.
Proof.
  intros Hm Hk s. rewrite written_bind, stack_depth_app, Hm. apply Hk.
Qed.

Lemma shifts_ret {A} (a : A) (d : nat) : shifts (ret a) d d.
Proof. intros s; reflexivity. Qed.

Lemma shifts_push (d : nat) : shifts push d (S d).
Proof. intros s; reflexivity. Qed.

Lemma shifts_pop (d : nat) : shifts pop (S d) d.
Proof. intros s; reflexivity. Qed.

Lemma shifts_emit (c : Canvas.call) (d : nat) :
  c <> Canvas.save -> c <> Canvas.restore -> shifts (emit c) d d.
Proof.
  intros H1 H2 s. unfold emit, written; cbn [snd].
  destruct c; try reflexivity; congruence.
Qed.

Lemma shifts_quiet {A} (m : R A) (d : nat) :
  (forall s, written (m s) = []) -> shifts m d d.
Proof. intros H s. now rewrite H. Qed.

Lemma shifts_random {A} (m : SeededRandom.Rand A) (d : nat) :
  shifts (random m) d d.
Proof.
  apply shifts_quiet. intros s. unfold random, written.
  now destruct (m (rng s)).
Qed.

Lemma shifts_get_firstVertex (d : nat) : shifts get_firstVertex d d.
Proof. now apply shifts_quiet. Qed.

Lemma shifts_set_firstVertex (b : bool) (d : nat) : shifts (set_firstVertex b) d d.
Proof. now apply shifts_quiet. Qed.

Lemma shifts_when (c : bool) (m : R unit) (d : nat) :
  shifts m d d -> shifts (when c m) d d.
Proof. intros H. destruct c; [exact H | apply shifts_ret]. Qed.

Lemma shifts_forEach {A} (array : list A) (body : A -> R unit) (d : nat) :
  (forall x, shifts (body x) d d) -> shifts (forEach array body) d d.
Proof.
  intros H. induction array as [|x rest IH]; cbn [forEach].
  - apply shifts_ret.
  - apply (shifts_bind _ _ d d d); [apply H | intros _; exact IH].
Qed.

Lemma shifts_for_lt_fuel (fuel : nat) (x bound inc : number)
  (body : number -> R unit) (d : nat) :
  (forall y, shifts (body y) d d) ->
  shifts (for_lt_fuel fuel x bound inc body) d d.
Proof.
  intros H. revert x. induction fuel as [|fuel IH]; intros x; cbn [for_lt_fuel].
  - apply shifts_ret.
  - destruct (JS.ltb x bound); [| apply shifts_ret].
    apply (shifts_bind _ _ d d d); [apply H | intros _; apply IH].
Qed.

End StackFacts.

(** One step of a proof that a routine shifts the stack as claimed. *)
Ltac stack_step :=
  first
    [ apply shifts_ret
    | apply shifts_push
    | apply shifts_pop
    | apply shifts_random
    | apply shifts_emit; discriminate
    | apply shifts_get_firstVertex
    | apply shifts_set_firstVertex
    | apply shifts_when
    | apply shifts_forEach; intro
    | apply shifts_for_lt_fuel; intro
    | eapply shifts_bind; [| intro]
    | match goal with
      | |- shifts (if ?c then _ else _) _ _ => destruct c
      | |- shifts (match ?o with Some _ => _ | None => _ end) _ _ =>
          destruct o eqn:?
      end ].

Ltac stack := cbv zeta; repeat (stack_step; cbv beta zeta).

Create HintDb stack discriminated.
#[export] Hint Constants Opaque : stack.

Section HelperStack.

Import Render CanvasHelper.

Lemma translate_shifts (x y : number) (d : nat) : shifts (translate x y) d d.
Proof. unfold translate. stack. Qed.

Lemma rotate_shifts (angle : number) (d : nat) : shifts (rotate angle) d d.
Proof. unfold rotate. stack. Qed.

Lemma background_shifts (cv : Canvas.canvas) (r g b : number) (d : nat) :
  shifts (background cv r g b) d d.
Proof. unfold background. stack. Qed.

Lemma fill4_shifts (r g b a : number) (d : nat) : shifts (fill4 r g b a) d d.
Proof. unfold fill4. stack. Qed.

Lemma fill_shifts (r g b : number) (d : nat) : shifts (fill r g b) d d.
Proof. apply fill4_shifts. Qed.

Lemma stroke4_shifts (r g b a : number) (d : nat) : shifts (stroke4 r g b a) d d.
Proof. unfold stroke4. stack. Qed.

Lemma stroke_shifts (r g b : number) (d : nat) : shifts (stroke r g b) d d.
Proof. apply stroke4_shifts. Qed.

Lemma strokeWeight_shifts (weight : number) (d : nat) :
  shifts (strokeWeight weight) d d.
Proof. unfold strokeWeight. stack. Qed.

Lemma noStroke_shifts (d : nat) : shifts noStroke d d.
Proof. unfold noStroke. stack. Qed.

Lemma noFill_shifts (d : nat) : shifts noFill d d.
Proof. unfold noFill. stack. Qed.

Lemma ellipse_shifts (x y w h : number) (d : nat) : shifts (ellipse x y w h) d d.
Proof. unfold ellipse. stack. Qed.

Lemma line_shifts (x1 y1 x2 y2 : number) (d : nat) :
  shifts (line x1 y1 x2 y2) d d.
Proof. unfold line. stack. Qed.

Lemma rect_shifts (x y w h : number) (d : nat) : shifts (rect x y w h) d d.
Proof. unfold rect. stack. Qed.

Lemma rectMode_shifts (d : nat) : shifts rectMode d d.
Proof. unfold rectMode. stack. Qed.

Lemma beginShape_shifts (d : nat) : shifts beginShape d d.
Proof. unfold beginShape. stack. Qed.

Lemma endShape_shifts (close : bool) (d : nat) : shifts (endShape close) d d.
Proof. unfold endShape. stack. Qed.

Lemma vertex_shifts (x y : number) (d : nat) : shifts (vertex x y) d d.
Proof.
  unfold vertex.
  apply (shifts_bind _ _ d d d); [stack | intros fv].
  destruct fv; stack.
Qed.

Lemma triangle_shifts (x1 y1 x2 y2 x3 y3 : number) (d : nat) :
  shifts (triangle x1 y1 x2 y2 x3 y3) d d.
Proof. unfold triangle. stack. Qed.

Lemma for_lt_shifts (start bound inc : number) (body : number -> R unit)
  (d : nat) :
  (forall y, shifts (body y) d d) -> shifts (for_lt start bound inc body) d d.
Proof. intros H. unfold for_lt. now apply shifts_for_lt_fuel. Qed.

Lemma for_up_shifts (n : nat) (body : Z -> R unit) (d : nat) :
  (forall i, shifts (body i) d d) -> shifts (for_up n body) d d.
Proof. intros H. unfold for_up. now apply shifts_forEach. Qed.

Lemma for_down_shifts (n : nat) (body : Z -> R unit) (d : nat) :
  (forall i, shifts (body i) d d) -> shifts (for_down n body) d d.
Proof. intros H. unfold for_down. now apply shifts_forEach. Qed.

End HelperStack.

#[export] Hint Resolve translate_shifts rotate_shifts background_shifts
  fill4_shifts fill_shifts stroke4_shifts stroke_shifts strokeWeight_shifts
  noStroke_shifts noFill_shifts ellipse_shifts line_shifts rect_shifts
  rectMode_shifts beginShape_shifts endShape_shifts vertex_shifts
  triangle_shifts : stack.

(** The step with the helper's methods and the routines proved so far. *)
Ltac stack_known :=
  lazymatch goal with
  | |- shifts (Render.ret _) _ _ => apply shifts_ret
  | |- shifts (Render.bind _ _) _ _ => eapply shifts_bind; [| intro]
  | |- shifts (Render.when _ _) _ _ => apply shifts_when
  | |- shifts (Render.forEach _ _) _ _ => apply shifts_forEach; intro
  | |- shifts (Render.for_lt _ _ _ _) _ _ => apply for_lt_shifts; intro
  | |- shifts (Render.for_up _ _) _ _ => apply for_up_shifts; intro
  | |- shifts (Render.for_down _ _) _ _ => apply for_down_shifts; intro
  | |- shifts (Render.random _) _ _ => apply shifts_random
  | |- shifts (Render.set_firstVertex _) _ _ => apply shifts_set_firstVertex
  | |- shifts CanvasHelper.push _ _ => apply shifts_push
  | |- shifts CanvasHelper.pop _ _ => apply shifts_pop
  | |- shifts (if ?c then _ else _) _ _ => destruct c
  | |- shifts _ _ _ => solve [eauto 2 with stack nocore]
  end.

Ltac stacks := cbv zeta; repeat (stack_known; cbv beta zeta).

Section RoutineStack.

Import Render CanvasHelper EyeballDraw.

Variables sin cos : number -> number.
Variable this : Eyeball.t.

Lemma drawStar_shifts (x y radius1 radius2 npoints : number) (d : nat) :
  shifts (drawStar sin cos x y radius1 radius2 npoints) d d.
Proof. unfold drawStar. stacks. Qed.

Lemma drawPolygon_shifts (x y radius npoints : number) (d : nat) :
  shifts (drawPolygon sin cos x y radius npoints) d d.
Proof. unfold drawPolygon. stacks. Qed.

Hint Resolve drawStar_shifts drawPolygon_shifts : stack.

Lemma drawShape_shifts (shape : string) (size : number) (d : nat) :
  shifts (drawShape sin cos shape size) d d.
Proof. unfold drawShape. stacks. Qed.

Hint Resolve drawShape_shifts : stack.

Lemma drawSocket_shifts (d : nat) : shifts (drawSocket sin cos this) d d.
Proof. unfold drawSocket. stacks. Qed.

Lemma drawVeins_shifts (d : nat) : shifts drawVeins d d.
Proof. unfold drawVeins. stacks. Qed.

Hint Resolve drawVeins_shifts : stack.

Lemma drawSclera_shifts (d : nat) : shifts (drawSclera sin cos this) d d.
Proof. unfold drawSclera. stacks. Qed.

Hint Resolve drawSocket_shifts drawSclera_shifts : stack.

Lemma drawRadialPattern_shifts (d : nat) : shifts (drawRadialPattern this) d d.
Proof. unfold drawRadialPattern. stacks. Qed.

Lemma drawSpiralPattern_shifts (d : nat) :
  shifts (drawSpiralPattern sin cos this) d d.
Proof. unfold drawSpiralPattern. stacks. Qed.

Lemma drawGeometricPattern_shifts (d : nat) :
  shifts (drawGeometricPattern sin cos this) d d.
Proof. unfold drawGeometricPattern. stacks. Qed.

Lemma drawFractalLayer_shifts (fuel : nat) :
  forall (size x y : number) (depth : Z) (m : R unit),
    drawFractalLayer this fuel size x y depth = Some m ->
    forall d, shifts m d d.
Proof.
  induction fuel as [|fuel IH]; intros size x y depth m E d;
    cbn [drawFractalLayer] in E; [discriminate |].
  destruct ((depth <=? 0)%Z || JS.ltb size 5).
  - injection E as <-. apply shifts_ret.
  - cbv zeta in E.
    destruct (drawFractalLayer this fuel _ (JS.sub x _) y _) as [m1|] eqn:E1;
      [| discriminate].
    destruct (drawFractalLayer this fuel _ (JS.add x _) y _) as [m2|] eqn:E2;
      [| discriminate].
    destruct (drawFractalLayer this fuel _ x (JS.sub y _) _) as [m3|] eqn:E3;
      [| discriminate].
    destruct (drawFractalLayer this fuel _ x (JS.add y _) _) as [m4|] eqn:E4;
      [| discriminate].
    injection E as <-.
    pose proof (IH _ _ _ _ _ E1 d). pose proof (IH _ _ _ _ _ E2 d).
    pose proof (IH _ _ _ _ _ E3 d). pose proof (IH _ _ _ _ _ E4 d).
    unfold fractal_node. stacks; assumption.
Qed.

Lemma drawFractalPattern_shifts (d : nat) : shifts (drawFractalPattern this) d d.
Proof.
  unfold drawFractalPattern.
  destruct (drawFractalLayer this 5 _ 0 0 4) as [m|] eqn:E.
  - apply (drawFractalLayer_shifts _ _ _ _ _ _ E).
  - apply shifts_ret.
Qed.

Lemma drawCrystallinePattern_shifts (d : nat) :
  shifts (drawCrystallinePattern sin cos this) d d.
Proof. unfold drawCrystallinePattern. stacks. Qed.

Lemma drawVoidPattern_shifts (d : nat) : shifts (drawVoidPattern this) d d.
Proof. unfold drawVoidPattern. stacks. Qed.

Hint Resolve drawRadialPattern_shifts drawSpiralPattern_shifts
  drawGeometricPattern_shifts drawFractalPattern_shifts
  drawCrystallinePattern_shifts drawVoidPattern_shifts : stack.

Lemma drawIris_shifts (d : nat) : shifts (drawIris sin cos this) d d.
Proof. unfold drawIris. stacks. Qed.

Lemma drawPupil_shifts (d : nat) : shifts (drawPupil sin cos this) d d.
Proof. unfold drawPupil. stacks. Qed.

Lemma drawGlow_shifts (d : nat) : shifts (drawGlow this) d d.
Proof. unfold drawGlow. stacks. Qed.

Lemma drawAura_shifts (d : nat) : shifts (drawAura sin cos this) d d.
Proof. unfold drawAura. stacks. Qed.

Lemma drawLaser_shifts (d : nat) : shifts (drawLaser sin cos this) d d.
Proof. unfold drawLaser. stacks. Qed.

Lemma drawParticles_shifts (d : nat) : shifts (drawParticles sin cos this) d d.
Proof. unfold drawParticles. stacks. Qed.

Lemma boltStroke_shifts (startAngle startRadius endRadius r g b weight : number)
  (d : nat) :
  shifts (boltStroke sin cos startAngle startRadius endRadius r g b weight) d d.
Proof. unfold boltStroke. stacks. Qed.

Hint Resolve boltStroke_shifts : stack.

Lemma drawLightning_shifts (d : nat) : shifts (drawLightning sin cos this) d d.
Proof. unfold drawLightning. stacks. Qed.

Lemma drawHighlights_shifts (d : nat) : shifts (drawHighlights sin cos this) d d.
Proof. unfold drawHighlights. stacks. Qed.

End RoutineStack.

(** ** A frame *)

Section FrameFacts.

Import Render CanvasHelper EyeballDraw.

Variables sin cos : number -> number.
Variable ctx : Canvas.canvas.

Lemma draw_eq (this : Eyeball.t) :
  draw sin cos ctx this
  = (Eyeball.with_rng (advanced this)
       (rng (final (layers sin cos ctx (advanced this) (fresh_helper this)))),
     written (layers sin cos ctx (advanced this) (fresh_helper this))).
Proof.
  unfold draw. fold (advanced this). fold (fresh_helper this).
  now destruct (layers sin cos ctx (advanced this) (fresh_helper this))
    as [[u p] calls].
Qed.

Lemma written_in_layer (l : layer) (m : R unit) (s : state) :
  written (in_layer l m s) = List.map (pair l) (written (m s)).
Proof. unfold in_layer, written. now destruct (m s) as [[a s'] w]. Qed.

Lemma final_in_layer (l : layer) (m : R unit) (s : state) :
  final (in_layer l m s) = final (m s).
Proof. unfold in_layer, final. now destruct (m s) as [[a s'] w]. Qed.

Lemma untag (l : layer) (w : list Canvas.call) :
  List.map snd (List.map (pair l) w) = w.
Proof. rewrite List.map_map. cbn. apply List.map_id. Qed.

Lemma shifts_marked_bind {A B} (m : M (layer * Canvas.call) A)
  (k : A -> M (layer * Canvas.call) B) (d d1 d2 : nat) :
  shifts_marked m d d1 -> (forall a, shifts_marked (k a) d1 d2) ->
  shifts_marked (bind m k) d d2.
Proof.
  intros Hm Hk s.
  rewrite written_bind, List.map_app, stack_depth_app, Hm. apply Hk.
Qed.

Lemma shifts_marked_in_layer (l : layer) (m : R unit) (d d' : nat) :
  shifts m d d' -> shifts_marked (in_layer l m) d d'.
Proof. intros H s. rewrite written_in_layer, untag. apply H. Qed.

Lemma shifts_marked_when (c : bool) (m : M (layer * Canvas.call) unit) (d : nat) :
  shifts_marked m d d -> shifts_marked (when c m) d d.
Proof. intros H. destruct c; [exact H | intros s; reflexivity]. Qed.

Lemma layers_shifts (this : Eyeball.t) (d : nat) :
  shifts_marked (layers sin cos ctx this) d d.
Proof.
  unfold layers. cbv zeta.
  apply (shifts_marked_bind _ _ d d d);
    [apply shifts_marked_in_layer, background_shifts | intros _].
  apply (shifts_marked_bind _ _ d d d);
    [apply shifts_marked_when, shifts_marked_in_layer, drawGlow_shifts | intros _].
  apply (shifts_marked_bind _ _ d d d);
    [apply shifts_marked_when, shifts_marked_in_layer, drawAura_shifts | intros _].
  apply (shifts_marked_bind _ _ d d d);
    [apply shifts_marked_in_layer, drawSocket_shifts | intros _].
  apply (shifts_marked_bind _ _ d d d);
    [apply shifts_marked_in_layer, drawSclera_shifts | intros _].
  apply (shifts_marked_bind _ _ d d d);
    [apply shifts_marked_in_layer, drawIris_shifts | intros _].
  apply (shifts_marked_bind _ _ d d d);
    [apply shifts_marked_in_layer, drawPupil_shifts | intros _].
  apply (shifts_marked_bind _ _ d d d);
    [apply shifts_marked_in_layer, drawHighlights_shifts | intros _].
  apply (shifts_marked_bind _ _ d d d);
    [apply shifts_marked_when, shifts_marked_in_layer, drawLaser_shifts | intros _].
  apply (shifts_marked_bind _ _ d d d);
    [apply shifts_marked_when, shifts_marked_in_layer, drawParticles_shifts
    | intros _].
  apply shifts_marked_when, shifts_marked_in_layer, drawLightning_shifts.
Qed.

Lemma marked_in_layer (l : layer) (m : R unit) (s : state) :
  Forall (fun c => effect_layer (fst c) = effect_layer l)
         (written (in_layer l m s)).
Proof.
  rewrite written_in_layer. apply Forall_forall. intros c Hc.
  apply in_map_iff in Hc as (x & <- & _). reflexivity.
Qed.

Lemma effects_last_front (w1 w2 : list (layer * Canvas.call)) :
  Forall (fun c => effect_layer (fst c) = false) w1 ->
  effects_last w2 -> effects_last (w1 ++ w2).
Proof.
  intros H1 (front & back & -> & Hf & Hb).
  exists (w1 ++ front), back. rewrite app_assoc. repeat split; [| exact Hb].
  apply Forall_app; now split.
Qed.

Lemma effects_last_back (w : list (layer * Canvas.call)) :
  Forall (fun c => effect_layer (fst c) = true) w -> effects_last w.
Proof. intros H. exists [], w. repeat split; [constructor | exact H]. Qed.

Lemma written_when {W} (c : bool) (m : M W unit) (s : state) :
  written (when c m s) = if c then written (m s) else [].
Proof. now destruct c. Qed.

Lemma final_when {W} (c : bool) (m : M W unit) (s : state) :
  final (when c m s) = if c then final (m s) else s.
Proof. now destruct c. Qed.

Lemma writes_side_in_layer (l : layer) (m : R unit) :
  writes_side (effect_layer l) (in_layer l m).
Proof. intros s. apply marked_in_layer. Qed.

Lemma writes_side_when (side c : bool) (m : M (layer * Canvas.call) unit) :
  writes_side side m -> writes_side side (when c m).
Proof. intros H. destruct c; [exact H | intros s; constructor]. Qed.

Lemma writes_side_bind {A B} (side : bool) (m : M (layer * Canvas.call) A)
  (k : A -> M (layer * Canvas.call) B) :
  writes_side side m -> (forall a, writes_side side (k a)) ->
  writes_side side (bind m k).
Proof.
  intros Hm Hk s. rewrite written_bind. apply Forall_app. split; [apply Hm | apply Hk].
Qed.

Lemma effects_last_bind {A B} (m : M (layer * Canvas.call) A)
  (k : A -> M (layer * Canvas.call) B) :
  writes_side false m ->
  (forall a s, effects_last (written (k a s))) ->
  forall s, effects_last (written (bind m k s)).
Proof.
  intros Hm Hk s. rewrite written_bind.
  apply effects_last_front; [apply Hm | apply Hk].
Qed.

Lemma layers_effects_last (this : Eyeball.t) (s : state) :
  effects_last (written (layers sin cos ctx this s)).
Proof.
  revert s. unfold layers. cbv zeta.
  apply effects_last_bind; [apply (writes_side_in_layer Background) | intros _].
  apply effects_last_bind;
    [apply writes_side_when, (writes_side_in_layer Glow) | intros _].
  apply effects_last_bind;
    [apply writes_side_when, (writes_side_in_layer Aura) | intros _].
  apply effects_last_bind; [apply (writes_side_in_layer Socket) | intros _].
  apply effects_last_bind; [apply (writes_side_in_layer Sclera) | intros _].
  apply effects_last_bind; [apply (writes_side_in_layer Iris) | intros _].
  apply effects_last_bind; [apply (writes_side_in_layer Pupil) | intros _].
  apply effects_last_bind; [apply (writes_side_in_layer Highlights) | intros _].
  intros s. apply effects_last_back. revert s.
  apply (writes_side_bind true);
    [apply writes_side_when, (writes_side_in_layer Laser) | intros _].
  apply (writes_side_bind true);
    [apply writes_side_when, (writes_side_in_layer Particles) | intros _].
  apply writes_side_when, (writes_side_in_layer Lightning).
Qed.

End FrameFacts.

Section FrameTheorems.

Import Render CanvasHelper EyeballDraw.

(** C8: a frame leaves the stack of saved drawing states as it found it.
    The calls [draw] makes on the context are balanced, and so are the calls
    of every drawing routine, from any state of the helper and the stream:
    each [save] is matched by a [restore] before the routine returns.  That
    covers the early return of [drawLaser]: when the materialization phase
    is below 0.2 it has made one [save], two [translate] and one
    [restore]. *)
Theorem frame_leaves_stack_balanced
  (sin cos : number -> number) (ctx : Canvas.canvas) (this : Eyeball.t) :
  Canvas.balanced (calls_of (draw sin cos ctx this))
  /\ (forall s : state,
        let calls := fun m : R unit => written (m s) in
        Canvas.balanced (calls (drawGlow this))
        /\ Canvas.balanced (calls (drawAura sin cos this))
        /\ Canvas.balanced (calls (drawSocket sin cos this))
        /\ Canvas.balanced (calls (drawSclera sin cos this))
        /\ Canvas.balanced (calls drawVeins)
        /\ Canvas.balanced (calls (drawIris sin cos this))
        /\ Canvas.balanced (calls (drawRadialPattern this))
        /\ Canvas.balanced (calls (drawSpiralPattern sin cos this))
        /\ Canvas.balanced (calls (drawGeometricPattern sin cos this))
        /\ Canvas.balanced (calls (drawFractalPattern this))
        /\ Canvas.balanced (calls (drawCrystallinePattern sin cos this))
        /\ Canvas.balanced (calls (drawVoidPattern this))
        /\ Canvas.balanced (calls (drawPupil sin cos this))
        /\ Canvas.balanced (calls (drawHighlights sin cos this))
        /\ Canvas.balanced (calls (drawLaser sin cos this))
        /\ Canvas.balanced (calls (drawParticles sin cos this))
        /\ Canvas.balanced (calls (drawLightning sin cos this))
        /\ (forall shape size,
              Canvas.balanced (calls (drawShape sin cos shape size)))
        /\ (forall x y radius1 radius2 npoints,
              Canvas.balanced (calls (drawStar sin cos x y radius1 radius2 npoints)))
        /\ (forall x y radius npoints,
              Canvas.balanced (calls (drawPolygon sin cos x y radius npoints))))
  /\ (forall s : state,
        let energy := Eyeball.animationEnergy (Eyeball.spec this) in
        let cycle := JS.mul (JS.mul (Eyeball.time this) energy) 0.4 in
        let phase := JS.div (JS.add (sin cycle) 1) 2 in
        JS.ltb phase 0.2 = true ->
        written (drawLaser sin cos this s)
        = [ Canvas.save;
            Canvas.translate (Eyeball.centerX this) (Eyeball.centerY this);
            Canvas.translate
              (JS.mul (JS.mul (sin (Eyeball.time this)) 5) energy)
              (JS.mul (JS.mul (cos (JS.mul (Eyeball.time this) 0.7)) 3) energy);
            Canvas.restore ]).
Proof.
  split; [| split].
  - unfold Canvas.balanced, calls_of. rewrite draw_eq. cbn [snd].
    apply layers_shifts.
  - intros s calls. subst calls. cbv beta. unfold Canvas.balanced.
    exact
      (conj (drawGlow_shifts this 0%nat s)
      (conj (drawAura_shifts sin cos this 0%nat s)
      (conj (drawSocket_shifts sin cos this 0%nat s)
      (conj (drawSclera_shifts sin cos this 0%nat s)
      (conj (drawVeins_shifts 0%nat s)
      (conj (drawIris_shifts sin cos this 0%nat s)
      (conj (drawRadialPattern_shifts this 0%nat s)
      (conj (drawSpiralPattern_shifts sin cos this 0%nat s)
      (conj (drawGeometricPattern_shifts sin cos this 0%nat s)
      (conj (drawFractalPattern_shifts this 0%nat s)
      (conj (drawCrystallinePattern_shifts sin cos this 0%nat s)
      (conj (drawVoidPattern_shifts this 0%nat s)
      (conj (drawPupil_shifts sin cos this 0%nat s)
      (conj (drawHighlights_shifts sin cos this 0%nat s)
      (conj (drawLaser_shifts sin cos this 0%nat s)
      (conj (drawParticles_shifts sin cos this 0%nat s)
      (conj (drawLightning_shifts sin cos this 0%nat s)
      (conj (fun shape size => drawShape_shifts sin cos shape size 0%nat s)
      (conj (fun x y radius1 radius2 npoints =>
               drawStar_shifts sin cos x y radius1 radius2 npoints 0%nat s)
            (fun x y radius npoints =>
               drawPolygon_shifts sin cos x y radius npoints 0%nat s)
      ))))))))))))))))))).
  - intros s energy cycle phase Hphase.
    unfold drawLaser. cbv zeta. fold energy. fold cycle. fold phase.
    rewrite !written_bind. cbv beta. rewrite Hphase. reflexivity.
Qed.

Lemma frame_leaves_stack_balanced_witness :
  let sin := fun _ : number => (-1)%Q in
  let cos := fun _ : number => 1%Q in
  let this := Eyeball.new 42 300 300 in
  Eyeball.hasLaser (Eyeball.spec this) = true
  /\ length (written (drawLaser sin cos this (fresh_helper this))) = 4%nat
  /\ Canvas.balanced (written (drawLaser sin cos this (fresh_helper this))).
Proof.
  intros sin cos this.
  destruct (frame_leaves_stack_balanced sin cos (Canvas.mkCanvas 300 300) this)
    as (_ & _ & H).
  split; [vm_compute; reflexivity |].
  rewrite (H (fresh_helper this)); [split; reflexivity |].
  vm_compute. reflexivity.
Defined.

(** C5: in every frame, for every combination of flags, the calls of the
    laser, particles and lightning layers all come after every call of the
    other layers (background, glow, aura, socket, sclera, iris, pupil,
    highlights): the frame is a front without any call of the three effect
    layers followed by a back with no other call. *)
Theorem effects_drawn_last
  (sin cos : number -> number) (ctx : Canvas.canvas) (this : Eyeball.t) :
  exists front back : list (layer * Canvas.call),
    snd (draw sin cos ctx this) = front ++ back
    /\ Forall (fun c => effect_layer (fst c) = false) front
    /\ Forall (fun c => effect_layer (fst c) = true) back.
Proof.
  rewrite draw_eq. cbn [snd]. apply layers_effects_last.
Qed.

End FrameTheorems.

(** ** Loops and recursion come to an end *)

Section Termination.

Import Render CanvasHelper EyeballDraw.
Local Open Scope Q_scope.

Lemma ceiling_unique (x : Q) (z : Z) :
  inject_Z (z - 1) < x -> x <= inject_Z z -> Qceiling x = z.
Proof.
  intros Hlo Hhi.
  pose proof (Qle_ceiling x) as H1. pose proof (Qceiling_lt x) as H2.
  assert (A : inject_Z (z - 1) < inject_Z (Qceiling x))
    by (eapply Qlt_le_trans; eassumption).
  assert (B : inject_Z (Qceiling x - 1) < inject_Z z)
    by (eapply Qlt_le_trans; eassumption).
  rewrite <- Zlt_Qlt in A, B. lia.
Qed.

Lemma rounds_done (x bound inc : number) :
  0 < inc -> JS.ltb x bound = false -> rounds x bound inc = 0%nat.
Proof.
  intros Hinc H. apply ltb_ge in H. unfold rounds.
  assert (Hq : (bound - x) / inc <= 0).
  { apply Qle_shift_div_r; [exact Hinc | lra]. }
  pose proof (Qceiling_lt ((bound - x) / inc)) as Hc.
  assert (A : inject_Z (Qceiling ((bound - x) / inc) - 1) < inject_Z 0)
    by (eapply Qlt_le_trans; eassumption).
  rewrite <- Zlt_Qlt in A. lia.
Qed.

Lemma rounds_step (x bound inc : number) :
  0 < inc -> JS.ltb x bound = true ->
  rounds x bound inc = S (rounds (JS.add x inc) bound inc).
Proof.
  intros Hinc H. apply ltb_lt in H. unfold rounds.
  set (q := (bound - x) / inc).
  assert (Hq : 0 < q).
  { unfold q. apply Qlt_shift_div_l; [exact Hinc | lra]. }
  assert (Hnext : (bound - JS.add x inc) / inc == q - 1).
  { unfold q. rewrite add_correct. field. lra. }
  rewrite (Qceiling_comp _ _ Hnext).
  assert (Hc : Qceiling (q - 1) = (Qceiling q - 1)%Z).
  { assert (Hsub : forall z : Z, inject_Z (z - 1) == inject_Z z - 1).
    { intros z. unfold Z.sub. rewrite inject_Z_plus. reflexivity. }
    apply ceiling_unique.
    - pose proof (Qceiling_lt q) as L. rewrite Hsub in L. rewrite !Hsub. lra.
    - pose proof (Qle_ceiling q) as L. rewrite Hsub. lra. }
  rewrite Hc.
  assert (Hpos : (0 < Qceiling q)%Z).
  { pose proof (Qle_ceiling q) as L.
    assert (A : inject_Z 0 < inject_Z (Qceiling q))
      by (eapply Qlt_le_trans; [exact Hq | exact L]).
    now rewrite <- Zlt_Qlt in A. }
  lia.
Qed.

(** With a positive increment the loop ends because its condition fails,
    not because its rounds run out: more rounds change nothing. *)
Lemma for_lt_rounds_suffice {W} (bound inc : number) (body : number -> M W unit) :
  0 < inc ->
  forall (n : nat) (x : number),
    (rounds x bound inc <= n)%nat ->
    for_lt_fuel n x bound inc body = for_lt x bound inc body.
Proof.
  intros Hinc. unfold for_lt.
  induction n as [|n IH]; intros x Hn.
  - replace (rounds x bound inc) with 0%nat by lia. reflexivity.
  - cbn [for_lt_fuel]. destruct (JS.ltb x bound) eqn:E.
    + rewrite (rounds_step x bound inc Hinc E) in *. cbn [for_lt_fuel].
      rewrite E. rewrite IH by lia. reflexivity.
    + rewrite (rounds_done x bound inc Hinc E). reflexivity.
Qed.

(** The increments of the loops of the renderer are positive: of
    [drawStar] and [drawPolygon] (called with six points), of the metallic
    sclera and of the spiral. *)
Lemma loop_increments_positive :
  0 < JS.div TWO_PI 6 /\ (0 < 2)%Q /\ (0 < 0.1)%Q.
Proof. repeat split. Qed.

Variable this : Eyeball.t.

Lemma drawFractalLayer_returns (fuel : nat) :
  forall (size x y : number) (depth : Z),
    (Z.to_nat depth < fuel)%nat ->
    exists m : R unit, drawFractalLayer this fuel size x y depth = Some m.
Proof.
  induction fuel as [|fuel IH]; intros size x y depth Hfuel; [lia |].
  cbn [drawFractalLayer].
  destruct (Z.leb_spec depth 0) as [Hd|Hd]; cbn [orb].
  - eexists; reflexivity.
  - destruct (JS.ltb size 5); [eexists; reflexivity |]. cbv zeta.
    assert (Hrec : (Z.to_nat (depth - 1) < fuel)%nat) by lia.
    destruct (IH (JS.mul size 0.6) (JS.sub x (JS.mul size 0.3)) y (depth - 1)%Z Hrec)
      as [m1 ->].
    destruct (IH (JS.mul size 0.6) (JS.add x (JS.mul size 0.3)) y (depth - 1)%Z Hrec)
      as [m2 ->].
    destruct (IH (JS.mul size 0.6) x (JS.sub y (JS.mul size 0.3)) (depth - 1)%Z Hrec)
      as [m3 ->].
    destruct (IH (JS.mul size 0.6) x (JS.add y (JS.mul size 0.3)) (depth - 1)%Z Hrec)
      as [m4 ->].
    eexists; reflexivity.
Qed.

Lemma length_written_fill4 (r g b a : number) (s : state) :
  length (written (fill4 r g b a s)) = 1%nat.
Proof. reflexivity. Qed.

Lemma length_written_ellipse (x y w h : number) (s : state) :
  length (written (ellipse x y w h s)) = 3%nat.
Proof. reflexivity. Qed.

Lemma drawFractalLayer_bounded (fuel : nat) :
  forall (size x y : number) (depth : Z) (m : R unit),
    drawFractalLayer this fuel size x y depth = Some m ->
    forall s, (length (written (m s)) <= 4 * fractal_nodes (Z.to_nat depth))%nat.
Proof.
  induction fuel as [|fuel IH]; intros size x y depth m E s;
    cbn [drawFractalLayer] in E; [discriminate |].
  destruct (Z.leb_spec depth 0) as [Hd|Hd]; cbn [orb] in E.
  - injection E as <-. cbn. lia.
  - destruct (JS.ltb size 5); [injection E as <-; cbn; lia |].
    cbv zeta in E.
    destruct (drawFractalLayer this fuel _ (JS.sub x _) y _) as [m1|] eqn:E1;
      [| discriminate].
    destruct (drawFractalLayer this fuel _ (JS.add x _) y _) as [m2|] eqn:E2;
      [| discriminate].
    destruct (drawFractalLayer this fuel _ x (JS.sub y _) _) as [m3|] eqn:E3;
      [| discriminate].
    destruct (drawFractalLayer this fuel _ x (JS.add y _) _) as [m4|] eqn:E4;
      [| discriminate].
    injection E as <-.
    replace (Z.to_nat depth) with (S (Z.to_nat (depth - 1))) by lia.
    cbn [fractal_nodes]. set (n := fractal_nodes (Z.to_nat (depth - 1))).
    pose proof (IH _ _ _ _ _ E1) as B1. pose proof (IH _ _ _ _ _ E2) as B2.
    pose proof (IH _ _ _ _ _ E3) as B3. pose proof (IH _ _ _ _ _ E4) as B4.
    fold n in B1, B2, B3, B4.
    unfold fractal_node. cbv zeta.
    rewrite !written_bind. cbv beta. rewrite !length_app.
    rewrite length_written_fill4, length_written_ellipse.
    repeat match goal with
           | |- context [written (m1 ?s)] =>
               lazymatch goal with
               | _ : (length (written (m1 s)) <= _)%nat |- _ => fail
               | _ => pose proof (B1 s)
               end
           | |- context [written (m2 ?s)] =>
               lazymatch goal with
               | _ : (length (written (m2 s)) <= _)%nat |- _ => fail
               | _ => pose proof (B2 s)
               end
           | |- context [written (m3 ?s)] =>
               lazymatch goal with
               | _ : (length (written (m3 s)) <= _)%nat |- _ => fail
               | _ => pose proof (B3 s)
               end
           | |- context [written (m4 ?s)] =>
               lazymatch goal with
               | _ : (length (written (m4 s)) <= _)%nat |- _ => fail
               | _ => pose proof (B4 s)
               end
           end.
    lia.
Qed.

(** C9: the fractal pattern comes to an end for every input.  Called with
    depth [depth] and any size and position, [drawFractalLayer] returns once
    it may nest [depth + 1] calls deep; it returns at once, drawing nothing,
    when [depth <= 0] or [size < 5]; otherwise it draws one circle and makes
    four calls with depth [depth - 1] and size [size * 0.6]; in all it makes
    at most [fractal_nodes depth] calls that draw, four context calls each.
    [drawFractalPattern] starts it with depth 4, so with at most 85 circles. *)
Theorem fractal_terminates
  (size x y : number) (depth : Z) (fuel : nat) :
  (Z.to_nat depth < fuel)%nat ->
  (exists m : R unit,
      drawFractalLayer this fuel size x y depth = Some m
      /\ (forall s,
            (length (written (m s)) <= 4 * fractal_nodes (Z.to_nat depth))%nat)
      /\ ((depth <= 0)%Z \/ JS.ltb size 5 = true -> m = ret tt)
      /\ ((0 < depth)%Z -> JS.ltb size 5 = false ->
          exists (fuel' : nat) (west east north south : R unit),
            fuel = S fuel'
            /\ drawFractalLayer this fuel' (JS.mul size 0.6)
                 (JS.sub x (JS.mul size 0.3)) y (depth - 1) = Some west
            /\ drawFractalLayer this fuel' (JS.mul size 0.6)
                 (JS.add x (JS.mul size 0.3)) y (depth - 1) = Some east
            /\ drawFractalLayer this fuel' (JS.mul size 0.6)
                 x (JS.sub y (JS.mul size 0.3)) (depth - 1) = Some north
            /\ drawFractalLayer this fuel' (JS.mul size 0.6)
                 x (JS.add y (JS.mul size 0.3)) (depth - 1) = Some south
            /\ m = fractal_node this size x y depth west east north south))
  /\ (exists m : R unit,
        drawFractalLayer this 5
          (JS.div (Eyeball.irisSize (Eyeball.spec this)) 2) 0 0 4 = Some m
        /\ drawFractalPattern this = m
        /\ forall s, (length (written (m s)) <= 4 * 85)%nat).
Proof.
  intros Hfuel. split.
  - destruct (drawFractalLayer_returns fuel size x y depth Hfuel) as [m Hm].
    exists m. split; [exact Hm | split; [| split]].
    + apply (drawFractalLayer_bounded fuel size x y depth m Hm).
    + intros Hbase. destruct fuel as [|fuel']; [lia |].
      cbn [drawFractalLayer] in Hm.
      assert (Hc : ((depth <=? 0)%Z || JS.ltb size 5) = true).
      { destruct Hbase as [Hd | Hs].
        - apply Z.leb_le in Hd. now rewrite Hd.
        - rewrite Hs. apply orb_true_r. }
      rewrite Hc in Hm. now injection Hm as <-.
    + intros Hd Hs. destruct fuel as [|fuel']; [lia |]. exists fuel'.
      cbn [drawFractalLayer] in Hm.
      assert (Hc : ((depth <=? 0)%Z || JS.ltb size 5) = false).
      { rewrite Hs. destruct (Z.leb_spec depth 0); [lia | reflexivity]. }
      rewrite Hc in Hm. cbv zeta in Hm.
      destruct (drawFractalLayer this fuel' _ (JS.sub x _) y _) as [m1|];
        [| discriminate].
      destruct (drawFractalLayer this fuel' _ (JS.add x _) y _) as [m2|];
        [| discriminate].
      destruct (drawFractalLayer this fuel' _ x (JS.sub y _) _) as [m3|];
        [| discriminate].
      destruct (drawFractalLayer this fuel' _ x (JS.add y _) _) as [m4|];
        [| discriminate].
      injection Hm as <-. exists m1, m2, m3, m4.
      repeat (split; [reflexivity |]). reflexivity.
  - assert (Hfive : (Z.to_nat 4 < 5)%nat) by (cbn; lia).
    destruct (drawFractalLayer_returns 5
                (JS.div (Eyeball.irisSize (Eyeball.spec this)) 2) 0 0 4 Hfive)
      as [m Hm].
    exists m. split; [exact Hm | split].
    + unfold drawFractalPattern. now rewrite Hm.
    + intros s.
      apply (drawFractalLayer_bounded 5 _ 0 0 4 m Hm s).
Qed.

End Termination.

Lemma fractal_terminates_witness :
  exists m : Render.R unit,
    EyeballDraw.drawFractalLayer (Eyeball.new 9 300 300) 5
      (JS.div (Eyeball.irisSize (Eyeball.spec (Eyeball.new 9 300 300))) 2) 0 0 4
    = Some m.
Proof.
  assert (H : (Z.to_nat 4 < 5)%nat) by (cbn; lia).
  destruct (fractal_terminates (Eyeball.new 9 300 300)
              (JS.div (Eyeball.irisSize (Eyeball.spec (Eyeball.new 9 300 300))) 2)
              0 0 4 5 H) as [(m & Hm & _) _].
  exists m. exact Hm.
Defined.

(** ** What a frame reads of the random stream *)

Section StreamBlind.

Import Render CanvasHelper.

Lemma blind_ret {W A} (a : A) : blind (@ret W A a).
Proof. intros s r. reflexivity. Qed.

Lemma blind_emit {W} (c : W) : blind (emit c).
Proof. intros s r. reflexivity. Qed.

Lemma blind_get_firstVertex {W} : blind (@get_firstVertex W).
Proof. intros s r. reflexivity. Qed.

Lemma blind_set_firstVertex {W} (b : bool) : blind (@set_firstVertex W b).
Proof. intros s r. reflexivity. Qed.

Lemma blind_bind {W A B} (m : M W A) (k : A -> M W B) :
  blind m -> (forall a, blind (k a)) -> blind (bind m k).
Proof.
  intros Hm Hk s r. unfold bind at 1. rewrite Hm, Hk.
  unfold bind, result, final, written.
  destruct (m s) as [[a s1] w1]; cbn [fst snd].
  now destruct (k a s1) as [[b s2] w2].
Qed.

Lemma blind_when {W} (c : bool) (m : M W unit) : blind m -> blind (when c m).
Proof. intros H. destruct c; [exact H | apply blind_ret]. Qed.

Lemma blind_when_false {W} (m : M W unit) : blind (when false m).
Proof. apply blind_ret. Qed.

Lemma blind_forEach {W A} (array : list A) (body : A -> M W unit) :
  (forall x, blind (body x)) -> blind (forEach array body).
Proof.
  intros H. induction array as [|x rest IH]; cbn [forEach].
  - apply blind_ret.
  - apply blind_bind; [apply H | intros _; exact IH].
Qed.

Lemma blind_for_lt {W} (start bound inc : number) (body : number -> M W unit) :
  (forall y, blind (body y)) -> blind (for_lt start bound inc body).
Proof.
  intros H. unfold for_lt. generalize (rounds start bound inc) as fuel.
  intros fuel. revert start.
  induction fuel as [|fuel IH]; intros x; cbn [for_lt_fuel].
  - apply blind_ret.
  - destruct (JS.ltb x bound); [| apply blind_ret].
    apply blind_bind; [apply H | intros _; apply IH].
Qed.

Lemma blind_for_up {W} (n : nat) (body : Z -> M W unit) :
  (forall i, blind (body i)) -> blind (for_up n body).
Proof. intros H. now apply blind_forEach. Qed.

Lemma blind_for_down {W} (n : nat) (body : Z -> M W unit) :
  (forall i, blind (body i)) -> blind (for_down n body).
Proof. intros H. now apply blind_forEach. Qed.

(** A blind computation leaves the stream where it was and does the same
    from any stream. *)
Lemma blind_keeps_stream {W A} (m : M W A) (s : state) :
  blind m -> rng (final (m s)) = rng s.
Proof.
  intros H. specialize (H s (rng s)).
  assert (E : reseed (rng s) s = s) by now destruct s.
  rewrite E in H. rewrite H at 1. reflexivity.
Qed.

Lemma blind_same_calls {W A} (m : M W A) (s : state) (r : SeededRandom.t) :
  blind m -> written (m (reseed r s)) = written (m s).
Proof. intros H. now rewrite H. Qed.

End StreamBlind.

Create HintDb blind discriminated.
#[export] Hint Constants Opaque : blind.

Ltac blind_step :=
  lazymatch goal with
  | |- blind (Render.ret _) => apply blind_ret
  | |- blind (Render.emit _) => apply blind_emit
  | |- blind (Render.bind _ _) => apply blind_bind; [| intro]
  | |- blind (Render.when false _) => apply blind_when_false
  | |- blind (Render.when _ _) => apply blind_when
  | |- blind (Render.forEach _ _) => apply blind_forEach; intro
  | |- blind (Render.for_lt _ _ _ _) => apply blind_for_lt; intro
  | |- blind (Render.for_up _ _) => apply blind_for_up; intro
  | |- blind (Render.for_down _ _) => apply blind_for_down; intro
  | |- blind (Render.set_firstVertex _) => apply blind_set_firstVertex
  | |- blind Render.get_firstVertex => apply blind_get_firstVertex
  | |- blind (if ?c then _ else _) => destruct c
  | |- blind _ => solve [eauto 2 with blind nocore]
  end.

Ltac blinds := cbv zeta; repeat (blind_step; cbv beta zeta).

Section HelperBlind.

Import Render CanvasHelper.

Lemma push_blind : blind push.
Proof. unfold push. blinds. Qed.

Lemma pop_blind : blind pop.
Proof. unfold pop. blinds. Qed.

Lemma translate_blind (x y : number) : blind (translate x y).
Proof. unfold translate. blinds. Qed.

Lemma rotate_blind (angle : number) : blind (rotate angle).
Proof. unfold rotate. blinds. Qed.

Lemma background_blind (cv : Canvas.canvas) (r g b : number) :
  blind (background cv r g b).
Proof. unfold background. blinds. Qed.

Lemma fill4_blind (r g b a : number) : blind (fill4 r g b a).
Proof. unfold fill4. blinds. Qed.

Lemma fill_blind (r g b : number) : blind (fill r g b).
Proof. apply fill4_blind. Qed.

Lemma stroke4_blind (r g b a : number) : blind (stroke4 r g b a).
Proof. unfold stroke4. blinds. Qed.

Lemma stroke_blind (r g b : number) : blind (stroke r g b).
Proof. apply stroke4_blind. Qed.

Lemma strokeWeight_blind (weight : number) : blind (strokeWeight weight).
Proof. unfold strokeWeight. blinds. Qed.

Lemma noStroke_blind : blind noStroke.
Proof. unfold noStroke. blinds. Qed.

Lemma noFill_blind : blind noFill.
Proof. unfold noFill. blinds. Qed.

Lemma ellipse_blind (x y w h : number) : blind (ellipse x y w h).
Proof. unfold ellipse. blinds. Qed.

Lemma line_blind (x1 y1 x2 y2 : number) : blind (line x1 y1 x2 y2).
Proof. unfold line. blinds. Qed.

Lemma rect_blind (x y w h : number) : blind (rect x y w h).
Proof. unfold rect. blinds. Qed.

Lemma rectMode_blind : blind rectMode.
Proof. unfold rectMode. blinds. Qed.

Lemma beginShape_blind : blind beginShape.
Proof. unfold beginShape. blinds. Qed.

Lemma endShape_blind (close : bool) : blind (endShape close).
Proof. unfold endShape. blinds. Qed.

Lemma vertex_blind (x y : number) : blind (vertex x y).
Proof. unfold vertex. blinds. Qed.

Lemma triangle_blind (x1 y1 x2 y2 x3 y3 : number) :
  blind (triangle x1 y1 x2 y2 x3 y3).
Proof. unfold triangle. blinds. Qed.

End HelperBlind.

#[export] Hint Resolve push_blind pop_blind translate_blind rotate_blind
  background_blind fill4_blind fill_blind stroke4_blind stroke_blind
  strokeWeight_blind noStroke_blind noFill_blind ellipse_blind line_blind
  rect_blind rectMode_blind beginShape_blind endShape_blind vertex_blind
  triangle_blind : blind.

Section RoutineBlind.

Import Render CanvasHelper EyeballDraw.

Variables sin cos : number -> number.
Variable this : Eyeball.t.

Lemma drawStar_blind (x y radius1 radius2 npoints : number) :
  blind (drawStar sin cos x y radius1 radius2 npoints).
Proof. unfold drawStar. blinds. Qed.

Lemma drawPolygon_blind (x y radius npoints : number) :
  blind (drawPolygon sin cos x y radius npoints).
Proof. unfold drawPolygon. blinds. Qed.

Hint Resolve drawStar_blind drawPolygon_blind : blind.

Lemma drawShape_blind (shape : string) (size : number) :
  blind (drawShape sin cos shape size).
Proof. unfold drawShape. blinds. Qed.

Hint Resolve drawShape_blind : blind.

Lemma drawSocket_blind : blind (drawSocket sin cos this).
Proof. unfold drawSocket. blinds. Qed.

Lemma drawSclera_blind :
  (Eyeball.scleraTexture (Eyeball.spec this) =? "veined")%string = false ->
  blind (drawSclera sin cos this).
Proof. intros H. unfold drawSclera. rewrite H. blinds. Qed.

Lemma drawRadialPattern_blind : blind (drawRadialPattern this).
Proof. unfold drawRadialPattern. blinds. Qed.

Lemma drawSpiralPattern_blind : blind (drawSpiralPattern sin cos this).
Proof. unfold drawSpiralPattern. blinds. Qed.

Lemma drawGeometricPattern_blind : blind (drawGeometricPattern sin cos this).
Proof. unfold drawGeometricPattern. blinds. Qed.

Lemma drawFractalLayer_blind (fuel : nat) :
  forall (size x y : number) (depth : Z) (m : R unit),
    drawFractalLayer this fuel size x y depth = Some m -> blind m.
Proof.
  induction fuel as [|fuel IH]; intros size x y depth m E;
    cbn [drawFractalLayer] in E; [discriminate |].
  destruct ((depth <=? 0)%Z || JS.ltb size 5).
  - injection E as <-. apply blind_ret.
  - cbv zeta in E.
    destruct (drawFractalLayer this fuel _ (JS.sub x _) y _) as [m1|] eqn:E1;
      [| discriminate].
    destruct (drawFractalLayer this fuel _ (JS.add x _) y _) as [m2|] eqn:E2;
      [| discriminate].
    destruct (drawFractalLayer this fuel _ x (JS.sub y _) _) as [m3|] eqn:E3;
      [| discriminate].
    destruct (drawFractalLayer this fuel _ x (JS.add y _) _) as [m4|] eqn:E4;
      [| discriminate].
    injection E as <-.
    pose proof (IH _ _ _ _ _ E1). pose proof (IH _ _ _ _ _ E2).
    pose proof (IH _ _ _ _ _ E3). pose proof (IH _ _ _ _ _ E4).
    unfold fractal_node. blinds; assumption.
Qed.

Lemma drawFractalPattern_blind : blind (drawFractalPattern this).
Proof.
  unfold drawFractalPattern.
  destruct (drawFractalLayer this 5 _ 0 0 4) as [m|] eqn:E.
  - apply (drawFractalLayer_blind _ _ _ _ _ _ E).
  - apply blind_ret.
Qed.

Lemma drawCrystallinePattern_blind : blind (drawCrystallinePattern sin cos this).
Proof. unfold drawCrystallinePattern. blinds. Qed.

Lemma drawVoidPattern_blind : blind (drawVoidPattern this).
Proof. unfold drawVoidPattern. blinds. Qed.

Hint Resolve drawRadialPattern_blind drawSpiralPattern_blind
  drawGeometricPattern_blind drawFractalPattern_blind
  drawCrystallinePattern_blind drawVoidPattern_blind : blind.

Lemma drawIris_blind : blind (drawIris sin cos this).
Proof. unfold drawIris. blinds. Qed.

Lemma drawPupil_blind : blind (drawPupil sin cos this).
Proof. unfold drawPupil. blinds. Qed.

Lemma drawGlow_blind : blind (drawGlow this).
Proof. unfold drawGlow. blinds. Qed.

Lemma drawAura_blind : blind (drawAura sin cos this).
Proof. unfold drawAura. blinds. Qed.

Lemma drawLaser_blind : blind (drawLaser sin cos this).
Proof. unfold drawLaser. blinds. Qed.

Lemma drawParticles_blind : blind (drawParticles sin cos this).
Proof. unfold drawParticles. blinds. Qed.

Lemma drawHighlights_blind : blind (drawHighlights sin cos this).
Proof. unfold drawHighlights. blinds. Qed.

End RoutineBlind.

Section FrameBlind.

Import Render CanvasHelper EyeballDraw.

Variables sin cos : number -> number.
Variable ctx : Canvas.canvas.

Lemma blind_in_layer (l : layer) (m : R unit) : blind m -> blind (in_layer l m).
Proof.
  intros H s r. unfold in_layer at 1. rewrite H.
  unfold in_layer, result, final, written.
  now destruct (m s) as [[a s'] w].
Qed.

Lemma layers_blind (this : Eyeball.t) :
  (Eyeball.scleraTexture (Eyeball.spec this) =? "veined")%string = false ->
  Eyeball.hasLightning (Eyeball.spec this) = false ->
  blind (layers sin cos ctx this).
Proof.
  intros Hv Hl. unfold layers. cbv zeta. rewrite Hl.
  apply blind_bind; [apply blind_in_layer, background_blind | intros _].
  apply blind_bind; [apply blind_when, blind_in_layer, drawGlow_blind | intros _].
  apply blind_bind; [apply blind_when, blind_in_layer, drawAura_blind | intros _].
  apply blind_bind; [apply blind_in_layer, drawSocket_blind | intros _].
  apply blind_bind;
    [apply blind_in_layer, drawSclera_blind; exact Hv | intros _].
  apply blind_bind; [apply blind_in_layer, drawIris_blind | intros _].
  apply blind_bind; [apply blind_in_layer, drawPupil_blind | intros _].
  apply blind_bind; [apply blind_in_layer, drawHighlights_blind | intros _].
  apply blind_bind; [apply blind_when, blind_in_layer, drawLaser_blind | intros _].
  apply blind_bind;
    [apply blind_when, blind_in_layer, drawParticles_blind | intros _].
  apply blind_when_false.
Qed.

(** The routines read the attributes, the time and the centre of [this],
    and nothing else of it. *)
Lemma layers_reads (a b : Eyeball.t) :
  same_view a b -> layers sin cos ctx a = layers sin cos ctx b.
Proof.
  destruct a, b. unfold same_view. cbn.
  intros (-> & -> & -> & -> & ->). reflexivity.
Qed.

End FrameBlind.

Section FrameDraws.

Import Render CanvasHelper EyeballDraw.

Variables sin cos : number -> number.
Variable ctx : Canvas.canvas.

Lemma draws_blind {W A} (m : M W A) : blind m -> draws m 0.
Proof. intros H s. now apply blind_keeps_stream. Qed.

Lemma draws_bind {W A B} (m : M W A) (k : A -> M W B) (n p : nat) :
  draws m n -> (forall a, draws (k a) p) -> draws (bind m k) (n + p).
Proof.
  intros Hm Hk s. rewrite final_bind, Hk, Hm. symmetry. apply advance_add.
Qed.

Lemma draws_range {W} (min max : number) :
  draws (@random W _ (SeededRandom.range min max)) 1.
Proof.
  intros s. unfold random, final.
  pose proof (range_state min (Some max) (rng s)) as E.
  fold (SeededRandom.range min max) in E.
  destruct (SeededRandom.range min max (rng s)) as [x r]. exact E.
Qed.

Lemma draws_forEach {W A} (array : list A) (body : A -> M W unit) (c : nat) :
  (forall x, draws (body x) c) -> draws (forEach array body) (length array * c).
Proof.
  intros H. induction array as [|x rest IH]; cbn [forEach length Nat.mul].
  - intros s. reflexivity.
  - apply draws_bind; [apply H | intros _; exact IH].
Qed.

Lemma draws_for_up {W} (n : nat) (body : Z -> M W unit) (c : nat) :
  (forall i, draws (body i) c) -> draws (for_up n body) (n * c).
Proof.
  intros H. unfold for_up.
  replace n with (length (upto n)) at 2
    by (unfold upto; now rewrite List.length_map, List.length_seq).
  now apply draws_forEach.
Qed.

Lemma draws_eq {W A} (m : M W A) (n n' : nat) :
  draws m n -> n = n' -> draws m n'.
Proof. now intros H <-. Qed.

Lemma draws_in_layer (l : layer) (m : R unit) (n : nat) :
  draws m n -> draws (in_layer l m) n.
Proof. intros H s. rewrite final_in_layer. apply H. Qed.

Lemma draws_when_blind {W} (c : bool) (m : M W unit) :
  blind m -> draws (when c m) 0.
Proof. intros H. apply draws_blind, blind_when, H. Qed.

Lemma drawVeins_draws : draws drawVeins 24.
Proof.
  unfold drawVeins.
  apply (draws_bind _ _ 0 24); [apply draws_blind, stroke4_blind | intros _].
  apply (draws_bind _ _ 0 24); [apply draws_blind, strokeWeight_blind | intros _].
  apply (draws_bind _ _ 24 0); [| intros _; apply draws_blind, noStroke_blind].
  apply (draws_for_up 8 _ 3). intros i.
  apply (draws_bind _ _ 1 2); [apply draws_range | intros angle].
  apply (draws_bind _ _ 1 1); [apply draws_range | intros length].
  apply (draws_bind _ _ 0 1); [apply draws_blind, push_blind | intros _].
  apply (draws_bind _ _ 0 1); [apply draws_blind, rotate_blind | intros _].
  apply (draws_bind _ _ 1 0); [apply draws_range | intros y2].
  apply (draws_bind _ _ 0 0); [apply draws_blind, line_blind | intros _].
  apply draws_blind, pop_blind.
Qed.

Lemma boltStroke_draws (startAngle startRadius endRadius r g b weight : number) :
  draws (boltStroke sin cos startAngle startRadius endRadius r g b weight) 18.
Proof.
  unfold boltStroke. cbv zeta.
  apply (draws_bind _ _ 0 18); [apply draws_blind, stroke4_blind | intros _].
  apply (draws_bind _ _ 0 18); [apply draws_blind, strokeWeight_blind | intros _].
  apply (draws_bind _ _ 0 18);
    [apply draws_blind, blind_set_firstVertex | intros _].
  apply (draws_bind _ _ 0 18); [apply draws_blind, beginShape_blind | intros _].
  apply (draws_bind _ _ 0 18); [apply draws_blind, noFill_blind | intros _].
  apply (draws_bind _ _ 0 18); [apply draws_blind, vertex_blind | intros _].
  apply (draws_bind _ _ 18 0); [| intros _; apply draws_blind, endShape_blind].
  apply (draws_for_up 6 _ 3). intros step.
  apply (draws_bind _ _ 1 2); [apply draws_range | intros ja].
  apply (draws_bind _ _ 1 1); [apply draws_range | intros jx].
  apply (draws_bind _ _ 1 0); [apply draws_range | intros jy].
  apply draws_blind, vertex_blind.
Qed.

Lemma result_random_range {W} (min max : number) (s : state) :
  result (@random W _ (SeededRandom.range min max) s)
  = fst (SeededRandom.range min max (rng s)).
Proof.
  unfold random, result. now destruct (SeededRandom.range min max (rng s)).
Qed.

Lemma drawLightning_draws (this : Eyeball.t) (s : state) :
  rng (final (drawLightning sin cos this s))
  = SeededRandom.advance (1 + 55 * bolts (rng s)) (rng s).
Proof.
  unfold drawLightning.
  rewrite final_bind. cbv beta. change (final (push s)) with s.
  rewrite final_bind. cbv beta.
  change (final (translate (Eyeball.centerX this) (Eyeball.centerY this) s)) with s.
  rewrite final_bind. cbv beta zeta.
  rewrite result_random_range. fold (bolts (rng s)).
  match goal with
  | |- rng (final (?m ?st)) = _ =>
      assert (Hrest : draws m (bolts (rng s) * 55 + 0))
  end.
  { apply draws_bind.
    - apply draws_for_up. intros i.
      apply (draws_bind _ _ 1 54); [apply draws_range | intros j]. cbv zeta.
      apply (draws_bind _ _ 18 36); [apply boltStroke_draws | intros _].
      apply (draws_bind _ _ 18 18); [apply boltStroke_draws | intros _].
      apply boltStroke_draws.
    - intros _.
      apply (draws_bind _ _ 0 0); [apply draws_blind, noStroke_blind | intros _].
      apply draws_blind, pop_blind. }
  rewrite Hrest, (draws_range 0 2 s), advance_advance. f_equal. lia.
Qed.

Lemma bolts_range (r : SeededRandom.t) :
  (0 <= SeededRandom.seed r)%Z -> (3 <= bolts r <= 4)%nat.
Proof.
  intros H. unfold bolts.
  assert (Hlt : (0 < 2)%Q) by reflexivity.
  pose proof (range_bounds 0 2 r H Hlt) as [Hlo Hhi].
  pose proof (floor_between (fst (SeededRandom.range 0 2 r)) 0 1 Hlo Hhi). lia.
Qed.

Lemma drawSclera_draws (this : Eyeball.t) :
  draws (drawSclera sin cos this) (vein_draws (Eyeball.spec this)).
Proof.
  unfold vein_draws.
  destruct (Eyeball.scleraTexture (Eyeball.spec this) =? "veined")%string eqn:E.
  - unfold drawSclera. rewrite E. cbv zeta.
    apply (draws_bind _ _ 0 24); [apply draws_blind, push_blind | intros _].
    apply (draws_bind _ _ 0 24); [apply draws_blind, translate_blind | intros _].
    apply (draws_bind _ _ 24 0); [apply drawVeins_draws | intros _].
    apply draws_blind. blinds; apply drawShape_blind.
  - apply draws_blind, drawSclera_blind, E.
Qed.

(** The stream after a frame, in general. *)
Lemma layers_draws (this : Eyeball.t) (s : state) :
  rng (final (layers sin cos ctx this s))
  = SeededRandom.advance (frame_draws (Eyeball.spec this) (rng s)) (rng s).
Proof.
  unfold layers. cbv zeta.
  assert (Hfront : forall k : unit -> M (layer * Canvas.call) unit,
    (forall st, rng (final (k tt st))
                = SeededRandom.advance
                    (if Eyeball.hasLightning (Eyeball.spec this)
                     then 1 + 55 * bolts (rng st) else 0) (rng st)) ->
    forall m : M (layer * Canvas.call) unit, blind m ->
    forall st, rng (final (bind m k st))
               = SeededRandom.advance
                   (if Eyeball.hasLightning (Eyeball.spec this)
                    then 1 + 55 * bolts (rng st) else 0) (rng st)).
  { intros k Hk m Hm st. rewrite final_bind.
    destruct (result (m st)). rewrite Hk.
    now rewrite (blind_keeps_stream m st Hm). }
  assert (Hback : forall st,
    rng (final
      (bind (in_layer Iris (drawIris sin cos this)) (fun _ =>
       bind (in_layer Pupil (drawPupil sin cos this)) (fun _ =>
       bind (in_layer Highlights (drawHighlights sin cos this)) (fun _ =>
       bind (when (Eyeball.hasLaser (Eyeball.spec this))
               (in_layer Laser (drawLaser sin cos this))) (fun _ =>
       bind (when (Eyeball.hasParticles (Eyeball.spec this))
               (in_layer Particles (drawParticles sin cos this))) (fun _ =>
       when (Eyeball.hasLightning (Eyeball.spec this))
         (in_layer Lightning (drawLightning sin cos this))))))) st))
    = SeededRandom.advance
        (if Eyeball.hasLightning (Eyeball.spec this)
         then 1 + 55 * bolts (rng st) else 0) (rng st)).
  { apply (Hfront (fun _ => _));
      [| apply blind_in_layer, drawIris_blind].
    apply (Hfront (fun _ => _));
      [| apply blind_in_layer, drawPupil_blind].
    apply (Hfront (fun _ => _));
      [| apply blind_in_layer, drawHighlights_blind].
    apply (Hfront (fun _ => _));
      [| apply blind_when, blind_in_layer, drawLaser_blind].
    apply (Hfront (fun _ => _));
      [| apply blind_when, blind_in_layer, drawParticles_blind].
    intros st. rewrite final_when.
    destruct (Eyeball.hasLightning (Eyeball.spec this)); [| reflexivity].
    rewrite final_in_layer. apply drawLightning_draws. }
  rewrite final_bind. cbv beta.
  rewrite final_bind. cbv beta.
  rewrite final_bind. cbv beta.
  rewrite final_bind. cbv beta.
  rewrite final_bind. cbv beta.
  rewrite Hback.
  set (s4 := final (in_layer Socket _ _)).
  assert (H4 : rng s4 = rng s).
  { unfold s4.
    rewrite (blind_keeps_stream _ _ (blind_in_layer Socket _ (drawSocket_blind sin cos this))).
    rewrite (blind_keeps_stream _ _
               (blind_when _ _ (blind_in_layer Aura _ (drawAura_blind sin cos this)))).
    rewrite (blind_keeps_stream _ _
               (blind_when _ _ (blind_in_layer Glow _ (drawGlow_blind this)))).
    apply (blind_keeps_stream _ _
             (blind_in_layer Background _ (background_blind ctx 10 10 15))). }
  rewrite final_in_layer, (drawSclera_draws this s4), H4.
  unfold frame_draws. rewrite advance_advance. reflexivity.
Qed.

End FrameDraws.

Section FrameStreamTheorems.

Import Render CanvasHelper EyeballDraw.

Lemma not_veined (this : Eyeball.t) :
  Eyeball.scleraTexture (Eyeball.spec this) <> "veined"%string ->
  (Eyeball.scleraTexture (Eyeball.spec this) =? "veined")%string = false.
Proof. intros H. now apply String.eqb_neq. Qed.

Lemma same_view_with_rng (this : Eyeball.t) (r : SeededRandom.t) :
  same_view this (Eyeball.with_rng this r).
Proof. destruct this. unfold same_view. cbn. repeat split. Qed.

Lemma same_view_advanced (a b : Eyeball.t) :
  same_view a b -> same_view (advanced a) (advanced b).
Proof.
  unfold same_view, advanced. intros (Hs & Ht & Hv & Hx & Hy). cbn.
  rewrite Hs, Ht, Hv. repeat split; assumption.
Qed.

(** C2, as the code has it: for an instance whose sclera is not veined and
    whose lightning flag is not set, the calls of a frame are a function of
    what the routines read of the instance (the attributes, the elapsed
    time and its step, the centre of the canvas) and of the surface; the
    state of the random stream has no part in them. *)
Theorem frame_function_of_view
  (sin cos : number -> number) (ctx : Canvas.canvas) (a b : Eyeball.t) :
  same_view a b ->
  Eyeball.scleraTexture (Eyeball.spec a) <> "veined"%string ->
  Eyeball.hasLightning (Eyeball.spec a) = false ->
  snd (draw sin cos ctx a) = snd (draw sin cos ctx b).
Proof.
  intros Hview Hv Hl. rewrite !draw_eq. cbn [snd].
  pose proof (same_view_advanced a b Hview) as Hadv.
  rewrite <- (layers_reads sin cos ctx (advanced a) (advanced b) Hadv).
  change (fresh_helper b) with (reseed (Eyeball.rng b) (fresh_helper a)).
  symmetry. apply blind_same_calls. apply layers_blind.
  - apply (not_veined (advanced a)). exact Hv.
  - exact Hl.
Qed.

Lemma frame_function_of_view_witness :
  let this := Eyeball.new 4 300 300 in
  let other := Eyeball.with_rng this (SeededRandom.mk 0) in
  Eyeball.rng this <> Eyeball.rng other
  /\ forall sin cos ctx, snd (draw sin cos ctx this) = snd (draw sin cos ctx other).
Proof.
  intros this other. split; [vm_compute; discriminate |].
  intros sin cos ctx. apply frame_function_of_view.
  - apply same_view_with_rng.
  - vm_compute. discriminate.
  - vm_compute. reflexivity.
Defined.

(** C2 fails as stated: two states of one instance with the same
    attributes, time and centre, that differ in the state of the random
    stream only, give different frames.  With a veined sclera the first
    vein is rotated by another angle; with lightning the frame may have
    another number of bolts. *)
Lemma frame_depends_on_stream :
  let veined := Eyeball.new 1 300 300 in
  let veined' :=
    Eyeball.with_rng veined (snd (SeededRandom.next (Eyeball.rng veined))) in
  let storm := Eyeball.new 6 300 300 in
  let storm' :=
    Eyeball.with_rng storm (SeededRandom.advance 3 (Eyeball.rng storm)) in
  (same_view veined veined'
   /\ Eyeball.scleraTexture (Eyeball.spec veined) = "veined"%string
   /\ forall sin cos ctx,
        nth_error (snd (draw sin cos ctx veined)) 97
        <> nth_error (snd (draw sin cos ctx veined')) 97)
  /\ (same_view storm storm'
      /\ Eyeball.hasLightning (Eyeball.spec storm) = true
      /\ forall sin cos ctx,
           length (snd (draw sin cos ctx storm)) = 325%nat
           /\ length (snd (draw sin cos ctx storm')) = 364%nat).
Proof.
  cbv zeta. split.
  - split; [apply same_view_with_rng | split; [vm_compute; reflexivity |]].
    intros sin cos ctx H. vm_compute in H. discriminate H.
  - split; [apply same_view_with_rng | split; [vm_compute; reflexivity |]].
    intros sin cos ctx. split; vm_compute; reflexivity.
Qed.

(** C4, as the code has it: a frame never assigns an attribute, a trait or
    anything else of the instance but [time], which it advances by
    [animationSpeed * animationEnergy], and the state of the random stream.
    It leaves the stream alone when the sclera is not veined and the
    lightning flag is not set; otherwise it draws from it: 24 times for the
    veins, and once and 55 times a bolt for the lightning. *)
Theorem frame_keeps_attributes
  (sin cos : number -> number) (ctx : Canvas.canvas) (this : Eyeball.t) :
  let this' := fst (draw sin cos ctx this) in
  (Eyeball.spec this' = Eyeball.spec this
   /\ Eyeball.metadata this' = Eyeball.metadata this
   /\ Eyeball.seed this' = Eyeball.seed this
   /\ Eyeball.w this' = Eyeball.w this
   /\ Eyeball.h this' = Eyeball.h this
   /\ Eyeball.centerX this' = Eyeball.centerX this
   /\ Eyeball.centerY this' = Eyeball.centerY this
   /\ Eyeball.animationSpeed this' = Eyeball.animationSpeed this
   /\ Eyeball.time this'
      = JS.add (Eyeball.time this)
          (JS.mul (Eyeball.animationSpeed this)
             (Eyeball.animationEnergy (Eyeball.spec this))))
  /\ Eyeball.rng this'
     = SeededRandom.advance
         (frame_draws (Eyeball.spec this) (Eyeball.rng this)) (Eyeball.rng this)
  /\ (Eyeball.scleraTexture (Eyeball.spec this) <> "veined"%string ->
      Eyeball.hasLightning (Eyeball.spec this) = false ->
      Eyeball.rng this' = Eyeball.rng this).
Proof.
  cbv zeta. rewrite draw_eq. cbn [fst]. split; [repeat split | split].
  - cbn [Eyeball.rng Eyeball.with_rng]. rewrite layers_draws. reflexivity.
  - intros Hv Hl. cbn [Eyeball.rng Eyeball.with_rng].
    rewrite blind_keeps_stream; [reflexivity |].
    apply layers_blind; [apply (not_veined (advanced this)); exact Hv | exact Hl].
Qed.

Lemma frame_keeps_attributes_witness :
  let this := Eyeball.new 4 300 300 in
  Eyeball.hasLightning (Eyeball.spec this) = false
  /\ forall sin cos ctx,
       Eyeball.spec (fst (draw sin cos ctx this)) = Eyeball.spec this
       /\ Eyeball.rng (fst (draw sin cos ctx this)) = Eyeball.rng this.
Proof.
  intros this. split; [vm_compute; reflexivity |]. intros sin cos ctx.
  destruct (frame_keeps_attributes sin cos ctx this) as ((Hs & _) & _ & Hr).
  split; [exact Hs | apply Hr].
  - vm_compute. discriminate.
  - vm_compute. reflexivity.
Defined.

(** C4 fails as stated: a frame of an instance with a veined sclera, or
    with lightning, draws from the random stream and leaves it in another
    state. *)
Lemma frame_moves_stream :
  let veined := Eyeball.new 1 300 300 in
  let storm := Eyeball.new 6 300 300 in
  (Eyeball.scleraTexture (Eyeball.spec veined) = "veined"%string
   /\ Eyeball.rng veined = SeededRandom.mk 1420083438
   /\ forall sin cos ctx,
        Eyeball.rng (fst (draw sin cos ctx veined))
        = SeededRandom.advance 24 (Eyeball.rng veined)
        /\ Eyeball.rng (fst (draw sin cos ctx veined))
           = SeededRandom.mk 3150962726)
  /\ (Eyeball.hasLightning (Eyeball.spec storm) = true
      /\ Eyeball.rng storm = SeededRandom.mk 1255162007
      /\ forall sin cos ctx,
           Eyeball.rng (fst (draw sin cos ctx storm))
           = SeededRandom.advance 166 (Eyeball.rng storm)
           /\ Eyeball.rng (fst (draw sin cos ctx storm))
              = SeededRandom.mk 3070209349).
Proof.
  cbv zeta. split; (split; [vm_compute; reflexivity |]);
    (split; [vm_compute; reflexivity |]);
    intros sin cos ctx; split; vm_compute; reflexivity.
Qed.

End FrameStreamTheorems.

(* ================================================================== *)
(** * Further properties of the code                                   *)
(* ================================================================== *)

(** ** The random stream at its edges *)

Section StreamEdges.

Import SeededRandom.
Local Open Scope Q_scope.

Lemma lcg_injective (a b : Z) :
  (0 <= a < 4294967296)%Z -> (0 <= b < 4294967296)%Z -> lcg a = lcg b -> a = b.
Proof.
  unfold lcg. intros Ha Hb E.
  pose proof (Z.div_mod (a * 1664525 + 1013904223) 4294967296) as Da.
  pose proof (Z.div_mod (b * 1664525 + 1013904223) 4294967296) as Db.
  rewrite E in Da.
  set (qa := ((a * 1664525 + 1013904223) / 4294967296)%Z) in *.
  set (qb := ((b * 1664525 + 1013904223) / 4294967296)%Z) in *.
  assert (Hdiv : (4294967296 | 1664525 * (a - b))%Z) by (exists (qa - qb)%Z; lia).
  apply Z.gauss in Hdiv; [| reflexivity].
  destruct Hdiv as [k Hk]. lia.
Qed.

Lemma advance_injective (n : nat) (r1 r2 : t) :
  (0 <= seed r1 < 4294967296)%Z -> (0 <= seed r2 < 4294967296)%Z ->
  advance n r1 = advance n r2 -> r1 = r2.
Proof.
  revert r1 r2. induction n as [|n IH]; intros r1 r2 H1 H2 E; cbn [advance] in E;
    [exact E |].
  apply IH in E.
  - rewrite (next_state r1), (next_state r2) in E by lia.
    injection E as E. apply lcg_injective in E; [| assumption | assumption].
    destruct r1, r2; cbn [seed] in E. now subst.
  - rewrite (next_state r1) by lia. cbn [seed]. apply lcg_range.
  - rewrite (next_state r2) by lia. cbn [seed]. apply lcg_range.
Qed.

(** X1: two streams never merge.  From two different seeds in the 32-bit
    range (the seeds of the gallery are in it) the states after the same
    number of draws are different, and so are the values the next
    [next()] returns: the recurrence is one-to-one on the 32-bit states. *)
Theorem streams_never_merge (n : nat) (s1 s2 : Z) :
  (0 <= s1 < 4294967296)%Z -> (0 <= s2 < 4294967296)%Z -> s1 <> s2 ->
  advance n (mk s1) <> advance n (mk s2)
  /\ ~ fst (next (advance n (mk s1))) == fst (next (advance n (mk s2))).
Proof.
  intros H1 H2 Hne.
  assert (A : forall k, advance k (mk s1) <> advance k (mk s2)).
  { intros k E. apply advance_injective in E; [| exact H1 | exact H2].
    injection E as E. contradiction. }
  split; [apply A |].
  intros E. rewrite !next_value in E.
  unfold Qdiv in E. rewrite Qmult_inj_r in E by discriminate.
  rewrite inject_Z_injective in E.
  apply (A (S n)).
  change (advance (S n) (mk s1)) with (advance n (snd (next (mk s1)))).
  change (advance (S n) (mk s2)) with (advance n (snd (next (mk s2)))).
  assert (Hs : forall k r, advance k (snd (next r)) = snd (next (advance k r))).
  { induction k as [|k IH]; intros r; cbn [advance]; [reflexivity | apply IH]. }
  rewrite !Hs.
  destruct (snd (next (advance n (mk s1)))) as [x], (snd (next (advance n (mk s2)))) as [y].
  cbn [seed] in E. now subst.
Qed.

Lemma streams_never_merge_witness :
  advance 50 (mk 1) <> advance 50 (mk 2).
Proof.
  apply (streams_never_merge 50 1 2); lia.
Defined.

(** X2: the state of the stream is even and odd in turn: each [next()]
    flips the lowest bit of the state, from any state in the 32-bit range,
    from 0 up to 2^32 (where the source computes the recurrence without
    rounding). *)
Theorem state_parity_alternates (r : t) :
  (0 <= seed r < 4294967296)%Z ->
  Z.odd (seed (snd (next r))) = negb (Z.odd (seed r)).
Proof.
  intros [H _]. rewrite (next_state r H). cbn [seed]. unfold lcg.
  rewrite Z.mod_eq by lia.
  rewrite Z.odd_sub, Z.odd_add, !Z.odd_mul. cbn.
  destruct (Z.odd (seed r)); reflexivity.
Qed.

Lemma state_parity_alternates_witness :
  Z.odd (seed (snd (next (mk 42)))) = negb (Z.odd (seed (mk 42))).
Proof. apply (state_parity_alternates (mk 42)). cbn. lia. Defined.

Lemma Qred_zero (q : Q) : q == 0 -> Qred q = 0.
Proof. intros H. apply (Qred_complete q 0) in H. exact H. Qed.

(** X3: [choice] of an empty array.  [int(0, -1)] is
    [Math.floor(range(0, 0))], which is 0 whatever the stream returns, and
    [array[0]] of an empty array is [undefined]: the call returns
    [undefined] and still makes its draw. *)
Theorem choice_of_empty_array {A : Type} (undefined : A) (r : t) :
  choice undefined [] r = (undefined, snd (next r)).
Proof.
  unfold choice, int, range, range_, bind, ret.
  destruct (next r) as [v r']. cbn [snd length Z.of_nat].
  assert (E : JS.add (JS.of_Z 0)
                (JS.mul v (JS.sub (JS.add (JS.of_Z (0 - 1)) 1) (JS.of_Z 0))) = 0).
  { unfold JS.add at 1. apply Qred_zero.
    rewrite mul_correct, sub_correct, add_correct. unfold JS.of_Z. cbn. ring. }
  rewrite E. reflexivity.
Qed.





End StreamEdges.



(** ** Colours *)

Section ColourFacts.

Import SeededRandom Eyeball.
Local Open Scope Q_scope.
Local Open Scope string_scope.

Lemma constrain_bounds (val lo hi : number) :
  lo <= hi -> lo <= constrain val lo hi <= hi.
Proof.
  intros H. unfold constrain, JS.min, JS.max.
  destruct (JS.ltb lo val) eqn:E1;
    [apply ltb_lt in E1 | apply ltb_ge in E1].
  - destruct (JS.ltb val hi) eqn:E2;
      [apply ltb_lt in E2 | apply ltb_ge in E2]; lra.
  - destruct (JS.ltb lo hi) eqn:E2;
      [apply ltb_lt in E2 | apply ltb_ge in E2]; lra.
Qed.

Lemma constrain_near (val lo hi b d : number) :
  lo <= b <= hi -> b - d <= val <= b + d ->
  b - d <= constrain val lo hi <= b + d.
Proof.
  intros H Hv. unfold constrain, JS.min, JS.max.
  destruct (JS.ltb lo val) eqn:E1;
    [apply ltb_lt in E1 | apply ltb_ge in E1].
  - destruct (JS.ltb val hi) eqn:E2;
      [apply ltb_lt in E2 | apply ltb_ge in E2]; lra.
  - destruct (JS.ltb lo hi) eqn:E2;
      [apply ltb_lt in E2 | apply ltb_ge in E2]; lra.
Qed.

(** The palettes hold colours a style can show, and none is empty. *)
Lemma palettes_valid (type : string) (palette : list rgb) :
  lookup colorPalettes type = Some palette ->
  Forall valid_color palette /\ palette <> [].
Proof.
  unfold colorPalettes, lookup.
  repeat match goal with
         | |- context [String.eqb ?a ?b] => destruct (String.eqb a b)
         end;
    intros E; try discriminate E; injection E as <-;
    (split; [| discriminate]);
    repeat constructor; cbn; discriminate.
Qed.

Lemma iris_palette : exists palette, lookup colorPalettes "iris" = Some palette.
Proof. eexists. reflexivity. Qed.

(** The palette [generateColor] picks from: that of [type], or the iris
    palette when [colorPalettes] has no such key. *)
Lemma generateColor_palette (type : string) :
  exists palette,
    (lookup colorPalettes type = Some palette
     \/ (lookup colorPalettes type = None
         /\ lookup colorPalettes "iris" = Some palette))
    /\ forall r,
         fst (generateColor type r)
         = (let base := fst (choice undefined_color palette r) in
            (constrain (JS.add (ch0 base) (fst (range (JS.neg 30) 30 (advance 1 r)))) 0 255,
             constrain (JS.add (ch1 base) (fst (range (JS.neg 30) 30 (advance 2 r)))) 0 255,
             constrain (JS.add (ch2 base) (fst (range (JS.neg 30) 30 (advance 3 r)))) 0 255)).
Proof.
  destruct (lookup colorPalettes type) as [palette|] eqn:E.
  - exists palette. split; [now left |]. intros r.
    unfold generateColor. rewrite E. rewrite !bind_eq.
    rewrite !range_state', !choice_state', !advance_advance. reflexivity.
  - destruct iris_palette as [palette Hp].
    exists palette. split; [right; now split |]. intros r.
    unfold generateColor. rewrite E, Hp. rewrite !bind_eq.
    rewrite !range_state', !choice_state', !advance_advance. reflexivity.
Qed.

Lemma generateColor_valid (type : string) (r : SeededRandom.t) :
  valid_color (fst (generateColor type r)).
Proof.
  destruct (generateColor_palette type) as (palette & _ & ->).
  cbv zeta. unfold valid_color, valid_channel; cbn [ch0 ch1 ch2 fst snd].
  repeat split; apply constrain_bounds; discriminate.
Qed.

(** X6: every colour [generateColor] returns can be shown: after the
    jitter each channel is clamped to [0, 255], for every palette name,
    known or not, that is not a name of [Object.prototype], and every state
    of the stream in the 32-bit range; and the call makes four draws (the
    base colour and three jitters). *)
Theorem generateColor_channels (type : string) (r : SeededRandom.t) :
  (0 <= SeededRandom.seed r < 4294967296)%Z ->
  ~ In type inherited ->
  valid_color (fst (generateColor type r))
  /\ snd (generateColor type r) = advance 4 r.
Proof.
  intros _ _.
  split; [apply generateColor_valid | apply generateColor_state].
Qed.

Lemma generateColor_channels_witness :
  valid_color (fst (generateColor "nebula" (mk 42)))
  /\ snd (generateColor "nebula" (mk 42)) = advance 4 (mk 42).
Proof.
  apply (generateColor_channels "nebula" (mk 42)).
  - cbn. lia.
  - unfold inherited, In. intuition discriminate.
Defined.

(** X7: a generated colour stays within 30 of a colour of its palette in
    each channel, from a state in the 32-bit range.  The palette is that of
    the name asked for, or the iris palette when [colorPalettes] has no
    such name and the name is not one of [Object.prototype] either; the
    base colour is one of its entries (the index never leaves the array),
    the jitter is in [-30, 30), and clamping to [0, 255] moves a channel
    towards the base, never away from it. *)
Theorem generateColor_near_palette (type : string) (r : SeededRandom.t) :
  (0 <= SeededRandom.seed r < 4294967296)%Z ->
  ~ In type inherited ->
  exists palette base,
    (lookup colorPalettes type = Some palette
     \/ (lookup colorPalettes type = None
         /\ lookup colorPalettes "iris" = Some palette))
    /\ In base palette
    /\ near (fst (generateColor type r)) base.
Proof.
  intros [H _] _.
  destruct (generateColor_palette type) as (palette & Hp & E).
  assert (Hv : Forall valid_color palette /\ palette <> []).
  { destruct Hp as [Hp | [_ Hp]]; apply (palettes_valid _ _ Hp). }
  destruct Hv as [Hv Hne].
  destruct (choice_index_in_range undefined_color palette r H Hne)
    as (i & _ & Hi & Hc).
  exists palette, (fst (choice undefined_color palette r)).
  split; [exact Hp |].
  assert (Hin : In (fst (choice undefined_color palette r)) palette)
    by (rewrite Hc; now apply nth_In).
  split; [exact Hin |].
  rewrite Forall_forall in Hv. destruct (Hv _ Hin) as (V0 & V1 & V2).
  rewrite E. cbv zeta.
  set (base := fst (choice undefined_color palette r)) in *.
  assert (J : forall n, JS.neg 30 <= fst (range (JS.neg 30) 30 (advance n r)) < 30).
  { intros n. apply range_bounds; [now apply advance_nonneg | reflexivity]. }
  assert (N : JS.neg 30 == - (30)) by reflexivity.
  unfold near, valid_channel in *; cbn [ch0 ch1 ch2 fst snd].
  pose proof (J 1%nat) as J1. pose proof (J 2%nat) as J2. pose proof (J 3%nat) as J3.
  repeat split; apply constrain_near; try assumption;
    rewrite add_correct; lra.
Qed.

Lemma generateColor_near_palette_witness :
  exists palette base,
    (lookup colorPalettes "socket" = Some palette
     \/ (lookup colorPalettes "socket" = None
         /\ lookup colorPalettes "iris" = Some palette))
    /\ In base palette
    /\ near (fst (generateColor "socket" (mk 42))) base.
Proof.
  apply (generateColor_near_palette "socket" (mk 42)).
  - cbn. lia.
  - unfold inherited, In. intuition discriminate.
Defined.

(** X8: [getColorName] sorts every colour into one of eighteen names; the
    name is Ivory exactly when all three channels are above 200 and
    Obsidian exactly when all three are below 50 (the rules further down
    never give these two names). *)
Theorem getColorName_classifies (c : rgb) :
  In (getColorName c) colorNames
  /\ (getColorName c = "Ivory"
      <-> 200 < ch0 c /\ 200 < ch1 c /\ 200 < ch2 c)
  /\ (getColorName c = "Obsidian"
      <-> ch0 c < 50 /\ ch1 c < 50 /\ ch2 c < 50).
Proof.
  unfold getColorName. cbv zeta.
  set (r := ch0 c). set (g := ch1 c). set (b := ch2 c).
  split; [| split].
  - unfold colorNames.
    repeat match goal with
           | |- In (if ?x then _ else _) _ => destruct x
           end; cbn; tauto.
  - destruct (JS.gtb r 200 && JS.gtb g 200 && JS.gtb b 200) eqn:E.
    + apply andb_prop in E as [E E3]. apply andb_prop in E as [E1 E2].
      unfold JS.gtb in *. apply ltb_lt in E1, E2, E3. tauto.
    + split.
      * intros N. exfalso.
        repeat match type of N with
               | (if ?x then _ else _) = _ => destruct x
               end; discriminate N.
      * intros (H1 & H2 & H3). apply ltb_lt in H1, H2, H3.
        unfold JS.gtb in E. rewrite H1, H2, H3 in E. discriminate E.
  - destruct (JS.gtb r 200 && JS.gtb g 200 && JS.gtb b 200) eqn:E.
    + apply andb_prop in E as [E E3]. apply andb_prop in E as [E1 E2].
      unfold JS.gtb in *. apply ltb_lt in E1, E2, E3.
      split; [discriminate | intros (H1 & H2 & H3); lra].
    + destruct (JS.ltb r 50 && JS.ltb g 50 && JS.ltb b 50) eqn:F.
      * apply andb_prop in F as [F F3]. apply andb_prop in F as [F1 F2].
        apply ltb_lt in F1, F2, F3. tauto.
      * split.
        -- intros N. exfalso.
           repeat match type of N with
                  | (if ?x then _ else _) = _ => destruct x
                  end; discriminate N.
        -- intros (H1 & H2 & H3). apply ltb_lt in H1, H2, H3.
           rewrite H1, H2, H3 in F. discriminate F.
Qed.

End ColourFacts.

(** ** The attributes and traits of a constructed instance *)

Section AttributeFacts.

Import SeededRandom Eyeball.
Local Open Scope Q_scope.
Local Open Scope string_scope.

Lemma yields_ret {A} (a : A) (P : A -> Prop) : P a -> yields (ret a) P.
Proof. intros H r Hr. split; assumption. Qed.

Lemma yields_bind {A B} (m : Rand A) (k : A -> Rand B)
  (P : A -> Prop) (Q : B -> Prop) :
  yields m P -> (forall a, P a -> yields (k a) Q) -> yields (bind m k) Q.
Proof.
  intros Hm Hk r Hr. rewrite bind_eq.
  destruct (Hm r Hr) as [Ha Hr']. apply (Hk _ Ha _ Hr').
Qed.

Lemma next_nonneg (r : SeededRandom.t) :
  (0 <= SeededRandom.seed r)%Z -> (0 <= SeededRandom.seed (snd (next r)))%Z.
Proof. apply (advance_nonneg 1). Qed.

Lemma yields_range (min max : number) :
  min < max -> yields (range min max) (fun x => min <= x < max).
Proof.
  intros H r Hr. split; [now apply range_bounds |].
  unfold range. rewrite range_state. now apply next_nonneg.
Qed.

Lemma yields_choice {A} (undefined : A) (array : list A) :
  array <> [] -> yields (choice undefined array) (fun x => In x array).
Proof.
  intros H r Hr. split.
  - destruct (choice_index_in_range undefined array r Hr H) as (i & _ & Hi & ->).
    now apply nth_In.
  - rewrite choice_state. now apply next_nonneg.
Qed.

Lemma yields_boolean (p : number) : yields (boolean p) (fun _ => True).
Proof.
  intros r Hr. split; [exact I |].
  unfold boolean. rewrite boolean_state. now apply next_nonneg.
Qed.

Lemma yields_generateColor (type : string) :
  yields (generateColor type) valid_color.
Proof.
  intros r Hr. split; [apply generateColor_valid |].
  rewrite generateColor_state. now apply advance_nonneg.
Qed.

Lemma yields_generateMetadata (s : Spec) :
  yields (generateMetadata s) (fun _ => True).
Proof.
  intros r Hr. split; [exact I |].
  rewrite generateMetadata_eq. cbv zeta. cbn [snd].
  destruct (any_power s); [apply (advance_nonneg 2) | apply (advance_nonneg 1)];
    exact Hr.
Qed.

Ltac yield :=
  lazymatch goal with
  | |- yields (SeededRandom.choice _ _) _ => apply yields_choice; discriminate
  | |- yields (SeededRandom.range _ _) _ => apply yields_range; reflexivity
  | |- yields (SeededRandom.boolean _) _ => apply yields_boolean
  | |- yields (Eyeball.generateColor _) _ => apply yields_generateColor
  | |- yields (Eyeball.generateMetadata _) _ => apply yields_generateMetadata
  end.

Lemma yields_generateProperties :
  yields generateProperties (fun x => valid_spec (fst x)).
Proof.
  unfold generateProperties.
  repeat (eapply yields_bind; [yield | cbv beta; intros ? ?]).
  apply yields_ret. cbn [fst]. unfold valid_spec.
  cbn [socketShape socketSize socketColor scleraColor scleraTexture irisSize
       irisShape irisColor1 irisColor2 irisPattern pupilSize pupilShape
       pupilColor animationEnergy effectColor laserColor auraColor style
       intensity].
  repeat (split; [first [assumption | lra] |]).
  repeat (apply Forall_cons; [assumption |]). apply Forall_nil.
Qed.

Lemma spec_new (seed0 : Z) (w h : number) :
  spec (new seed0 w h) = fst (fst (generateProperties (mk seed0)))
  /\ metadata (new seed0 w h) = snd (fst (generateProperties (mk seed0)))
  /\ animationSpeed (new seed0 w h)
     = fst (range 0.01 0.05 (snd (generateProperties (mk seed0))))
  /\ seed (new seed0 w h) = seed0.
Proof.
  unfold new. destruct (generateProperties (mk seed0)) as [[s traits] r].
  cbn [fst snd]. destruct (range 0.01 0.05 r) as [speed r']. repeat split.
Qed.

Lemma new_valid (seed0 : Z) (w h : number) :
  (0 <= seed0)%Z -> valid_spec (spec (new seed0 w h)).
Proof.
  intros H. destruct (spec_new seed0 w h) as (-> & _).
  apply (yields_generateProperties (mk seed0)). exact H.
Qed.







Lemma metadata_new (seed0 : Z) (w h : number) :
  metadata (new seed0 w h)
  = fst (generateMetadata (spec (new seed0 w h)) (advance 48 (mk seed0))).
Proof. destruct (new_eq seed0 w h) as [s ->]. reflexivity. Qed.



End AttributeFacts.



(** ** The layers of a frame *)

Section FrameLayers.

Import Render CanvasHelper EyeballDraw.

Variables sin cos : number -> number.
Variable ctx : Canvas.canvas.

Lemma writes_bind {A B} (m : R A) (k : A -> R B) : writes m -> writes (bind m k).
Proof.
  intros H s E. rewrite written_bind in E.
  apply app_eq_nil in E as [E _]. exact (H s E).
Qed.

Lemma writes_emit (c : Canvas.call) : writes (emit c).
Proof. intros s. discriminate. Qed.

Lemma layered_in_layer (l : layer) (m : R unit) :
  writes m -> layered (in_layer l m) [l].
Proof.
  intros H s. exists [(l, written (m s))].
  rewrite written_in_layer. cbn [flat_map block fst snd List.map].
  rewrite app_nil_r. repeat split. constructor; [apply H | constructor].
Qed.

Lemma layered_when (c : bool) (m : M (layer * Canvas.call) unit) (ls : list layer) :
  layered m ls -> layered (when c m) (if c then ls else []).
Proof.
  intros H. destruct c; [exact H |].
  intros s. exists []. repeat split. constructor.
Qed.

Lemma layered_bind (m : M (layer * Canvas.call) unit)
  (k : unit -> M (layer * Canvas.call) unit) (l1 l2 : list layer) :
  layered m l1 -> (forall a, layered (k a) l2) -> layered (bind m k) (l1 ++ l2).
Proof.
  intros Hm Hk s. rewrite written_bind.
  destruct (Hm s) as (b1 & -> & <- & F1).
  destruct (Hk (result (m s)) (final (m s))) as (b2 & -> & <- & F2).
  exists (b1 ++ b2). rewrite flat_map_app, List.map_app.
  repeat split. apply Forall_app. now split.
Qed.

Lemma routines_write (this : Eyeball.t) :
  writes (background ctx 10 10 15)
  /\ writes (drawGlow this) /\ writes (drawAura sin cos this)
  /\ writes (drawSocket sin cos this) /\ writes (drawSclera sin cos this)
  /\ writes (drawIris sin cos this) /\ writes (drawPupil sin cos this)
  /\ writes (drawHighlights sin cos this) /\ writes (drawLaser sin cos this)
  /\ writes (drawParticles sin cos this) /\ writes (drawLightning sin cos this).
Proof.
  repeat apply conj; apply writes_bind; apply writes_emit.
Qed.

Lemma layers_layered (this : Eyeball.t) :
  layered (layers sin cos ctx this)
    (List.filter (layer_on (Eyeball.spec this)) all_layers).
Proof.
  destruct (routines_write this)
    as (W0 & W1 & W2 & W3 & W4 & W5 & W6 & W7 & W8 & W9 & W10).
  set (s := Eyeball.spec this).
  assert (E : List.filter (layer_on s) all_layers
              = [Background] ++ (if Eyeball.hasGlow s then [Glow] else [])
                ++ (if Eyeball.hasAura s then [Aura] else [])
                ++ [Socket] ++ [Sclera] ++ [Iris] ++ [Pupil] ++ [Highlights]
                ++ (if Eyeball.hasLaser s then [Laser] else [])
                ++ (if Eyeball.hasParticles s then [Particles] else [])
                ++ (if Eyeball.hasLightning s then [Lightning] else [])).
  { unfold all_layers. cbn [List.filter layer_on].
    destruct (Eyeball.hasGlow s), (Eyeball.hasAura s), (Eyeball.hasLaser s),
      (Eyeball.hasParticles s), (Eyeball.hasLightning s); reflexivity. }
  rewrite E. unfold layers. cbv zeta. fold s.
  apply layered_bind; [now apply layered_in_layer | intros _].
  apply layered_bind; [now apply layered_when, layered_in_layer | intros _].
  apply layered_bind; [now apply layered_when, layered_in_layer | intros _].
  apply layered_bind; [now apply layered_in_layer | intros _].
  apply layered_bind; [now apply layered_in_layer | intros _].
  apply layered_bind; [now apply layered_in_layer | intros _].
  apply layered_bind; [now apply layered_in_layer | intros _].
  apply layered_bind; [now apply layered_in_layer | intros _].
  apply layered_bind; [now apply layered_when, layered_in_layer | intros _].
  apply layered_bind; [now apply layered_when, layered_in_layer | intros _].
  now apply layered_when, layered_in_layer.
Qed.

Lemma in_flat_map_block (l : layer) (c : Canvas.call)
  (blocks : list (layer * list Canvas.call)) :
  In (l, c) (flat_map block blocks) <-> exists w, In (l, w) blocks /\ In c w.
Proof.
  rewrite in_flat_map. split.
  - intros ([l' w] & Hb & Hc). unfold block in Hc. cbn [fst snd] in Hc.
    apply in_map_iff in Hc as (c' & E & Hc). injection E as -> ->.
    now exists w.
  - intros (w & Hb & Hc). exists (l, w). split; [exact Hb |].
    unfold block. cbn [fst snd]. now apply in_map.
Qed.

Lemma frame_layers_on (this : Eyeball.t) (l : layer) :
  (exists c, In (l, c) (snd (draw sin cos ctx this)))
  <-> layer_on (Eyeball.spec this) l = true.
Proof.
  rewrite draw_eq. cbn [snd].
  destruct (layers_layered (advanced this) (fresh_helper this))
    as (blocks & E & Hl & Hn).
  assert (Hs : Eyeball.spec (advanced this) = Eyeball.spec this) by reflexivity.
  rewrite Hs in Hl. rewrite E. split.
  - intros (c & Hc). apply in_flat_map_block in Hc as (w & Hb & _).
    assert (Hin : In l (List.map fst blocks))
      by (apply in_map_iff; now exists (l, w)).
    rewrite Hl in Hin. apply filter_In in Hin. tauto.
  - intros Hon.
    assert (Hin : In l (List.map fst blocks)).
    { rewrite Hl. apply filter_In. split; [| exact Hon].
      unfold all_layers. destruct l; cbn; tauto. }
    apply in_map_iff in Hin as ([l' w] & El & Hb). cbn [fst] in El. subst l'.
    rewrite Forall_forall in Hn. specialize (Hn _ Hb). cbn [snd] in Hn.
    destruct w as [|c w]; [congruence |].
    exists c. apply in_flat_map_block. exists (c :: w). split; [exact Hb | now left].
Qed.

(** X12: a frame is one block of calls for each layer that is on, in the
    order Background, Glow, Aura, Socket, Sclera, Iris, Pupil, Highlights,
    Laser, Particles, Lightning, and no block is empty.  The five effect
    layers are on when their flag is set, the other six always; so a layer
    has calls in the frame exactly when it is on. *)
Theorem frame_is_layered (this : Eyeball.t) :
  let frame := snd (draw sin cos ctx this) in
  (exists blocks : list (layer * list Canvas.call),
      frame = flat_map block blocks
      /\ List.map fst blocks
         = List.filter (layer_on (Eyeball.spec this)) all_layers
      /\ Forall (fun b => snd b <> []) blocks)
  /\ (forall l : layer,
        (exists c, In (l, c) frame) <-> layer_on (Eyeball.spec this) l = true).
Proof.
  cbv zeta. split; [| apply frame_layers_on].
  rewrite draw_eq. cbn [snd].
  destruct (layers_layered (advanced this) (fresh_helper this))
    as (blocks & E & Hl & Hn).
  exists blocks. repeat split; assumption.
Qed.

(** X13: a frame starts by painting the whole canvas: its first two calls
    set the fill style to rgb(10, 10, 15) and fill the rectangle from
    (0, 0) with the width and height of the canvas; no later call of the
    frame belongs to the background. *)
Theorem frame_clears_canvas_first (this : Eyeball.t) :
  exists rest,
    snd (draw sin cos ctx this)
    = (Background, Canvas.fillStyle (Canvas.style_rgb 10 10 15))
      :: (Background,
          Canvas.fillRect 0 0 (Canvas.width ctx) (Canvas.height ctx))
      :: rest
    /\ Forall (fun c => fst c <> Background) rest.
Proof.
  rewrite draw_eq. cbn [snd]. unfold layers. cbv zeta.
  rewrite written_bind. eexists. split; [reflexivity |].
  set (this' := advanced this).
  destruct (routines_write this')
    as (W0 & W1 & W2 & W3 & W4 & W5 & W6 & W7 & W8 & W9 & W10).
  match goal with
  | |- Forall _ (written (?k ?a ?s)) =>
      assert (L : layered (k a)
                    ((if Eyeball.hasGlow (Eyeball.spec this') then [Glow] else [])
                     ++ (if Eyeball.hasAura (Eyeball.spec this') then [Aura] else [])
                     ++ [Socket] ++ [Sclera] ++ [Iris] ++ [Pupil] ++ [Highlights]
                     ++ (if Eyeball.hasLaser (Eyeball.spec this') then [Laser] else [])
                     ++ (if Eyeball.hasParticles (Eyeball.spec this') then [Particles] else [])
                     ++ (if Eyeball.hasLightning (Eyeball.spec this') then [Lightning] else [])));
      [| destruct (L s) as (blocks & -> & Hl & _)]
  end.
  { cbv beta.
    apply layered_bind; [now apply layered_when, layered_in_layer | intros _].
    apply layered_bind; [now apply layered_when, layered_in_layer | intros _].
    apply layered_bind; [now apply layered_in_layer | intros _].
    apply layered_bind; [now apply layered_in_layer | intros _].
    apply layered_bind; [now apply layered_in_layer | intros _].
    apply layered_bind; [now apply layered_in_layer | intros _].
    apply layered_bind; [now apply layered_in_layer | intros _].
    apply layered_bind; [now apply layered_when, layered_in_layer | intros _].
    apply layered_bind; [now apply layered_when, layered_in_layer | intros _].
    now apply layered_when, layered_in_layer. }
  apply Forall_forall. intros [l c] Hc E. cbn [fst] in E. subst l.
  apply in_flat_map_block in Hc as (w & Hb & _).
  assert (Hin : In Background (List.map fst blocks))
    by (apply in_map_iff; now exists (Background, w)).
  rewrite Hl in Hin.
  destruct (Eyeball.hasGlow _), (Eyeball.hasAura _), (Eyeball.hasLaser _),
    (Eyeball.hasParticles _), (Eyeball.hasLightning _);
    cbn in Hin; intuition discriminate.
Qed.

End FrameLayers.



(** ** What a frame does not show *)

Section FrameLook.

Import Render CanvasHelper EyeballDraw.
Local Open Scope string_scope.

Variables sin cos : number -> number.
Variable ctx : Canvas.canvas.

Lemma draw_layers (a b : Eyeball.t) :
  Eyeball.rng a = Eyeball.rng b ->
  layers sin cos ctx (advanced a) = layers sin cos ctx (advanced b) ->
  snd (draw sin cos ctx a) = snd (draw sin cos ctx b)
  /\ Eyeball.rng (fst (draw sin cos ctx a)) = Eyeball.rng (fst (draw sin cos ctx b)).
Proof.
  intros Hr Hl. rewrite !draw_eq. cbn [fst snd]. unfold fresh_helper.
  rewrite Hr, Hl. split; reflexivity.
Qed.

(** X14: the style and the intensity of an instance are never drawn.  Two
    instances that differ in [style] and [intensity] only get the same
    calls in a frame and leave the random stream in the same state: the
    Essence Type trait describes nothing a frame shows. *)
Theorem frame_ignores_essence
  (this : Eyeball.t) (style' : string) (intensity' : number) :
  let that :=
    with_spec this (set_essence (Eyeball.spec this) style' intensity') in
  snd (draw sin cos ctx that) = snd (draw sin cos ctx this)
  /\ Eyeball.rng (fst (draw sin cos ctx that))
     = Eyeball.rng (fst (draw sin cos ctx this)).
Proof.
  cbv zeta. apply draw_layers; [reflexivity |].
  destruct this as [w h cx cy seed0 r s md t speed]. destruct s.
  reflexivity.
Qed.

Lemma plain_texture_spec (texture : string) :
  plain_texture texture = true ->
  (texture =? "veined") = false /\ (texture =? "metallic") = false.
Proof.
  unfold plain_texture. intros H. apply andb_prop in H as [H1 H2].
  apply negb_true_iff in H1, H2. now split.
Qed.

(** X15: the sclera textures other than ['veined'] and ['metallic'] are
    drawn alike.  [drawSclera] has a branch for these two only, so
    ['smooth'], ['cloudy'] and ['crystalline'] give the same calls in a
    frame and the same state of the stream. *)
Theorem frame_ignores_plain_texture (this : Eyeball.t) (texture : string) :
  plain_texture (Eyeball.scleraTexture (Eyeball.spec this)) = true ->
  plain_texture texture = true ->
  let that :=
    with_spec this (set_scleraTexture (Eyeball.spec this) texture) in
  snd (draw sin cos ctx that) = snd (draw sin cos ctx this)
  /\ Eyeball.rng (fst (draw sin cos ctx that))
     = Eyeball.rng (fst (draw sin cos ctx this)).
Proof.
  intros Ha Hb. cbv zeta. apply draw_layers; [reflexivity |].
  apply plain_texture_spec in Ha as [A1 A2], Hb as [B1 B2].
  destruct this as [w h cx cy seed0 r s md t speed]. destruct s.
  cbn [Eyeball.spec Eyeball.scleraTexture] in A1, A2.
  unfold layers. cbv zeta.
  match goal with
  | |- context [drawSclera sin cos ?a] =>
      match goal with
      | |- _ = ?rhs =>
          match rhs with
          | context [drawSclera sin cos ?b] =>
              assert (E : drawSclera sin cos a = drawSclera sin cos b)
          end
      end
  end.
  { unfold drawSclera, with_spec, set_scleraTexture, advanced, Eyeball.with_time.
    cbn [Eyeball.spec Eyeball.scleraTexture Eyeball.socketSize
         Eyeball.scleraColor Eyeball.socketShape Eyeball.centerX
         Eyeball.centerY].
    rewrite A1, A2, B1, B2. reflexivity. }
  rewrite E. reflexivity.
Qed.

Lemma plain_shape_spec (shape : string) :
  plain_shape shape = true ->
  (shape =? "oval") = false /\ (shape =? "diamond") = false
  /\ (shape =? "star") = false /\ (shape =? "hexagon") = false
  /\ (shape =? "almond") = false.
Proof.
  unfold plain_shape. intros H.
  apply andb_prop in H as [H H5]. apply andb_prop in H as [H H4].
  apply andb_prop in H as [H H3]. apply andb_prop in H as [H1 H2].
  apply negb_true_iff in H1, H2, H3, H4, H5. repeat split; assumption.
Qed.

(** A shape without a case of its own is drawn as a circle. *)
Lemma drawShape_plain (shape : string) :
  plain_shape shape = true ->
  forall size, drawShape sin cos shape size = ellipse 0 0 size size.
Proof.
  intros H size. apply plain_shape_spec in H as (H1 & H2 & H3 & H4 & H5).
  unfold drawShape. rewrite H1, H2, H3, H4, H5.
  now destruct (shape =? "circle").
Qed.

(** X16: an iris of shape ['octagon'] or ['spiral'] is drawn as a circle.
    [drawShape] has no case for these two values of [irisShape] and falls
    to its default, the circle: replacing one shape without a case of its
    own (or ['circle']) by another leaves the calls of a frame and the
    stream as they were. *)
Theorem frame_draws_plain_iris_as_circle (this : Eyeball.t) (shape : string) :
  plain_shape (Eyeball.irisShape (Eyeball.spec this)) = true ->
  plain_shape shape = true ->
  let that := with_spec this (set_irisShape (Eyeball.spec this) shape) in
  snd (draw sin cos ctx that) = snd (draw sin cos ctx this)
  /\ Eyeball.rng (fst (draw sin cos ctx that))
     = Eyeball.rng (fst (draw sin cos ctx this)).
Proof.
  intros Ha Hb. cbv zeta. apply draw_layers; [reflexivity |].
  apply plain_shape_spec in Ha as (A1 & A2 & A3 & A4 & A5).
  apply plain_shape_spec in Hb as (B1 & B2 & B3 & B4 & B5).
  destruct this as [w h cx cy seed0 r s md t speed]. destruct s.
  cbn [Eyeball.spec Eyeball.irisShape] in A1, A2, A3, A4, A5.
  unfold layers. cbv zeta.
  match goal with
  | |- context [drawIris sin cos ?a] =>
      match goal with
      | |- _ = ?rhs =>
          match rhs with
          | context [drawIris sin cos ?b] =>
              assert (E : drawIris sin cos a = drawIris sin cos b)
          end
      end
  end.
  { unfold drawIris, drawShape, with_spec, set_irisShape, advanced,
      Eyeball.with_time.
    cbn [Eyeball.spec Eyeball.irisShape].
    rewrite A1, A2, A3, A4, A5, B1, B2, B3, B4, B5.
    destruct (shape =? "circle"), (irisShape =? "circle"); reflexivity. }
  rewrite E. reflexivity.
Qed.

End FrameLook.

Lemma frame_ignores_plain_texture_witness :
  let sin := fun _ : number => 0%Q in
  let cos := fun _ : number => 1%Q in
  let ctx := Canvas.mkCanvas 300 300 in
  let this := Eyeball.new 3 300 300 in
  Eyeball.scleraTexture (Eyeball.spec this) = "smooth"%string
  /\ snd (EyeballDraw.draw sin cos ctx
            (with_spec this
               (set_scleraTexture (Eyeball.spec this) "cloudy")))
     = snd (EyeballDraw.draw sin cos ctx this).
Proof.
  intros sin cos ctx this. split; [vm_compute; reflexivity |].
  apply (frame_ignores_plain_texture sin cos ctx this "cloudy");
    vm_compute; reflexivity.
Defined.

Lemma frame_draws_plain_iris_as_circle_witness :
  let sin := fun _ : number => 0%Q in
  let cos := fun _ : number => 1%Q in
  let ctx := Canvas.mkCanvas 300 300 in
  let this := Eyeball.new 123456 300 300 in
  Eyeball.irisShape (Eyeball.spec this) = "spiral"%string
  /\ Eyeball.irisPattern (Eyeball.spec this) = "solid"%string
  /\ snd (EyeballDraw.draw sin cos ctx
            (with_spec this (set_irisShape (Eyeball.spec this) "circle")))
     = snd (EyeballDraw.draw sin cos ctx this).
Proof.
  intros sin cos ctx this.
  split; [vm_compute; reflexivity |]. split; [vm_compute; reflexivity |].
  apply (frame_draws_plain_iris_as_circle sin cos ctx this "circle");
    vm_compute; reflexivity.
Defined.



(** ** The flag of the helper and the paths of the laser *)

Section FlagFacts.

Import Render CanvasHelper.
Local Open Scope Q_scope.

Lemma clears_keeps {W A} (m : M W A) : clears_flag m -> keeps_flag m.
Proof. intros H s _. apply H. Qed.

Lemma keeps_ret {W A} (a : A) : keeps_flag (@ret W A a).
Proof. intros s H. exact H. Qed.

Lemma keeps_emit {W} (c : W) : keeps_flag (emit c).
Proof. intros s H. exact H. Qed.

Lemma keeps_random {W A} (m : SeededRandom.Rand A) : keeps_flag (@random W A m).
Proof.
  intros s H. unfold random, final. now destruct (m (rng s)).
Qed.

Lemma keeps_bind {W A B} (m : M W A) (k : A -> M W B) :
  keeps_flag m -> (forall a, keeps_flag (k a)) -> keeps_flag (bind m k).
Proof. intros Hm Hk s H. rewrite final_bind. apply Hk, Hm, H. Qed.

Lemma clears_bind_l {W A B} (m : M W A) (k : A -> M W B) :
  clears_flag m -> (forall a, keeps_flag (k a)) -> clears_flag (bind m k).
Proof. intros Hm Hk s. rewrite final_bind. apply Hk, Hm. Qed.

Lemma clears_bind_r {W A B} (m : M W A) (k : A -> M W B) :
  (forall a, clears_flag (k a)) -> clears_flag (bind m k).
Proof. intros Hk s. rewrite final_bind. apply Hk. Qed.

Lemma keeps_when {W} (c : bool) (m : M W unit) :
  keeps_flag m -> keeps_flag (when c m).
Proof. intros H. destruct c; [exact H | apply keeps_ret]. Qed.

Lemma keeps_forEach {W A} (array : list A) (body : A -> M W unit) :
  (forall x, keeps_flag (body x)) -> keeps_flag (forEach array body).
Proof.
  intros H. induction array as [|x rest IH]; cbn [forEach].
  - apply keeps_ret.
  - apply keeps_bind; [apply H | intros _; exact IH].
Qed.

Lemma keeps_for_up {W} (n : nat) (body : Z -> M W unit) :
  (forall i, keeps_flag (body i)) -> keeps_flag (for_up n body).
Proof. intros H. now apply keeps_forEach. Qed.

Lemma keeps_for_down {W} (n : nat) (body : Z -> M W unit) :
  (forall i, keeps_flag (body i)) -> keeps_flag (for_down n body).
Proof. intros H. now apply keeps_forEach. Qed.

Lemma keeps_for_lt_fuel {W} (fuel : nat) (x bound inc : number)
  (body : number -> M W unit) :
  (forall y, keeps_flag (body y)) ->
  keeps_flag (for_lt_fuel fuel x bound inc body).
Proof.
  intros H. revert x. induction fuel as [|fuel IH]; intros x; cbn [for_lt_fuel].
  - apply keeps_ret.
  - destruct (JS.ltb x bound); [| apply keeps_ret].
    apply keeps_bind; [apply H | intros _; apply IH].
Qed.

Lemma keeps_for_lt {W} (start bound inc : number) (body : number -> M W unit) :
  (forall y, keeps_flag (body y)) -> keeps_flag (for_lt start bound inc body).
Proof. intros H. now apply keeps_for_lt_fuel. Qed.

(** A loop that makes a round clears the flag when its body does. *)
Lemma clears_for_lt {W} (start bound inc : number) (body : number -> M W unit) :
  0 < inc -> JS.ltb start bound = true ->
  (forall y, clears_flag (body y)) ->
  clears_flag (for_lt start bound inc body).
Proof.
  intros Hinc Hlt H. unfold for_lt.
  rewrite (rounds_step start bound inc Hinc Hlt). cbn [for_lt_fuel].
  rewrite Hlt.
  apply clears_bind_l; [apply H | intros _].
  apply keeps_for_lt_fuel. intros y. apply clears_keeps, H.
Qed.

Lemma vertex_clears (x y : number) : clears_flag (vertex x y).
Proof.
  intros [fv r]. destruct fv; reflexivity.
Qed.

End FlagFacts.

Create HintDb flag discriminated.
#[export] Hint Constants Opaque : flag.

Ltac flag_step :=
  lazymatch goal with
  | |- keeps_flag (Render.ret _) => apply keeps_ret
  | |- keeps_flag (Render.emit _) => apply keeps_emit
  | |- keeps_flag (Render.random _) => apply keeps_random
  | |- keeps_flag (Render.bind _ _) => apply keeps_bind; [| intro]
  | |- keeps_flag (Render.when _ _) => apply keeps_when
  | |- keeps_flag (Render.forEach _ _) => apply keeps_forEach; intro
  | |- keeps_flag (Render.for_lt _ _ _ _) => apply keeps_for_lt; intro
  | |- keeps_flag (Render.for_up _ _) => apply keeps_for_up; intro
  | |- keeps_flag (Render.for_down _ _) => apply keeps_for_down; intro
  | |- keeps_flag (if ?c then _ else _) => destruct c
  | |- keeps_flag _ => solve [eauto 2 with flag nocore]
  end.

Ltac flags := cbv zeta; repeat (flag_step; cbv beta zeta).

Section HelperFlag.

Import Render CanvasHelper.

Lemma push_keeps : keeps_flag push.
Proof. unfold push. flags. Qed.

Lemma pop_keeps : keeps_flag pop.
Proof. unfold pop. flags. Qed.

Lemma translate_keeps (x y : number) : keeps_flag (translate x y).
Proof. unfold translate. flags. Qed.

Lemma rotate_keeps (angle : number) : keeps_flag (rotate angle).
Proof. unfold rotate. flags. Qed.

Lemma background_keeps (cv : Canvas.canvas) (r g b : number) :
  keeps_flag (background cv r g b).
Proof. unfold background. flags. Qed.

Lemma fill4_keeps (r g b a : number) : keeps_flag (fill4 r g b a).
Proof. unfold fill4. flags. Qed.

Lemma fill_keeps (r g b : number) : keeps_flag (fill r g b).
Proof. apply fill4_keeps. Qed.

Lemma stroke4_keeps (r g b a : number) : keeps_flag (stroke4 r g b a).
Proof. unfold stroke4. flags. Qed.

Lemma stroke_keeps (r g b : number) : keeps_flag (stroke r g b).
Proof. apply stroke4_keeps. Qed.

Lemma strokeWeight_keeps (weight : number) : keeps_flag (strokeWeight weight).
Proof. unfold strokeWeight. flags. Qed.

Lemma noStroke_keeps : keeps_flag noStroke.
Proof. unfold noStroke. flags. Qed.

Lemma noFill_keeps : keeps_flag noFill.
Proof. unfold noFill. flags. Qed.

Lemma ellipse_keeps (x y w h : number) : keeps_flag (ellipse x y w h).
Proof. unfold ellipse. flags. Qed.

Lemma line_keeps (x1 y1 x2 y2 : number) : keeps_flag (line x1 y1 x2 y2).
Proof. unfold line. flags. Qed.

Lemma rect_keeps (x y w h : number) : keeps_flag (rect x y w h).
Proof. unfold rect. flags. Qed.

Lemma rectMode_keeps : keeps_flag rectMode.
Proof. unfold rectMode. flags. Qed.

Lemma beginShape_keeps : keeps_flag beginShape.
Proof. unfold beginShape. flags. Qed.

Lemma endShape_keeps (close : bool) : keeps_flag (endShape close).
Proof. unfold endShape. flags. Qed.

Lemma vertex_keeps (x y : number) : keeps_flag (vertex x y).
Proof. apply clears_keeps, vertex_clears. Qed.

Lemma triangle_keeps (x1 y1 x2 y2 x3 y3 : number) :
  keeps_flag (triangle x1 y1 x2 y2 x3 y3).
Proof. unfold triangle. flags. Qed.

End HelperFlag.

#[export] Hint Resolve push_keeps pop_keeps translate_keeps rotate_keeps
  background_keeps fill4_keeps fill_keeps stroke4_keeps stroke_keeps
  strokeWeight_keeps noStroke_keeps noFill_keeps ellipse_keeps line_keeps
  rect_keeps rectMode_keeps beginShape_keeps endShape_keeps vertex_keeps
  triangle_keeps : flag.

Section RoutineFlag.

Import Render CanvasHelper EyeballDraw.
Local Open Scope Q_scope.

Variables sin cos : number -> number.
Variable this : Eyeball.t.

(** The star and the hexagon of [drawShape] have six points: their loops
    make a round, and so does the loop of the spiral. *)
Lemma drawStar_six_keeps (x y radius1 radius2 : number) :
  keeps_flag (drawStar sin cos x y radius1 radius2 6).
Proof.
  unfold drawStar. cbv zeta. apply clears_keeps.
  apply clears_bind_r; intros _. apply clears_bind_r; intros _.
  apply clears_bind_l; [| intros _; apply endShape_keeps].
  apply clears_for_lt; [reflexivity | reflexivity | intros a].
  apply clears_bind_r; intros _. apply vertex_clears.
Qed.

Lemma drawPolygon_six_keeps (x y radius : number) :
  keeps_flag (drawPolygon sin cos x y radius 6).
Proof.
  unfold drawPolygon. cbv zeta. apply clears_keeps.
  apply clears_bind_r; intros _. apply clears_bind_r; intros _.
  apply clears_bind_l; [| intros _; apply endShape_keeps].
  apply clears_for_lt; [reflexivity | reflexivity | intros a].
  apply vertex_clears.
Qed.

Hint Resolve drawStar_six_keeps drawPolygon_six_keeps : flag.

Lemma drawShape_keeps (shape : string) (size : number) :
  keeps_flag (drawShape sin cos shape size).
Proof. unfold drawShape. flags. Qed.

Hint Resolve drawShape_keeps : flag.

Lemma drawSocket_keeps : keeps_flag (drawSocket sin cos this).
Proof. unfold drawSocket. flags. Qed.

Lemma drawVeins_keeps : keeps_flag drawVeins.
Proof. unfold drawVeins. flags. Qed.

Hint Resolve drawVeins_keeps : flag.

Lemma drawSclera_keeps : keeps_flag (drawSclera sin cos this).
Proof. unfold drawSclera. flags. Qed.

Lemma drawRadialPattern_keeps : keeps_flag (drawRadialPattern this).
Proof. unfold drawRadialPattern. flags. Qed.

Lemma spiral_turn_clears (body : number -> R unit) :
  (forall angle, clears_flag (body angle)) ->
  clears_flag (for_lt 0 (JS.mul TWO_PI 3) 0.1 body).
Proof. intros H. apply clears_for_lt; [reflexivity | reflexivity | exact H]. Qed.

Lemma drawSpiralPattern_keeps : keeps_flag (drawSpiralPattern sin cos this).
Proof.
  unfold drawSpiralPattern. cbv zeta.
  apply keeps_bind; [apply noFill_keeps | intros _].
  apply keeps_bind; [apply strokeWeight_keeps | intros _].
  apply keeps_bind; [| intros _; apply noStroke_keeps].
  apply keeps_for_up. intros i. apply clears_keeps.
  apply clears_bind_r; intros _. apply clears_bind_r; intros _.
  apply clears_bind_r; intros _. apply clears_bind_r; intros _.
  apply clears_bind_l; [| intros _; apply endShape_keeps].
  apply spiral_turn_clears. intros angle. apply vertex_clears.
Qed.

Lemma drawGeometricPattern_keeps : keeps_flag (drawGeometricPattern sin cos this).
Proof. unfold drawGeometricPattern. flags. Qed.

Lemma drawFractalLayer_keeps (fuel : nat) :
  forall (size x y : number) (depth : Z) (m : R unit),
    drawFractalLayer this fuel size x y depth = Some m -> keeps_flag m.
Proof.
  induction fuel as [|fuel IH]; intros size x y depth m E;
    cbn [drawFractalLayer] in E; [discriminate |].
  destruct ((depth <=? 0)%Z || JS.ltb size 5).
  - injection E as <-. apply keeps_ret.
  - cbv zeta in E.
    destruct (drawFractalLayer this fuel _ (JS.sub x _) y _) as [m1|] eqn:E1;
      [| discriminate].
    destruct (drawFractalLayer this fuel _ (JS.add x _) y _) as [m2|] eqn:E2;
      [| discriminate].
    destruct (drawFractalLayer this fuel _ x (JS.sub y _) _) as [m3|] eqn:E3;
      [| discriminate].
    destruct (drawFractalLayer this fuel _ x (JS.add y _) _) as [m4|] eqn:E4;
      [| discriminate].
    injection E as <-.
    pose proof (IH _ _ _ _ _ E1). pose proof (IH _ _ _ _ _ E2).
    pose proof (IH _ _ _ _ _ E3). pose proof (IH _ _ _ _ _ E4).
    unfold fractal_node. flags; assumption.
Qed.

Lemma drawFractalPattern_keeps : keeps_flag (drawFractalPattern this).
Proof.
  unfold drawFractalPattern.
  destruct (drawFractalLayer this 5 _ 0 0 4) as [m|] eqn:E.
  - apply (drawFractalLayer_keeps _ _ _ _ _ _ E).
  - apply keeps_ret.
Qed.

Lemma drawCrystallinePattern_keeps :
  keeps_flag (drawCrystallinePattern sin cos this).
Proof. unfold drawCrystallinePattern. flags. Qed.

Lemma drawVoidPattern_keeps : keeps_flag (drawVoidPattern this).
Proof. unfold drawVoidPattern. flags. Qed.

Hint Resolve drawRadialPattern_keeps drawSpiralPattern_keeps
  drawGeometricPattern_keeps drawFractalPattern_keeps
  drawCrystallinePattern_keeps drawVoidPattern_keeps : flag.

Lemma drawIris_keeps : keeps_flag (drawIris sin cos this).
Proof. unfold drawIris. flags. Qed.

Lemma drawPupil_keeps : keeps_flag (drawPupil sin cos this).
Proof. unfold drawPupil. flags. Qed.

Lemma drawGlow_keeps : keeps_flag (drawGlow this).
Proof. unfold drawGlow. flags. Qed.

Lemma drawAura_keeps : keeps_flag (drawAura sin cos this).
Proof. unfold drawAura. flags. Qed.

Lemma drawHighlights_keeps : keeps_flag (drawHighlights sin cos this).
Proof. unfold drawHighlights. flags. Qed.

End RoutineFlag.

Section LaserPaths.

Import Render CanvasHelper EyeballDraw.

Lemma lineTo_ret {A} (a : A) : lineTo_only (ret a).
Proof. intros s H. split; [exact H | constructor]. Qed.

Lemma lineTo_emit (c : Canvas.call) :
  is_moveTo c = false -> lineTo_only (emit c).
Proof. intros Hc s H. split; [exact H | now repeat constructor]. Qed.

Lemma lineTo_bind {A B} (m : R A) (k : A -> R B) :
  lineTo_only m -> (forall a, lineTo_only (k a)) -> lineTo_only (bind m k).
Proof.
  intros Hm Hk s H. rewrite final_bind, written_bind.
  destruct (Hm s H) as [H1 F1].
  destruct (Hk (result (m s)) (final (m s)) H1) as [H2 F2].
  split; [exact H2 | apply Forall_app; now split].
Qed.

Lemma lineTo_when (c : bool) (m : R unit) :
  lineTo_only m -> lineTo_only (when c m).
Proof. intros H. destruct c; [exact H | apply lineTo_ret]. Qed.

Lemma lineTo_forEach {A} (array : list A) (body : A -> R unit) :
  (forall x, lineTo_only (body x)) -> lineTo_only (forEach array body).
Proof.
  intros H. induction array as [|x rest IH]; cbn [forEach].
  - apply lineTo_ret.
  - apply lineTo_bind; [apply H | intros _; exact IH].
Qed.

Lemma lineTo_for_up (n : nat) (body : Z -> R unit) :
  (forall i, lineTo_only (body i)) -> lineTo_only (for_up n body).
Proof. intros H. now apply lineTo_forEach. Qed.

(** [vertex], from a helper whose flag is false, calls [lineTo]. *)
Lemma vertex_lineTo (x y : number) : lineTo_only (vertex x y).
Proof.
  intros [fv r] H. cbn [firstVertex] in H. subst fv.
  split; [reflexivity | now repeat constructor].
Qed.

End LaserPaths.

Ltac lineTo_step :=
  lazymatch goal with
  | |- lineTo_only (Render.ret _) => apply lineTo_ret
  | |- lineTo_only (Render.emit _) => apply lineTo_emit; reflexivity
  | |- lineTo_only (Render.bind _ _) => apply lineTo_bind; [| intro]
  | |- lineTo_only (Render.when _ _) => apply lineTo_when
  | |- lineTo_only (Render.forEach _ _) => apply lineTo_forEach; intro
  | |- lineTo_only (Render.for_up _ _) => apply lineTo_for_up; intro
  | |- lineTo_only (CanvasHelper.vertex _ _) => apply vertex_lineTo
  | |- lineTo_only (if ?c then _ else _) => destruct c
  end.

Ltac lineTos := cbv zeta; repeat (lineTo_step; cbv beta zeta).

Section LaserFrame.

Import Render CanvasHelper EyeballDraw.

Variables sin cos : number -> number.
Variable ctx : Canvas.canvas.

Lemma drawLaser_lineTo_only (this : Eyeball.t) :
  lineTo_only (drawLaser sin cos this).
Proof.
  unfold drawLaser, push, pop, translate, stroke4, strokeWeight, beginShape,
    noFill, endShape, fill4, ellipse, noStroke.
  lineTos.
Qed.

Lemma laser_in_layer (m : R unit) :
  lineTo_only m -> laser_lineTo_only (in_layer Laser m).
Proof.
  intros Hm s H. rewrite final_in_layer, written_in_layer.
  destruct (Hm s H) as [H1 F]. split; [exact H1 |].
  apply Forall_forall. intros [l c] Hc _. cbn [snd].
  apply in_map_iff in Hc as (c' & E & Hc). injection E as _ ->.
  rewrite Forall_forall in F. now apply F.
Qed.

Lemma other_in_layer (l : layer) (m : R unit) :
  l <> Laser -> keeps_flag m -> laser_lineTo_only (in_layer l m).
Proof.
  intros Hl Hm s H. rewrite final_in_layer, written_in_layer.
  split; [now apply Hm |].
  apply Forall_forall. intros [l' c] Hc E. cbn [fst] in E. subst l'.
  apply in_map_iff in Hc as (c' & E & _). injection E as E _. congruence.
Qed.

Lemma laser_when (c : bool) (m : M (layer * Canvas.call) unit) :
  laser_lineTo_only m -> laser_lineTo_only (when c m).
Proof.
  intros H. destruct c; [exact H |].
  intros s Hs. split; [exact Hs | constructor].
Qed.

Lemma laser_bind {A B} (m : M (layer * Canvas.call) A)
  (k : A -> M (layer * Canvas.call) B) :
  laser_lineTo_only m -> (forall a, laser_lineTo_only (k a)) ->
  laser_lineTo_only (bind m k).
Proof.
  intros Hm Hk s H. rewrite final_bind, written_bind.
  destruct (Hm s H) as [H1 F1].
  destruct (Hk (result (m s)) (final (m s)) H1) as [H2 F2].
  split; [exact H2 | apply Forall_app; now split].
Qed.

Lemma drawParticles_keeps (this : Eyeball.t) :
  keeps_flag (drawParticles sin cos this).
Proof. unfold drawParticles. flags. Qed.

Lemma boltStroke_keeps (startAngle startRadius endRadius r g b weight : number) :
  keeps_flag (boltStroke sin cos startAngle startRadius endRadius r g b weight).
Proof.
  unfold boltStroke. cbv zeta. apply clears_keeps.
  do 5 (apply clears_bind_r; intros _).
  apply clears_bind_l; [apply vertex_clears | intros _].
  flags.
Qed.

Hint Resolve boltStroke_keeps : flag.

Lemma drawLightning_keeps (this : Eyeball.t) :
  keeps_flag (drawLightning sin cos this).
Proof.
  unfold drawLightning. flags.
Qed.

Lemma layers_laser (this : Eyeball.t) :
  laser_lineTo_only (layers sin cos ctx this).
Proof.
  unfold layers. cbv zeta.
  apply laser_bind;
    [apply other_in_layer; [discriminate | apply background_keeps] | intros _].
  apply laser_bind;
    [apply laser_when, other_in_layer; [discriminate | apply drawGlow_keeps]
    | intros _].
  apply laser_bind;
    [apply laser_when, other_in_layer; [discriminate | apply drawAura_keeps]
    | intros _].
  apply laser_bind;
    [apply other_in_layer; [discriminate | apply drawSocket_keeps] | intros _].
  apply laser_bind;
    [apply other_in_layer; [discriminate | apply drawSclera_keeps] | intros _].
  apply laser_bind;
    [apply other_in_layer; [discriminate | apply drawIris_keeps] | intros _].
  apply laser_bind;
    [apply other_in_layer; [discriminate | apply drawPupil_keeps] | intros _].
  apply laser_bind;
    [apply other_in_layer; [discriminate | apply drawHighlights_keeps]
    | intros _].
  apply laser_bind;
    [apply laser_when, laser_in_layer, drawLaser_lineTo_only | intros _].
  apply laser_bind;
    [apply laser_when, other_in_layer; [discriminate | apply drawParticles_keeps]
    | intros _].
  apply laser_when, other_in_layer; [discriminate | apply drawLightning_keeps].
Qed.

(** X17: the beams of the laser are drawn without [moveTo].  [drawLaser]
    calls [beginShape] and [vertex] without setting [firstVertex], and in
    a frame the flag is false when it runs: the helper starts with the
    flag unset, and every routine before it that sets the flag (star,
    hexagon, spiral) calls [vertex] at least once, which clears it.  So
    no call of the laser layer is a [moveTo], each path of a beam is made
    of [lineTo] only, and the flag is false when the frame ends. *)
Theorem laser_beams_start_without_moveTo (this : Eyeball.t) :
  Forall (fun c => fst c = Laser -> is_moveTo (snd c) = false)
         (snd (draw sin cos ctx this))
  /\ (forall s : state,
        firstVertex s = false ->
        Forall (fun c => is_moveTo c = false)
               (written (drawLaser sin cos this s)))
  /\ firstVertex
       (final (layers sin cos ctx (advanced this) (fresh_helper this)))
     = false.
Proof.
  assert (H : firstVertex (fresh_helper this) = false) by reflexivity.
  destruct (layers_laser (advanced this) (fresh_helper this) H) as [H1 H2].
  split; [| split].
  - rewrite draw_eq. exact H2.
  - intros s Hs. apply (drawLaser_lineTo_only this s Hs).
  - exact H1.
Qed.

End LaserFrame.




(** ** The page *)

Section GalleryFacts.

Import Gallery.
Local Open Scope string_scope.

Variable env : environment.

Lemma draw_made (sin cos : number -> number) (ctx : Canvas.canvas)
  (e : Eyeball.t) :
  let e' := fst (EyeballDraw.draw sin cos ctx e) in
  Eyeball.seed e' = Eyeball.seed e
  /\ Eyeball.spec e' = Eyeball.spec e
  /\ Eyeball.metadata e' = Eyeball.metadata e.
Proof. cbv zeta. rewrite draw_eq. repeat split. Qed.

Lemma shows_kept (objs objs' : list Eyeball.t) (refs : list ref)
  (cs : list card) :
  keeps_objects objs objs' ->
  Forall2 (shows objs) refs cs -> Forall2 (shows objs') refs cs.
Proof.
  intros K. apply Forall2_impl. intros r c (e & He & H1 & H2 & H3).
  destruct (K r e He) as (e' & He' & Es & Em).
  exists e'. rewrite Es, Em. repeat split; assumption.
Qed.

Lemma keeps_objects_push (objs : list Eyeball.t) (e : Eyeball.t) :
  keeps_objects objs (Eyeball.push objs e).
Proof.
  intros r x H. exists x. repeat split. unfold Eyeball.push.
  rewrite nth_error_app1; [exact H |]. apply nth_error_Some. congruence.
Qed.

Lemma nth_error_assign {A} (l : list A) (i j : nat) (x : A) :
  nth_error (assign l i x) j
  = if Nat.eqb i j then option_map (fun _ => x) (nth_error l j)
    else nth_error l j.
Proof.
  revert i j. induction l as [|y l IH]; intros i j; cbn [assign].
  - destruct j; cbn; now destruct (Nat.eqb i _).
  - destruct i, j; cbn [assign nth_error Nat.eqb option_map]; try reflexivity.
    apply IH.
Qed.

Lemma Forall_assign {A} (P : A -> Prop) (l : list A) (i : nat) (x : A) :
  Forall P l -> P x -> Forall P (assign l i x).
Proof.
  intros H Hx. revert i. induction H as [|y l Hy H IH]; intros i; cbn [assign];
    [constructor |].
  destruct i; constructor; auto.
Qed.

Lemma made_new (seed0 : Z) :
  (0 <= seed0 <= 999999)%Z -> made (Eyeball.new seed0 300 300).
Proof.
  intros H. destruct (spec_new seed0 300 300) as (_ & _ & _ & E).
  unfold made. rewrite E. repeat split; apply H.
Qed.

Lemma generateEyeballWithSeed_eq (seed0 : Z) (p : page env) :
  let q := snd (generateEyeballWithSeed seed0 p) in
  fst (generateEyeballWithSeed seed0 p) = seed0
  /\ objects q = Eyeball.push (objects p) (Eyeball.new seed0 300 300)
  /\ eyeballs q = Eyeball.push (eyeballs p) (length (objects p))
  /\ animationLoops q
     = Eyeball.push (animationLoops p)
         (fst (requestAnimationFrame env (animate_of (length (objects p)))
                 (window p)))
  /\ cards q
     = Eyeball.push (cards p)
         (mkCard ("#" ++ JS.string_of_Z seed0)
                 ("Witness #" ++ JS.string_of_Z seed0)
                 (Eyeball.metadata (Eyeball.new seed0 300 300)))
  /\ seedInput q = seedInput p
  /\ alerts q = alerts p
  /\ window q
     = snd (requestAnimationFrame env (animate_of (length (objects p)))
              (window p)).
Proof.
  unfold generateEyeballWithSeed. cbv zeta.
  destruct (requestAnimationFrame env _ (window p)) as [id w].
  repeat split.
Qed.

Lemma generateEyeballWithSeed_consistent (seed0 : Z) (p : page env) :
  (0 <= seed0 <= 999999)%Z -> consistent p ->
  consistent (snd (generateEyeballWithSeed seed0 p)).
Proof.
  intros Hs (Hm & Hc & Hl).
  destruct (generateEyeballWithSeed_eq seed0 p)
    as (_ & Eo & Ee & Ea & Ec & _).
  unfold consistent. rewrite Eo, Ee, Ea, Ec. unfold Eyeball.push.
  split; [| split].
  - apply Forall_app. split; [exact Hm |].
    constructor; [now apply made_new | constructor].
  - apply Forall2_app.
    + apply (shows_kept (objects p)); [apply keeps_objects_push | exact Hc].
    + constructor; [| constructor].
      exists (Eyeball.new seed0 300 300).
      destruct (spec_new seed0 300 300) as (_ & _ & _ & E).
      rewrite E. cbn [seedInfo title traitsShown]. repeat split.
      rewrite nth_error_app2 by lia. now rewrite Nat.sub_diag.
  - rewrite !length_app. cbn [length]. lia.
Qed.

Lemma random_seed (w : browser env) :
  random_in_unit_interval env ->
  (0 <= JS.floor (JS.mul (fst (Math_random env w)) 1000000%Q) <= 999999)%Z.
Proof.
  intros H. destruct (H w) as [H0 H1].
  apply floor_between; rewrite mul_correct.
  - change (inject_Z 0) with 0%Q. nra.
  - change (inject_Z (999999 + 1)) with 1000000%Q. nra.
Qed.

Lemma generateSingleEye_eq (p : page env) :
  generateSingleEye p
  = generateEyeballWithSeed
      (JS.floor (JS.mul (fst (Math_random env (window p))) 1000000))
      (with_window p (snd (Math_random env (window p)))).
Proof.
  unfold generateSingleEye. now destruct (Math_random env (window p)).
Qed.

Lemma generateSingleEye_consistent (p : page env) :
  random_in_unit_interval env -> consistent p ->
  consistent (snd (generateSingleEye p)).
Proof.
  intros H Hp. rewrite generateSingleEye_eq.
  apply generateEyeballWithSeed_consistent; [now apply random_seed | exact Hp].
Qed.

Lemma clearCollection_consistent (p : page env) :
  consistent p -> consistent (clearCollection p).
Proof.
  intros (Hm & _ & _). unfold consistent, clearCollection. cbn.
  repeat split; [exact Hm | constructor].
Qed.

Lemma generateEyes_consistent (n : nat) (p : page env) :
  random_in_unit_interval env -> consistent p -> consistent (generateEyes n p).
Proof.
  intros H. revert p. induction n as [|n IH]; intros p Hp; cbn [generateEyes];
    [exact Hp |].
  apply IH. now apply generateSingleEye_consistent.
Qed.

Lemma generateNewCollection_consistent (p : page env) :
  random_in_unit_interval env -> consistent p ->
  consistent (generateNewCollection p).
Proof.
  intros H Hp. unfold generateNewCollection. cbv zeta.
  apply generateEyes_consistent; [exact H |].
  now apply clearCollection_consistent.
Qed.

Lemma generateFromSeed_consistent (p : page env) :
  consistent p -> consistent (generateFromSeed p).
Proof.
  intros Hp. unfold generateFromSeed. cbv zeta.
  destruct (parseInt env (seedInput p)) as [n|]; [| exact Hp].
  destruct (negb (n =? 0)%Z && (1 <=? n)%Z && (n <=? 999999)%Z) eqn:E;
    [| exact Hp].
  apply andb_prop in E as [E E3]. apply andb_prop in E as [_ E2].
  apply Z.leb_le in E2, E3.
  assert (Hn : (0 <= n <= 999999)%Z) by lia.
  pose proof (generateEyeballWithSeed_consistent n p Hn Hp) as H.
  destruct (generateEyeballWithSeed n p) as [s q]. exact H.
Qed.

Lemma animate_consistent (r : ref) (p : page env) :
  consistent p -> consistent (animate r p).
Proof.
  intros (Hm & Hc & Hl). unfold animate. cbv zeta.
  destruct (requestAnimationFrame env (animate_of r) (window p)) as [id w].
  unfold consistent. cbn [objects eyeballs animationLoops cards].
  destruct (nth_error (objects p) r) as [e|] eqn:He;
    [| repeat split; assumption].
  destruct (draw_made (Math_sin env) (Math_cos env) (Canvas.mkCanvas 300 300) e)
    as (Ds & Dp & Dm).
  assert (Me : made e).
  { rewrite Forall_forall in Hm. apply Hm. eapply nth_error_In, He. }
  split; [| split; [| exact Hl]].
  - apply Forall_assign; [exact Hm |].
    unfold made. rewrite Ds, Dp, Dm. exact Me.
  - apply (shows_kept (objects p)); [| exact Hc].
    intros j x Hj. rewrite nth_error_assign.
    destruct (Nat.eqb_spec r j) as [-> | Hne].
    + rewrite Hj. cbn [option_map]. eexists. split; [reflexivity |].
      rewrite He in Hj. injection Hj as <-. now split.
    + exists x. repeat split. exact Hj.
Qed.

Lemma run_consistent (w : browser env) (acts : list action) :
  random_in_unit_interval env -> consistent (run env w acts).
Proof.
  intros H. unfold run.
  assert (H0 : consistent (init (loaded env w))).
  { apply generateNewCollection_consistent; [exact H |].
    repeat split; constructor. }
  revert H0. generalize (init (loaded env w)) as p.
  induction acts as [|a acts IH]; intros p Hp; cbn [fold_left]; [exact Hp |].
  apply IH. destruct a as [[| |typed|]|r]; cbn [step click].
  - now apply generateNewCollection_consistent.
  - now apply generateSingleEye_consistent.
  - apply generateFromSeed_consistent.
    destruct Hp as (Hm & Hc & Hl). repeat split; assumption.
  - now apply clearCollection_consistent.
  - now apply animate_consistent.
Qed.

End GalleryFacts.

Section GalleryTheorems.

Import Gallery.
Local Open Scope string_scope.

(** X18: the globals and the document stay in step.  After [init] and any
    clicks on the buttons and any calls of [animate] by the browser, with
    [Math.random()] in [0, 1): the cards of the document are those of
    the instances in [eyeballs], in the same order, each showing the seed
    and the traits of its instance; [animationLoops] has one handle for
    each of them; and every instance ever constructed has a seed in
    0 .. 999999, keeps the attributes and traits the constructor gave it
    and has its attributes in the ranges of [generateProperties]. *)
Theorem gallery_stays_consistent
  (env : environment) (w : browser env) (acts : list action) :
  random_in_unit_interval env ->
  let p := run env w acts in
  Forall2 (shows (objects p)) (eyeballs p) (cards p)
  /\ length (animationLoops p) = length (eyeballs p)
  /\ Forall (fun e => made e /\ valid_spec (Eyeball.spec e)) (objects p).
Proof.
  intros H p. destruct (run_consistent env w acts H) as (Hm & Hc & Hl).
  fold p in Hm, Hc, Hl. repeat split; try assumption.
  apply Forall_forall. intros e He.
  rewrite Forall_forall in Hm. pose proof (Hm e He) as M.
  split; [exact M |]. destruct M as (Hs & -> & _).
  apply new_valid. lia.
Qed.

Lemma gallery_stays_consistent_witness :
  let env :=
    mkEnvironment (fun _ : unit => (0.5%Q, tt)) (fun _ => 0%Q) (fun _ => 1%Q)
      (fun _ => Some 7%Z) (fun _ _ => (1%Z, tt)) (fun _ _ => tt) in
  let p := run env tt [Click Clear; Click (FromSeed "7"); Animate 12%nat] in
  Forall2 (shows (objects p)) (eyeballs p) (cards p)
  /\ length (animationLoops p) = length (eyeballs p).
Proof.
  intros env p.
  assert (H : random_in_unit_interval env).
  { intros w. cbn. split; [discriminate | reflexivity]. }
  destruct (gallery_stays_consistent env tt
              [Click Clear; Click (FromSeed "7"); Animate 12%nat] H)
    as (H1 & H2 & _).
  split; [exact H1 | exact H2].
Defined.

Lemma entries_spec (objs : list Eyeball.t) (total : Z) (refs : list ref)
  (cs : list card) :
  Forall made objs -> Forall2 (shows objs) refs cs ->
  forall index : Z,
    let es := entries objs total index refs in
    List.map edition es
    = List.map (fun k => (index + 1 + Z.of_nat k)%Z) (seq 0 (length refs))
    /\ Forall (fun en => total_supply en = total /\ collection en = "Witness") es
    /\ List.map name es = List.map title cs
    /\ List.map attributes es
       = List.map (fun c => List.map attribute_of (traitsShown c)) cs
    /\ Forall2 (fun en r => exists e, nth_error objs r = Some e
                  /\ seed en = Eyeball.seed e
                  /\ attributes en
                     = List.map attribute_of (Eyeball.metadata e))
               es refs.
Proof.
  intros Hm Hc. induction Hc as [|r c refs cs (e & He & H1 & H2 & H3) Hc IH];
    intros index; cbn [entries length seq List.map].
  - repeat split; constructor.
  - rewrite He. cbn [app].
    destruct (IH (index + 1)%Z) as (I1 & I2 & I3 & I4 & I5).
    cbn [List.map edition name attributes].
    split; [| split; [| split; [| split]]].
    + f_equal; [lia |]. rewrite I1, <- seq_shift, List.map_map.
      apply List.map_ext. intros k. lia.
    + constructor; [split; reflexivity | exact I2].
    + rewrite H2, I3. reflexivity.
    + rewrite H3, I4. reflexivity.
    + constructor; [| exact I5]. exists e. repeat split. exact He.
Qed.

Lemma made_trait_names (e : Eyeball.t) :
  made e -> List.map Eyeball.name (Eyeball.metadata e) = trait_names.
Proof.
  intros (_ & _ & ->). rewrite metadata_new, generateMetadata_eq. reflexivity.
Qed.

(** X19: [exportMetadata] exports what the page shows.  After [init] and
    any actions, with [Math.random()] in [0, 1), [allMetadata] has one
    entry for each instance of [eyeballs]; the editions are 1, 2, ..., n
    in the order of the cards and [total_supply] is n in every entry; the
    name of an entry is the title of its card and its attributes are the
    traits the card lists, the six trait names as [trait_type]; each seed
    is in 0 .. 999999. *)
Theorem export_matches_page
  (env : environment) (w : browser env) (acts : list action) :
  random_in_unit_interval env ->
  let p := run env w acts in
  let es := exportMetadata p in
  let n := length (eyeballs p) in
  length es = n
  /\ List.map edition es = List.map Z.of_nat (seq 1 n)
  /\ Forall (fun en => total_supply en = Z.of_nat n) es
  /\ List.map name es = List.map title (cards p)
  /\ List.map attributes es
     = List.map (fun c => List.map attribute_of (traitsShown c)) (cards p)
  /\ Forall (fun en =>
               List.map trait_type (attributes en) = trait_names
               /\ (0 <= seed en <= 999999)%Z) es.
Proof.
  intros H p es n. destruct (run_consistent env w acts H) as (Hm & Hc & Hl).
  fold p in Hm, Hc, Hl.
  pose proof (entries_spec (objects p) (Z.of_nat n) (eyeballs p) (cards p)
                Hm Hc 0) as E.
  cbv zeta in E. change (entries _ _ _ _) with es in E.
  destruct E as (E1 & E2 & E3 & E4 & E5). fold n in E1.
  assert (L : length es = n).
  { rewrite <- (List.length_map edition), E1, List.length_map, length_seq.
    reflexivity. }
  split; [exact L |]. split; [| split; [| split; [| split]]].
  - rewrite E1, <- seq_shift, List.map_map. apply List.map_ext. intros k. lia.
  - eapply Forall_impl; [| exact E2]. now intros en [T _].
  - exact E3.
  - exact E4.
  - clear E1 E2 E3 E4 L Hc Hl. clearbody es n.
    induction E5 as [|en r es' refs (e & He & Hs & Ha) _ IH];
      [constructor | constructor; [| exact IH]].
    assert (Me : made e).
    { rewrite Forall_forall in Hm. apply Hm. eapply nth_error_In, He. }
    split; [| rewrite Hs; apply Me].
    rewrite Ha, List.map_map. cbn [trait_type attribute_of].
    now apply made_trait_names.
Qed.

Lemma export_matches_page_witness :
  let env :=
    mkEnvironment (fun _ : unit => (0.5%Q, tt)) (fun _ => 0%Q) (fun _ => 1%Q)
      (fun _ => Some 7%Z) (fun _ _ => (1%Z, tt)) (fun _ _ => tt) in
  let p := run env tt [Click Clear; Click (FromSeed "7"); Click SingleEye] in
  List.map edition (exportMetadata p)
  = List.map Z.of_nat (seq 1 (length (eyeballs p))).
Proof.
  intros env p.
  assert (H : random_in_unit_interval env).
  { intros w. cbn. split; [discriminate | reflexivity]. }
  apply (export_matches_page env tt
           [Click Clear; Click (FromSeed "7"); Click SingleEye] H).
Defined.

(** X20: [generateFromSeed] accepts exactly the inputs that [parseInt]
    reads as an integer from 1 to 999999.  Then it constructs the instance
    of that seed, adds it to [eyeballs] with a card, clears the input and
    shows no alert.  For every other input ([NaN], 0, a negative number, a
    number above 999999) it changes nothing on the page and shows the
    alert. *)
Theorem generateFromSeed_validates (env : environment) (p : page env) :
  let q := generateFromSeed p in
  let accepted :=
    exists n, parseInt env (seedInput p) = Some n /\ (1 <= n <= 999999)%Z in
  (accepted ->
   exists n,
     parseInt env (seedInput p) = Some n
     /\ objects q = Eyeball.push (objects p) (Eyeball.new n 300 300)
     /\ eyeballs q = Eyeball.push (eyeballs p) (length (objects p))
     /\ length (cards q) = S (length (cards p))
     /\ seedInput q = ""
     /\ alerts q = alerts p)
  /\ (~ accepted ->
      objects q = objects p /\ eyeballs q = eyeballs p /\ cards q = cards p
      /\ animationLoops q = animationLoops p /\ window q = window p
      /\ seedInput q = seedInput p
      /\ alerts q
         = Eyeball.push (alerts p)
             "Please enter a valid seed between 1 and 999999").
Proof.
  cbv zeta. unfold generateFromSeed. cbv zeta.
  destruct (parseInt env (seedInput p)) as [n|].
  - destruct (negb (n =? 0)%Z && (1 <=? n)%Z && (n <=? 999999)%Z) eqn:E.
    + apply andb_prop in E as [E E3]. apply andb_prop in E as [_ E2].
      apply Z.leb_le in E2, E3. split.
      * intros _. exists n.
        destruct (generateEyeballWithSeed_eq env n p)
          as (_ & Eo & Ee & _ & Ec & _ & Ea & _).
        destruct (generateEyeballWithSeed n p) as [s q].
        cbn [snd] in Eo, Ee, Ec, Ea.
        cbn [objects eyeballs cards seedInput alerts].
        rewrite Eo, Ee, Ec, Ea.
        repeat split. unfold Eyeball.push. rewrite length_app. cbn [length]. lia.
      * intros N. exfalso. apply N. exists n. split; [reflexivity | lia].
    + split; [| intros _; repeat split].
      intros (n' & En & Hn). injection En as <-.
      assert (F : (negb (n =? 0)%Z && (1 <=? n)%Z && (n <=? 999999)%Z) = true).
      { destruct (Z.eqb_spec n 0); [lia |].
        destruct (Z.leb_spec 1 n); [| lia].
        destruct (Z.leb_spec n 999999); [reflexivity | lia]. }
      congruence.
  - split; [| intros _; repeat split].
    intros (n & En & _). discriminate En.
Qed.

(** X21: seed 0 can be drawn but not entered.  With [Math.random()] in
    [0, 1), [generateSingleEye] constructs an instance whose seed,
    [Math.floor(Math.random() * 1000000)], is in 0 .. 999999, and it is 0
    when the random number is at most half a millionth (the product is
    then at most one half, rounded or not); but [generateFromSeed] rejects
    an input that reads as 0, so the instance of seed 0 cannot be generated
    again by hand. *)
Theorem random_seed_zero_cannot_be_entered (env : environment) (p : page env) :
  random_in_unit_interval env ->
  let seed0 := fst (generateSingleEye p) in
  (0 <= seed0 <= 999999)%Z
  /\ nth_error (objects (snd (generateSingleEye p))) (length (objects p))
     = Some (Eyeball.new seed0 300 300)
  /\ ((fst (Math_random env (window p)) <= 1 / 2000000)%Q -> seed0 = 0%Z)
  /\ (forall p' : page env,
        parseInt env (seedInput p') = Some 0%Z ->
        objects (generateFromSeed p') = objects p'
        /\ eyeballs (generateFromSeed p') = eyeballs p').
Proof.
  intros H seed0. subst seed0. rewrite generateSingleEye_eq.
  set (u := fst (Math_random env (window p))).
  set (p1 := with_window p (snd (Math_random env (window p)))).
  destruct (generateEyeballWithSeed_eq env (JS.floor (JS.mul u 1000000%Q)) p1)
    as (Es & Eo & _).
  rewrite Es, Eo. split; [apply (random_seed env (window p) H) |].
  split; [| split].
  - unfold Eyeball.push. change (objects p1) with (objects p).
    rewrite nth_error_app2 by lia. now rewrite Nat.sub_diag.
  - intros Hu. destruct (H (window p)) as [H0 _]. fold u in H0.
    assert (B : (0 <= JS.floor (JS.mul u 1000000%Q) <= 0)%Z).
    { apply floor_between; rewrite mul_correct.
      - change (inject_Z 0) with 0%Q. nra.
      - change (inject_Z (0 + 1)) with 1%Q.
        assert (E : (1 / 2000000 == 1 # 2000000)%Q) by reflexivity.
        rewrite E in Hu. nra. }
    lia.
  - intros p' E. unfold generateFromSeed. cbv zeta. rewrite E.
    split; reflexivity.
Qed.

Lemma random_seed_zero_cannot_be_entered_witness :
  let env :=
    mkEnvironment (fun _ : unit => (0%Q, tt)) (fun _ => 0%Q) (fun _ => 1%Q)
      (fun _ => Some 0%Z) (fun _ _ => (1%Z, tt)) (fun _ _ => tt) in
  fst (generateSingleEye (loaded env tt)) = 0%Z
  /\ eyeballs (generateFromSeed (snd (generateSingleEye (loaded env tt))))
     = eyeballs (snd (generateSingleEye (loaded env tt))).
Proof.
  intros env.
  assert (H : random_in_unit_interval env).
  { intros w. cbn. split; [discriminate | reflexivity]. }
  destruct (random_seed_zero_cannot_be_entered env (loaded env tt) H)
    as (_ & _ & Hz & Hf).
  split; [apply Hz; vm_compute; discriminate | apply Hf; reflexivity].
Defined.

Lemma generateEyes_adds (env : environment) (n : nat) (p : page env) :
  let q := generateEyes n p in
  eyeballs q = (eyeballs p ++ seq (length (objects p)) n)%list
  /\ length (objects q) = (length (objects p) + n)%nat
  /\ length (cards q) = (length (cards p) + n)%nat
  /\ length (animationLoops q) = (length (animationLoops p) + n)%nat
  /\ seedInput q = seedInput p
  /\ alerts q = alerts p.
Proof.
  cbv zeta. revert p. induction n as [|n IH]; intros p; cbn [generateEyes seq].
  - rewrite app_nil_r, !Nat.add_0_r. repeat split.
  - rewrite generateSingleEye_eq.
    match goal with
    | |- context [generateEyeballWithSeed ?s ?p1] =>
        destruct (generateEyeballWithSeed_eq env s p1)
          as (_ & Eo & Ee & Ea & Ec & Ei & El & _);
        destruct (IH (snd (generateEyeballWithSeed s p1)))
          as (I1 & I2 & I3 & I4 & I5 & I6)
    end.
    rewrite I1, I2, I3, I4, I5, I6, Eo, Ee, Ea, Ec, Ei, El.
    unfold Eyeball.push. rewrite !length_app. cbn [length objects eyeballs
      cards animationLoops with_window seedInput alerts].
    rewrite <- app_assoc. cbn [app]. rewrite Nat.add_1_r.
    repeat split; lia.
Qed.

(** X22: [generateNewCollection] leaves exactly twelve instances, whatever
    was on the page: [eyeballs] holds the twelve new objects in the order
    of their construction, with twelve cards and twelve handles in
    [animationLoops]; the input and the alerts are untouched; [init] does
    the same. *)
Theorem generateNewCollection_makes_twelve (env : environment) (p : page env) :
  let q := generateNewCollection p in
  eyeballs q = seq (length (objects p)) 12
  /\ length (objects q) = (length (objects p) + 12)%nat
  /\ length (cards q) = 12%nat
  /\ length (animationLoops q) = 12%nat
  /\ seedInput q = seedInput p
  /\ alerts q = alerts p
  /\ init p = q.
Proof.
  cbv zeta. unfold init, generateNewCollection. cbv zeta.
  destruct (generateEyes_adds env 12 (clearCollection p))
    as (I1 & I2 & I3 & I4 & I5 & I6).
  rewrite I1, I2, I3, I4, I5, I6. repeat split.
Qed.

End GalleryTheorems.



(** ** The animation frames *)

Section AnimationFacts.

Import Gallery Browser.

Variables sin cos : number -> number.
Variable parseInt : string -> option Z.

Local Abbreviation env := (Browser.environment sin cos parseInt).
Local Abbreviation known := (@handles_known sin cos parseInt).

Implicit Types p : page env.

Lemma Forall_le_weaken {A} (f : A -> Z) (a b : Z) (l : list A) :
  (a <= b)%Z -> Forall (fun x => (f x <= a)%Z) l -> Forall (fun x => (f x <= b)%Z) l.
Proof.
  intros H. apply Forall_impl. intros x Hx. lia.
Qed.

Lemma generateEyeballWithSeed_browser (seed0 : Z) p :
  let q := snd (generateEyeballWithSeed seed0 p) in
  let w : Browser.t := window p in
  animationLoops q = (animationLoops p ++ [(identifier w + 1)%Z])%list
  /\ (window q : Browser.t)
     = Browser.mk (entropy w) (drawn w) (identifier w + 1)
         (callbacks w ++ [((identifier w + 1)%Z, animate_of (length (objects p)))]).
Proof.
  cbv zeta. destruct (generateEyeballWithSeed_eq env seed0 p)
    as (_ & _ & _ & Ea & _ & _ & _ & Ew).
  rewrite Ea, Ew. split; reflexivity.
Qed.

Lemma generateEyeballWithSeed_known (seed0 : Z) p :
  known p -> known (snd (generateEyeballWithSeed seed0 p)).
Proof.
  intros [Ha Hc]. unfold handles_known in *. cbv zeta in *.
  destruct (generateEyeballWithSeed_browser seed0 p) as [-> ->].
  cbn [identifier callbacks]. split; apply Forall_app; split.
  - eapply Forall_le_weaken with (f := fun h => h); [| exact Ha]. lia.
  - constructor; [lia | constructor].
  - eapply Forall_le_weaken; [| exact Hc]. lia.
  - constructor; [cbn; lia | constructor].
Qed.

Lemma generateSingleEye_known p :
  known p -> known (snd (generateSingleEye p)).
Proof.
  intros H. rewrite generateSingleEye_eq.
  apply generateEyeballWithSeed_known. exact H.
Qed.

Lemma cancel_all_callbacks (hs : list handle) (w : Browser.t) :
  let w' := fold_left (fun w id => Browser.cancel id w) hs w in
  identifier w' = identifier w
  /\ callbacks w'
     = List.filter (fun c => negb (existsb (Z.eqb (fst c)) hs)) (callbacks w).
Proof.
  cbv zeta. revert w. induction hs as [|h hs IH]; intros w; cbn [fold_left].
  - split; [reflexivity |]. cbn [existsb negb].
    induction (callbacks w) as [|c l IHl]; [reflexivity |].
    cbn [List.filter]. now rewrite <- IHl.
  - destruct (IH (Browser.cancel h w)) as [-> ->]. split; [reflexivity |].
    cbn [Browser.cancel callbacks existsb].
    induction (callbacks w) as [|c l IHl]; [reflexivity |].
    cbn [List.filter].
    match goal with
    | |- context [Z.eqb ?a h] => destruct (Z.eqb a h)
    end; cbn [negb orb List.filter]; [exact IHl |].
    match goal with
    | |- context [existsb ?f hs] => destruct (existsb f hs)
    end; cbn [negb]; [exact IHl |].
    now rewrite IHl.
Qed.

Lemma clearCollection_browser p :
  let w : Browser.t := window p in
  let w' : Browser.t := window (clearCollection p) in
  identifier w' = identifier w
  /\ callbacks w'
     = List.filter (fun c => negb (existsb (Z.eqb (fst c)) (animationLoops p)))
         (callbacks w).
Proof. exact (cancel_all_callbacks (animationLoops p) (window p)). Qed.

Lemma clearCollection_known p : known p -> known (clearCollection p).
Proof.
  intros [Ha Hc]. destruct (clearCollection_browser p) as [Ei Ec].
  cbv zeta in Ei, Ec. unfold handles_known in *. cbv zeta in *.
  split; [constructor |].
  rewrite Ei, Ec. apply Forall_forall. intros c Hin.
  apply filter_In in Hin as [Hin _].
  rewrite Forall_forall in Hc. now apply Hc.
Qed.

Lemma generateEyes_known (n : nat) p : known p -> known (generateEyes n p).
Proof.
  revert p. induction n as [|n IH]; intros p H; cbn [generateEyes]; [exact H |].
  apply IH, generateSingleEye_known, H.
Qed.

Lemma generateNewCollection_known p :
  known p -> known (generateNewCollection p).
Proof.
  intros H. unfold generateNewCollection. cbv zeta.
  apply generateEyes_known, clearCollection_known, H.
Qed.

Lemma generateFromSeed_known p : known p -> known (generateFromSeed p).
Proof.
  intros H. unfold generateFromSeed. cbv zeta.
  destruct (Gallery.parseInt env (seedInput p)) as [n|]; [| exact H].
  destruct (negb (n =? 0)%Z && (1 <=? n)%Z && (n <=? 999999)%Z); [| exact H].
  pose proof (generateEyeballWithSeed_known n p H) as K.
  destruct (generateEyeballWithSeed n p) as [s q]. exact K.
Qed.

Lemma animate_browser (r : ref) p :
  let q := animate r p in
  let w : Browser.t := window p in
  animationLoops q = animationLoops p
  /\ eyeballs q = eyeballs p
  /\ (window q : Browser.t)
     = Browser.mk (entropy w) (drawn w) (identifier w + 1)
         (callbacks w ++ [((identifier w + 1)%Z, animate_of r)]).
Proof. cbv zeta. unfold animate. cbv zeta. cbn. repeat split. Qed.

(** The callbacks of a frame, called one after the other on a page where
    the callbacks [fresh] wait already. *)
Lemma frame_calls (waiting : list (handle * callback)) :
  forall p (low : Z),
    let w : Browser.t := window p in
    let q :=
      fold_left
        (fun p c => match snd c with animate_of eyeball => animate eyeball p end)
        waiting p in
    let w' : Browser.t := window q in
    (low <= identifier w)%Z ->
    Forall (fun c => (low < fst c <= identifier w)%Z) (callbacks w) ->
    animationLoops q = animationLoops p
    /\ eyeballs q = eyeballs p
    /\ (identifier w <= identifier w')%Z
    /\ Forall (fun c => (low < fst c <= identifier w')%Z) (callbacks w')
    /\ List.map snd (callbacks w')
       = (List.map snd (callbacks w) ++ List.map snd waiting)%list.
Proof.
  induction waiting as [|[h [r]] waiting IH]; intros p low; cbv zeta;
    intros Hlow Hc; cbn [fold_left snd].
  - rewrite app_nil_r. repeat split; [lia | exact Hc].
  - destruct (animate_browser r p) as (Ea & Ee & Ew). cbv zeta in Ea, Ee, Ew.
    specialize (IH (animate r p) low). cbv zeta in IH.
    rewrite Ew in IH. cbn [identifier callbacks] in IH.
    destruct IH as (I1 & I2 & I3 & I4 & I5).
    + lia.
    + apply Forall_app. split.
      * eapply Forall_impl; [| exact Hc]. cbn. intros c Hh. lia.
      * constructor; [cbn; lia | constructor].
    + rewrite I1, I2, Ea, Ee. repeat split; [lia | exact I4 |].
      rewrite I5, List.map_app, <- app_assoc. reflexivity.
Qed.

Lemma frame_spec p :
  known p ->
  let q := Browser.frame p in
  let w : Browser.t := window p in
  let w' : Browser.t := window q in
  animationLoops q = animationLoops p
  /\ eyeballs q = eyeballs p
  /\ (identifier w <= identifier w')%Z
  /\ Forall (fun c => (identifier w < fst c <= identifier w')%Z) (callbacks w')
  /\ List.map snd (callbacks w') = List.map snd (callbacks w).
Proof.
  intros [Ha Hc]. cbv zeta. unfold Browser.frame. cbv zeta.
  pose proof (frame_calls (callbacks (window p))
                (with_window p
                   (Browser.mk (entropy (window p)) (drawn (window p))
                      (identifier (window p)) []))
                (identifier (window p))) as F.
  cbv zeta in F. cbn [with_window window identifier callbacks] in F.
  destruct F as (F1 & F2 & F3 & F4 & F5); [lia | constructor |].
  cbn [animationLoops eyeballs List.map app] in F1, F2, F5.
  repeat split; assumption.
Qed.

Lemma frame_known p : known p -> known (Browser.frame p).
Proof.
  intros H. destruct (frame_spec p H) as (Ea & _ & Hi & Hc & _).
  cbv zeta in *. destruct H as [Ha _]. unfold handles_known. cbv zeta.
  rewrite Ea. split.
  - eapply Forall_le_weaken with (f := fun h => h); [exact Hi | exact Ha].
  - eapply Forall_impl; [| exact Hc]. cbn. intros c Hh. lia.
Qed.

Lemma play_known (numbers : nat -> number) (events : list event) :
  known (Browser.play sin cos parseInt numbers events).
Proof.
  unfold Browser.play.
  match goal with
  | |- known (fold_left _ _ ?p0) =>
      assert (H0 : known p0);
      [| revert H0; generalize p0 as p]
  end.
  { apply generateNewCollection_known. split; constructor. }
  induction events as [|e events IH]; intros p Hp; cbn [fold_left]; [exact Hp |].
  apply IH. destruct e as [[| |typed|]|]; cbn [happen click].
  - now apply generateNewCollection_known.
  - now apply generateSingleEye_known.
  - apply generateFromSeed_known. exact Hp.
  - now apply clearCollection_known.
  - now apply frame_known.
Qed.

Lemma generateEyes_callbacks (n : nat) p :
  length (callbacks (window (generateEyes n p) : Browser.t))
  = (length (callbacks (window p : Browser.t)) + n)%nat.
Proof.
  revert p. induction n as [|n IH]; intros p; cbn [generateEyes]; [lia |].
  rewrite IH, generateSingleEye_eq.
  match goal with
  | |- context [generateEyeballWithSeed ?s ?p1] =>
      destruct (generateEyeballWithSeed_browser s p1) as [_ E]
  end.
  cbv zeta in E. rewrite E. cbn [callbacks]. rewrite length_app.
  cbn [length with_window window Math_random Browser.environment
       Browser.random snd callbacks]. lia.
Qed.

End AnimationFacts.

(** X23: once a frame has run, [clearCollection] stops no animation.
    [animationLoops] keeps the handle of the first request of each
    instance only; [animate] requests the next frame itself and drops that
    handle.  So in the browser, after [init], any clicks and frames and
    then one more frame, [clearCollection] empties [eyeballs], the cards
    and [animationLoops], but every callback that waited before the frame
    waits again after it, for an instance that is no longer on the page;
    and [generateNewCollection] then adds twelve more.  Only callbacks
    that have not run yet are cancelled: right after [clearCollection] no
    waiting callback has a handle of [animationLoops]. *)
Theorem animation_outlives_clearCollection
  (sin cos : number -> number) (parseInt : string -> option Z)
  (numbers : nat -> number) (events : list Browser.event) :
  let p := Browser.play sin cos parseInt numbers events in
  let waiting := fun q : Gallery.page (Browser.environment sin cos parseInt) =>
    Browser.callbacks (Gallery.window q) in
  let q := Gallery.clearCollection (Browser.frame p) in
  Gallery.eyeballs q = [] /\ Gallery.cards q = []
  /\ Gallery.animationLoops q = []
  /\ waiting q = waiting (Browser.frame p)
  /\ List.map snd (waiting q) = List.map snd (waiting p)
  /\ length (waiting (Gallery.generateNewCollection (Browser.frame p)))
     = (length (waiting p) + 12)%nat
  /\ Forall (fun c => ~ In (fst c) (Gallery.animationLoops p))
            (waiting (Gallery.clearCollection p)).
Proof.
  intros p waiting q. subst waiting. cbv beta.
  pose proof (play_known sin cos parseInt numbers events) as K. fold p in K.
  destruct (frame_spec sin cos parseInt p K) as (Ea & _ & _ & Hc & Hm).
  cbv zeta in Ea, Hc, Hm.
  assert (Hq : Browser.callbacks (Gallery.window q)
               = Browser.callbacks (Gallery.window (Browser.frame p))).
  { subst q.
    destruct (clearCollection_browser sin cos parseInt (Browser.frame p))
      as [_ Ec].
    cbv zeta in Ec.
    rewrite Ec, Ea. apply forallb_filter_id. apply forallb_forall.
    intros c Hin. apply negb_true_iff.
    destruct (existsb (Z.eqb (fst c)) (Gallery.animationLoops p)) eqn:E;
      [| reflexivity].
    apply existsb_exists in E as (h & Hh & Eh). apply Z.eqb_eq in Eh.
    destruct K as [Ka _]. rewrite Forall_forall in Ka, Hc.
    specialize (Ka h Hh). specialize (Hc c Hin). cbv zeta in Ka. lia. }
  split; [reflexivity |]. split; [reflexivity |]. split; [reflexivity |].
  split; [exact Hq |]. split; [rewrite Hq; exact Hm |]. split.
  - unfold Gallery.generateNewCollection. cbv zeta.
    rewrite generateEyes_callbacks. fold q. rewrite Hq.
    rewrite <- (List.length_map snd), Hm, List.length_map. reflexivity.
  - destruct (clearCollection_browser sin cos parseInt p) as [_ Ec].
    cbv zeta in Ec.
    rewrite Ec. apply Forall_forall. intros c Hin Hh.
    apply filter_In in Hin as [_ Hn]. apply negb_true_iff in Hn.
    assert (E : existsb (Z.eqb (fst c)) (Gallery.animationLoops p) = true).
    { apply existsb_exists. exists (fst c). split; [exact Hh | apply Z.eqb_refl]. }
    exact (eq_true_false_abs _ E Hn).
Qed.



(** ** Powers and effects, and the elapsed time *)

Section PowersDrawn.

Import Render CanvasHelper EyeballDraw.
Local Open Scope string_scope.

Lemma powers_listed (s : Eyeball.Spec) :
  Forall (fun e => In (snd e) (Eyeball.powers_of s) <-> layer_on s (fst e) = true)
         effect_labels.
Proof.
  rewrite powers_of_active. unfold Eyeball.active_labels, Eyeball.flags, effect_labels.
  repeat constructor; cbn [fst snd layer_on];
    destruct (Eyeball.hasGlow s), (Eyeball.hasLaser s), (Eyeball.hasAura s),
      (Eyeball.hasParticles s), (Eyeball.hasLightning s);
    cbn [List.filter List.map fst snd In];
    try (intuition (try reflexivity; try discriminate); fail).
Qed.

(** X24: the powers a manifest can list are the effects a frame draws.
    For each of the five effects, its label is in the array [powers] of
    [generateMetadata] exactly when its layer has calls in the frame. *)
Theorem powers_are_the_effects_drawn
  (sin cos : number -> number) (ctx : Canvas.canvas) (this : Eyeball.t) :
  Forall (fun e =>
            In (snd e) (Eyeball.powers_of (Eyeball.spec this))
            <-> exists c, In (fst e, c) (snd (draw sin cos ctx this)))
         effect_labels.
Proof.
  eapply Forall_impl; [| apply (powers_listed (Eyeball.spec this))].
  intros [l label]. cbn [fst snd]. intros H.
  rewrite H. symmetry. apply frame_layers_on.
Qed.

End PowersDrawn.

Section TimeFacts.

Import SeededRandom Eyeball EyeballDraw.
Local Open Scope Q_scope.




End TimeFacts.

Lemma animation_outlives_clearCollection_witness :
  let sin := fun _ : number => 0%Q in
  let cos := fun _ : number => 1%Q in
  let parseInt := fun _ : string => @None Z in
  let numbers := fun _ : nat => 0.5%Q in
  let p := Browser.play sin cos parseInt numbers
             [Browser.Frame; Browser.Button Gallery.NewCollection] in
  length (Gallery.eyeballs p) = 12%nat
  /\ length (Browser.callbacks (Gallery.window p)) = 24%nat.
Proof.
  intros sin cos parseInt numbers p.
  destruct (animation_outlives_clearCollection sin cos parseInt numbers [])
    as (_ & _ & _ & _ & _ & H & _).
  set (p0 := Browser.play sin cos parseInt numbers []) in *.
  assert (E : p = Gallery.generateNewCollection (Browser.frame p0)) by reflexivity.
  rewrite E. split.
  - destruct (generateEyes_adds _ 12
                (Gallery.clearCollection (Browser.frame p0))) as (I1 & _).
    unfold Gallery.generateNewCollection. rewrite I1.
    rewrite length_app, length_seq. reflexivity.
  - rewrite H.
    assert (E0 : p0 = Gallery.generateEyes 12
                   (Gallery.clearCollection
                      (Gallery.loaded (Browser.environment sin cos parseInt)
                         (Browser.mk numbers 0 0 [])))) by reflexivity.
    rewrite E0, generateEyes_callbacks. reflexivity.
Defined.

(** ** The loops of the renderer *)

Section LoopFacts.

Import Render CanvasHelper EyeballDraw.
Local Open Scope Q_scope.

Lemma rounds_between (bound inc : number) (lo hi : Z) :
  0 < inc -> (0 <= lo)%Z ->
  inject_Z lo * inc <= bound -> bound <= inject_Z hi * inc ->
  bound > inject_Z (lo - 1) * inc ->
  (Z.to_nat lo <= rounds 0%Q bound inc <= Z.to_nat hi)%nat.
Proof.
  intros Hinc Hlo H1 H2 H3. unfold rounds.
  set (q := (bound - 0) / inc).
  assert (Hq : q * inc == bound) by (unfold q; field; lra).
  pose proof (Qle_ceiling q) as C1. pose proof (Qceiling_lt q) as C2.
  assert (A : inject_Z (lo - 1) < inject_Z (Qceiling q)).
  { eapply Qlt_le_trans; [| exact C1]. nra. }
  assert (B : inject_Z (Qceiling q - 1) < inject_Z hi).
  { eapply Qlt_le_trans; [exact C2 |]. nra. }
  rewrite <- Zlt_Qlt in A, B. lia.
Qed.

(** X26: the counted loops of the sclera and of the spiral come to an
    end.  The loop of the metallic sclera ([i += 2] up to 0.85 of the
    socket size) makes between 34 and 60 rounds on a constructed instance,
    for every seed in the 32-bit range; each arm of the spiral makes 189
    rounds: a loop given more rounds than these does nothing more. *)
Theorem renderer_loops_end {W} (body : number -> M W unit)
  (seed0 : Z) (w h : number) :
  (0 <= seed0 < 4294967296)%Z ->
  let scleraSize :=
    JS.mul (Eyeball.socketSize (Eyeball.spec (Eyeball.new seed0 w h))) 0.85 in
  (34 <= rounds 0%Q scleraSize 2%Q <= 60)%nat
  /\ (forall n, (60 <= n)%nat ->
        for_lt_fuel n 0 scleraSize 2 body = for_lt 0 scleraSize 2 body)
  /\ rounds 0 (JS.mul TWO_PI 3) 0.1 = 189%nat
  /\ (forall n, (189 <= n)%nat ->
        for_lt_fuel n 0 (JS.mul TWO_PI 3) 0.1 body
        = for_lt 0 (JS.mul TWO_PI 3) 0.1 body).
Proof.
  intros [H _] scleraSize.
  pose proof (new_valid seed0 w h H) as (_ & [S0 S1] & _).
  assert (R : (34 <= rounds 0%Q scleraSize 2%Q <= 60)%nat).
  { subst scleraSize.
    apply (rounds_between _ 2 34 60); try reflexivity; try lia;
      rewrite mul_correct;
      change (inject_Z (34 - 1)) with 33%Q; change (inject_Z 34) with 34%Q;
      change (inject_Z 60) with 60%Q; lra. }
  assert (P : rounds 0 (JS.mul TWO_PI 3) 0.1 = 189%nat) by reflexivity.
  split; [exact R |]. split; [| split; [exact P |]].
  - intros n Hn. apply for_lt_rounds_suffice; [reflexivity | lia].
  - intros n Hn. apply for_lt_rounds_suffice; [reflexivity | lia].
Qed.

Lemma renderer_loops_end_witness :
  let scleraSize :=
    JS.mul (Eyeball.socketSize (Eyeball.spec (Eyeball.new 4 300 300))) 0.85 in
  let n := rounds 0 scleraSize 2 in
  (34 <= n)%nat /\ (n <= 60)%nat.
Proof.
  apply (@renderer_loops_end Canvas.call (fun _ => ret tt) 4 300 300). lia.
Defined.

End LoopFacts.

(** ** The glow of the laser *)

Section GlowFacts.

Import Render CanvasHelper EyeballDraw.
Local Open Scope Q_scope.

Variables sin cos : number -> number.
Variable this : Eyeball.t.

Lemma in_written_left {W A B} (m : M W A) (k : A -> M W B) (s : state) (c : W) :
  In c (written (m s)) -> In c (written (bind m k s)).
Proof. intros H. rewrite written_bind. apply in_or_app. now left. Qed.

Lemma in_written_right {W A B} (m : M W A) (k : A -> M W B) (s : state) (c : W) :
  In c (written (k (result (m s)) (final (m s)))) -> In c (written (bind m k s)).
Proof. intros H. rewrite written_bind. apply in_or_app. now right. Qed.

(** X27: the glow of the laser on the iris and the pupil is never drawn
    without the beam.  [drawIris] and [drawPupil] draw the glow when
    [laserGlow > 0.1]; then the laser flag is set and the materialization
    phase is above 0.2, so [drawLaser] does not take its early return: it
    sets the line width of a beam, which the early return never does. *)
Theorem laser_glow_needs_beam (s : state) :
  JS.gtb (laserGlow sin this) 0.1 = true ->
  Eyeball.hasLaser (Eyeball.spec this) = true
  /\ exists weight,
       In (Canvas.lineWidth weight) (written (drawLaser sin cos this s)).
Proof.
  unfold laserGlow. destruct (Eyeball.hasLaser (Eyeball.spec this));
    [| intros H; discriminate H].
  cbv zeta.
  match goal with
  | |- context [if JS.gtb ?phase ?thr then _ else _] =>
      destruct (JS.gtb phase thr) eqn:P; [| intros H; discriminate H];
      assert (Q : JS.ltb phase thr = false)
  end.
  { unfold JS.gtb in P. apply ltb_lt in P. apply ltb_ge. lra. }
  intros _. split; [reflexivity |].
  unfold drawLaser. cbv zeta. rewrite Q.
  eexists.
  apply in_written_right, in_written_right, in_written_right.
  apply in_written_left.
  unfold for_up, upto. cbn [seq List.map forEach].
  apply in_written_left. cbn [forEach].
  apply in_written_left. apply in_written_right, in_written_left.
  left. reflexivity.
Qed.

End GlowFacts.

Lemma laser_glow_needs_beam_witness :
  let sin := fun _ : number => 1%Q in
  let cos := fun _ : number => 1%Q in
  let this := Eyeball.new 42 300 300 in
  exists weight,
    In (Canvas.lineWidth weight)
       (Render.written (EyeballDraw.drawLaser sin cos this (fresh_helper this))).
Proof.
  intros sin cos this.
  apply (laser_glow_needs_beam sin cos this (fresh_helper this)).
  vm_compute. reflexivity.
Defined.
